(** * X-Thread-Generator: the local text-to-thread pipeline

    A shallow embedding of the deterministic fallback pipeline
    (utils/charCounter, utils/langDetect, utils/dedupe,
    services/hashtagGenerator, services/localTemplates) and the properties
    its specification states about it, with the code around it: the
    validation and cleaning of a request (utils/inputSanitizer) and the
    fallback path of services/geminiService.

    Conventions.
    - A JavaScript string is the list of its UTF-16 code units ([jsstring]);
      [length] is therefore [String.prototype.length].
    - JavaScript numbers that the code uses as counts and indices are
      integers ([Z]); the few fractional constants (0.3, 0.5, 1.5, 0.7) are
      taken as exact rationals and written with cross-multiplication.
    - What the code takes from its runtime and from npm and that is defined
      by Unicode data rather than by this repository is gathered in the
      class [Host]: the grapheme splitter, [toLowerCase], and the general
      category test behind [\p{P}\p{S}].
    - [Math.random] is an explicit stream of draws threaded through the
      calls that consume it. *)

From Stdlib Require Import List ZArith NArith Lia Bool Arith String Ascii.
From Stdlib Require Import QArith Qround Qminmax DecimalString.
Import ListNotations.

Set Implicit Arguments.
Local Open Scope Z_scope.

(* ================================================================== *)
(** ** JavaScript strings and arrays *)

Module JsString.

Definition codeunit := N.
Definition jsstring := list codeunit.

(** An ASCII literal as a JavaScript string. *)
Definition js (s : string) : jsstring :=
  List.map N_of_ascii (list_ascii_of_string s).

Definition jsstring_eq_dec : forall a b : jsstring, {a = b} + {a <> b} :=
  list_eq_dec N.eq_dec.

Definition streq (a b : jsstring) : bool :=
  if jsstring_eq_dec a b then true else false.

Definition len (A : Type) (l : list A) : Z := Z.of_nat (List.length l).

(** Truthiness of a string: [!s] holds exactly for the empty string. *)
Definition isEmpty (s : jsstring) : bool :=
  match s with [] => true | _ => false end.

(** ECMAScript WhiteSpace and LineTerminator; also what [\s] matches. *)
Definition isWhiteSpace (c : codeunit) : bool :=
  ((9 <=? c) && (c <=? 13) || (c =? 32) || (c =? 160) || (c =? 0x1680)
   || (0x2000 <=? c) && (c <=? 0x200a) || (c =? 0x2028) || (c =? 0x2029)
   || (c =? 0x202f) || (c =? 0x205f) || (c =? 0x3000) || (c =? 0xfeff))%N.

Fixpoint dropWhile (A : Type) (p : A -> bool) (l : list A) : list A :=
  match l with
  | [] => []
  | x :: l' => if p x then dropWhile p l' else l
  end.

Fixpoint takeWhile (A : Type) (p : A -> bool) (l : list A) : list A :=
  match l with
  | [] => []
  | x :: l' => if p x then x :: takeWhile p l' else []
  end.

Definition trimStart (s : jsstring) : jsstring := dropWhile isWhiteSpace s.
Definition trimEnd (s : jsstring) : jsstring :=
  rev (dropWhile isWhiteSpace (rev s)).
Definition trim (s : jsstring) : jsstring := trimEnd (trimStart s).

Fixpoint startsWith (s p : jsstring) : bool :=
  match p, s with
  | [], _ => true
  | _ :: _, [] => false
  | a :: p', b :: s' => (a =? b)%N && startsWith s' p'
  end.

(** [s.includes(sub)] *)
Fixpoint includes (s sub : jsstring) : bool :=
  startsWith s sub ||
  match s with
  | [] => false
  | _ :: s' => includes s' sub
  end.

(** [arr.join(sep)] *)
Fixpoint join (sep : jsstring) (l : list jsstring) : jsstring :=
  match l with
  | [] => []
  | [x] => x
  | x :: l' => x ++ sep ++ join sep l'
  end.

(** Clamp used by [substring]: NaN and negatives count as 0. *)
Definition clamp (n : Z) (i : Z) : nat := Z.to_nat (Z.max 0 (Z.min i n)).

(** [s.substring(a, b)] *)
Definition substring (A : Type) (a b : Z) (s : list A) : list A :=
  let n := len s in
  let a' := clamp n a in
  let b' := clamp n b in
  let lo := Nat.min a' b' in
  let hi := Nat.max a' b' in
  firstn (hi - lo) (skipn lo s).

(** [s.substring(a)] *)
Definition substringFrom (A : Type) (a : Z) (s : list A) : list A :=
  substring a (len s) s.

(** Relative index of [Array.prototype.slice]. *)
Definition relIndex (n : Z) (i : Z) : nat :=
  Z.to_nat (if i <? 0 then Z.max 0 (n + i) else Z.min i n).

(** [arr.slice(a, b)] *)
Definition slice (A : Type) (a b : Z) (l : list A) : list A :=
  let n := len l in
  let lo := relIndex n a in
  let hi := relIndex n b in
  firstn (hi - lo) (skipn lo l).

(** [arr.slice(a)] *)
Definition sliceFrom (A : Type) (a : Z) (l : list A) : list A :=
  slice a (len l) l.

(** Index of the first element equal to [x] from position [i] on, or -1. *)
Fixpoint indexOfFrom (i : Z) (x : jsstring) (l : list jsstring) : Z :=
  match l with
  | [] => -1
  | y :: l' => if streq x y then i else indexOfFrom (i + 1) x l'
  end.

(** [arr.indexOf(x)] *)
Definition indexOf (x : jsstring) (l : list jsstring) : Z := indexOfFrom 0 x l.

(** Scan for the last position at most [bound] holding [c];
    [i] is the position of the head, [best] the last hit so far. *)
Fixpoint lastIndexScan (c : codeunit) (bound : Z) (i best : Z)
    (s : jsstring) : Z :=
  match s with
  | [] => best
  | d :: s' =>
      lastIndexScan c bound (i + 1)
        (if (d =? c)%N && (i <=? bound) then i else best) s'
  end.

(** [s.lastIndexOf(c, fromIndex)] for a one-unit search string [c]. *)
Definition lastIndexOf (c : codeunit) (fromIndex : Z) (s : jsstring) : Z :=
  lastIndexScan c fromIndex 0 (-1) s.

(** [s.lastIndexOf(c)] *)
Definition lastIndexOfAny (c : codeunit) (s : jsstring) : Z :=
  lastIndexOf c (len s) s.

(** [[...new Set(l)]]: the elements of [l] in order of first insertion.
    [seen] is the content of the set so far. *)
Fixpoint setInsertAll (seen : list jsstring) (l : list jsstring)
    : list jsstring :=
  match l with
  | [] => []
  | x :: l' =>
      if existsb (streq x) seen then setInsertAll seen l'
      else x :: setInsertAll (x :: seen) l'
  end.

Definition arrayFromSet (l : list jsstring) : list jsstring :=
  setInsertAll [] l.

(** *** [String.prototype.split] with the three separators the code uses

    A separator is given by its matcher: the length of the match that
    starts at the head of the remaining input, 0 when there is none (none
    of the separators matches the empty string). *)

Definition matcher := jsstring -> nat.

(** [/\s+/] *)
Definition wsRun : matcher :=
  fun s => List.length (takeWhile isWhiteSpace s).

(** Position after the last line feed among the first [k] units of [s],
    0 when there is none. *)
Fixpoint lastLineFeed (k : nat) (i : nat) (best : nat) (s : jsstring) : nat :=
  match k, s with
  | S k', c :: s' =>
      lastLineFeed k' (S i) (if (c =? 10)%N then S i else best) s'
  | _, _ => best
  end.

(** [/\n\s*\n/]: a line feed, the longest run of white space that still
    ends in a line feed. *)
Definition paragraphBreak : matcher :=
  fun s =>
    match s with
    | c :: rest =>
        if (c =? 10)%N then
          match lastLineFeed (wsRun rest) 0 0 rest with
          | O => O
          | S j => S (S j)
          end
        else O
    | [] => O
    end.

(** The class [[.!?\u061F]] of sentence terminators (full stop,
    exclamation mark, question mark, Arabic question mark). *)
Definition isSentenceTerminator (c : codeunit) : bool :=
  ((c =? 46) || (c =? 33) || (c =? 63) || (c =? 0x61f))%N.

(** [/[.!?\u061F]\s+/] *)
Definition sentenceEnd : matcher :=
  fun s =>
    match s with
    | c :: rest =>
        if isSentenceTerminator c then
          match wsRun rest with
          | O => O
          | S k => S (S k)
          end
        else O
    | [] => O
    end.

(** The pieces of [s] between the matches of [m], scanning left to right.
    [skip] counts the units of the current match still to be consumed and
    [cur] holds the piece being read, reversed. *)
Fixpoint splitGo (m : matcher) (s : jsstring) (skip : nat) (cur : jsstring)
    : list jsstring :=
  match s with
  | [] => [rev cur]
  | c :: s' =>
      match skip with
      | S k => splitGo m s' k cur
      | O =>
          match m s with
          | O => splitGo m s' O (c :: cur)
          | S k => rev cur :: splitGo m s' k []
          end
      end
  end.

(** [s.split(re)] *)
Definition split (m : matcher) (s : jsstring) : list jsstring :=
  splitGo m s O [].

Definition isHighSurrogate (c : codeunit) : bool :=
  ((0xd800 <=? c) && (c <=? 0xdbff))%N.
Definition isLowSurrogate (c : codeunit) : bool :=
  ((0xdc00 <=? c) && (c <=? 0xdfff))%N.

(** The code points of a string with the code units that spell each, as a
    regular expression with the [u] flag reads it. *)
Fixpoint codePoints (s : jsstring) : list (N * jsstring) :=
  match s with
  | [] => []
  | h :: s' =>
      match s' with
      | l :: s'' =>
          if isHighSurrogate h && isLowSurrogate l
          then ((0x10000 + (h - 0xd800) * 0x400 + (l - 0xdc00))%N, [h; l])
                 :: codePoints s''
          else (h, [h]) :: codePoints s'
      | [] => [(h, [h])]
      end
  end.

End JsString.
Import JsString.

(* ================================================================== *)
(** ** What the pipeline takes from its host *)

Class Host := {
  (** [GraphemeSplitter.prototype.splitGraphemes] of the npm package
      grapheme-splitter. *)
  splitGraphemes : jsstring -> list jsstring;
  (** [String.prototype.toLowerCase] *)
  toLowerCase : jsstring -> jsstring;
  (** Whether a code point has general category P* or S*. *)
  isPunctOrSymbol : N -> bool
}.

(** [Math.random]: each draw is an arbitrary natural number, and
    [Math.floor(Math.random() * n)] is its residue modulo [n]. *)
Definition rng := list nat.

Definition randomIndex (n : nat) (g : rng) : nat * rng :=
  match g with
  | [] => (O, [])
  | r :: g' => (Nat.modulo r n, g')
  end.

(* ================================================================== *)
(** ** utils/charCounter.js *)

Module CharCounter.
Section Counting.
Context {host : Host}.

Definition TWEET_CHAR_LIMIT : Z := 280.

(** The CTA argument is a string or [null]; both [null] and [''] are
    falsy. *)
Definition getCharCount (text : jsstring) (hashtags : list jsstring)
    (cta : option jsstring) : Z :=
  if isEmpty text then 0
  else
    let fullText := text in
    let fullText :=
      match hashtags with
      | [] => fullText
      | _ =>
          let hashtagText := join (js " ") hashtags in
          if includes fullText hashtagText then fullText
          else fullText ++ js " " ++ hashtagText
      end in
    let fullText :=
      match cta with
      | Some c =>
          if negb (isEmpty c) && negb (includes fullText c)
          then fullText ++ js " " ++ c
          else fullText
      | None => fullText
      end in
    len (splitGraphemes fullText).

Definition hashtagSpace (hashtags : list jsstring) : Z :=
  match hashtags with
  | [] => 0
  | _ => len (join (js " ") hashtags) + 1
  end.

Definition ctaSpace (cta : option jsstring) : Z :=
  match cta with
  | Some c => if isEmpty c then 0 else len c + 1
  | None => 0
  end.

(** [for (const part of parts) { ... if fits then truncated = testText
    else break }], with [sep] the glue between accepted parts. *)
Fixpoint accumulate (sep : jsstring) (availableSpace : Z)
    (parts : list jsstring) (truncated : jsstring) : jsstring :=
  match parts with
  | [] => truncated
  | part :: rest =>
      let testText :=
        if isEmpty truncated then part else truncated ++ sep ++ part in
      if getCharCount testText [] None <=? availableSpace
      then accumulate sep availableSpace rest testText
      else truncated
  end.

Definition truncateSmart (text : jsstring) (maxLength : Z)
    (hashtags : list jsstring) (cta : option jsstring) : jsstring :=
  if isEmpty text then []
  else
    let availableSpace := maxLength - hashtagSpace hashtags - ctaSpace cta in
    if availableSpace <=? 0 then []
    else if getCharCount text [] None <=? availableSpace then text
    else
      let words := split wsRun text in
      let truncated := accumulate (js " ") availableSpace words [] in
      (* truncated.length > availableSpace * 0.5 *)
      if 2 * len truncated >? availableSpace then truncated
      else
        let sentences := split sentenceEnd text in
        let truncated := accumulate (js ". ") availableSpace sentences [] in
        (* !truncated || truncated.length < availableSpace * 0.3 *)
        if isEmpty truncated || (10 * len truncated <? 3 * availableSpace)
        then
          let graphemes := splitGraphemes text in
          List.concat (slice 0 (availableSpace - 3) graphemes) ++ js "..."
        else truncated.

Record Validation := {
  isValid : bool;
  charCount : Z;
  maxLength : Z;
  remaining : Z;
  overBy : Z
}.

Definition validateTweetLength (text : jsstring) (hashtags : list jsstring)
    (cta : option jsstring) : Validation :=
  let charCount := getCharCount text hashtags cta in
  let maxLength := TWEET_CHAR_LIMIT in
  {| isValid := charCount <=? maxLength;
     charCount := charCount;
     maxLength := maxLength;
     remaining := maxLength - charCount;
     overBy := if charCount >? maxLength then charCount - maxLength else 0 |}.

(** [[\u0600-\u06FF\u0750-\u077F\u08A0-\u08FF\uFE70-\uFEFF]], the class of
    [analyzeText]. *)
Definition isArabicScriptUnit (c : codeunit) : bool :=
  ((0x600 <=? c) && (c <=? 0x6ff) || (0x750 <=? c) && (c <=? 0x77f)
   || (0x8a0 <=? c) && (c <=? 0x8ff) || (0xfe70 <=? c) && (c <=? 0xfeff))%N.

(** The three alternatives of the [emojiRegex] of [analyzeText], on code
    points. *)
Definition isPictograph (c : N) : bool :=
  ((0x1f300 <=? c) && (c <=? 0x1f9ff) || (0x2600 <=? c) && (c <=? 0x26ff)
   || (0x2700 <=? c) && (c <=? 0x27bf))%N.

(** The number of bytes that spell a code point in UTF-8; an unpaired
    surrogate is written as U+FFFD, three bytes as well. *)
Definition utf8Length (c : N) : Z :=
  if (c <? 0x80)%N then 1
  else if (c <? 0x800)%N then 2
  else if (c <? 0x10000)%N then 3
  else 4.

(** [Buffer.byteLength(text, 'utf8')] *)
Definition byteLength (text : jsstring) : Z :=
  fold_left (fun sum cp => sum + utf8Length (fst cp)) (codePoints text) 0.

(** The object returned by [analyzeText]; [graphemeList] is missing from
    the one returned for a text that is not a non-empty string. *)
Record TextAnalysis := {
  text_length : Z;
  graphemes : Z;
  bytes : Z;
  width : Z;
  hasArabic : bool;
  hasEmoji : bool;
  graphemeList : option (list jsstring)
}.

Definition analyzeText (text : jsstring) : TextAnalysis :=
  if isEmpty text then
    {| text_length := 0; graphemes := 0; bytes := 0; width := 0;
       hasArabic := false; hasEmoji := false; graphemeList := None |}
  else
    let graphemes := splitGraphemes text in
    {| text_length := len text;
       graphemes := len graphemes;
       bytes := byteLength text;
       width := len graphemes;
       hasArabic := existsb isArabicScriptUnit text;
       hasEmoji := existsb (fun cp => isPictograph (fst cp)) (codePoints text);
       graphemeList := Some graphemes |}.

End Counting.
End CharCounter.

(* ================================================================== *)
(** ** utils/langDetect.js *)

Module LangDetect.
Section Detection.
Context {host : Host}.

Local Open Scope N_scope.

Definition isDigit (c : N) : bool := (48 <=? c) && (c <=? 57).

(** [text.replace(/[\s\d\p{P}\p{S}]/gu, '')] *)
Definition removeNonLetters (text : jsstring) : jsstring :=
  List.concat
    (List.map snd
       (List.filter
          (fun cp => negb (isWhiteSpace (fst cp) || isDigit (fst cp)
                           || isPunctOrSymbol (fst cp)))
          (codePoints text))).

(** [[\u0600-\u06FF\u0750-\u077F\u08A0-\u08FF\uFE70-\uFEFF\uFB50-\uFDFF]] *)
Definition isArabicUnit (c : codeunit) : bool :=
  (0x600 <=? c) && (c <=? 0x6ff) || (0x750 <=? c) && (c <=? 0x77f)
  || (0x8a0 <=? c) && (c <=? 0x8ff) || (0xfe70 <=? c) && (c <=? 0xfeff)
  || (0xfb50 <=? c) && (c <=? 0xfdff).

(** [[a-zA-Z]] *)
Definition isEnglishUnit (c : codeunit) : bool :=
  (97 <=? c) && (c <=? 122) || (65 <=? c) && (c <=? 90).

Inductive Language := arabic | english | other | unknown.
Inductive Direction := ltr | rtl.

Record RawCounts := {
  raw_arabic : Z;
  raw_english : Z;
  raw_other : Z
}.

Record LangAnalysis := {
  arabic_percent : Q;
  english_percent : Q;
  other_percent : Q;
  total_chars : Z;
  dominant_language : Language;
  direction : Direction;
  is_mixed : bool;
  raw_counts : option RawCounts
}.

Local Open Scope Q_scope.

(** [Math.round(p * 100) / 100] *)
Definition round2 (p : Q) : Q :=
  inject_Z (Qfloor (p * 100 + (1 # 2))) / 100.

Definition Qgtb (a b : Q) : bool := negb (Qle_bool a b).

Definition emptyAnalysis : LangAnalysis :=
  {| arabic_percent := 0; english_percent := 0; other_percent := 0;
     total_chars := 0%Z; dominant_language := unknown; direction := ltr;
     is_mixed := false; raw_counts := None |}.

Definition detectLanguagePercentages (text : jsstring) : LangAnalysis :=
  if isEmpty text then emptyAnalysis
  else
    let letters := removeNonLetters text in
    let totalLetters := len letters in
    if (totalLetters =? 0)%Z then emptyAnalysis
    else
      let arabicCount := len (List.filter isArabicUnit letters) in
      let englishCount := len (List.filter isEnglishUnit letters) in
      let otherCount := (totalLetters - arabicCount - englishCount)%Z in
      let percent (n : Z) := (inject_Z n / inject_Z totalLetters) * 100 in
      let arabicPercent := percent arabicCount in
      let englishPercent := percent englishCount in
      let otherPercent := percent otherCount in
      let dominantLanguage :=
        if Qgtb arabicPercent englishPercent && Qgtb arabicPercent otherPercent
        then arabic
        else if Qgtb englishPercent arabicPercent
                && Qgtb englishPercent otherPercent
        then english
        else if Qgtb otherPercent arabicPercent
                && Qgtb otherPercent englishPercent
        then other
        else unknown in
      {| arabic_percent := round2 arabicPercent;
         english_percent := round2 englishPercent;
         other_percent := round2 otherPercent;
         total_chars := totalLetters;
         dominant_language := dominantLanguage;
         direction := if Qgtb arabicPercent 30 then rtl else ltr;
         is_mixed := Qgtb arabicPercent 10 && Qgtb englishPercent 10;
         raw_counts := Some {| raw_arabic := arabicCount;
                               raw_english := englishCount;
                               raw_other := otherCount |} |}.

(** The three outcomes of [detectTextDirection]. *)
Inductive TextDirection := dir_ltr | dir_rtl | dir_mixed.

Definition detectTextDirection (text : jsstring) : TextDirection :=
  let analysis := detectLanguagePercentages text in
  if is_mixed analysis then dir_mixed
  else match direction analysis with ltr => dir_ltr | rtl => dir_rtl end.

Definition getLanguageCode (text : jsstring) : jsstring :=
  let analysis := detectLanguagePercentages text in
  if is_mixed analysis then js "mixed"
  else
    match dominant_language analysis with
    | arabic => js "ar"
    | english => js "en"
    | _ => js "unknown"
    end.

(** [threshold = 30] and [threshold = 50], the defaults of the two
    predicates below. *)
Definition defaultArabicThreshold : Q := 30.
Definition defaultEnglishThreshold : Q := 50.

(** [analysis.arabic >= threshold], on the rounded percentage. *)
Definition isArabicText (text : jsstring) (threshold : Q) : bool :=
  let analysis := detectLanguagePercentages text in
  Qle_bool threshold (arabic_percent analysis).

Definition isEnglishText (text : jsstring) (threshold : Q) : bool :=
  let analysis := detectLanguagePercentages text in
  Qle_bool threshold (english_percent analysis).

End Detection.
End LangDetect.

(* ================================================================== *)
(** ** The message objects of a thread *)

Module Model.

Record ImageSuggestion := {
  img_type : jsstring;
  img_content : jsstring;
  img_keywords : list jsstring;
  img_template : jsstring;
  matched_keywords : option (list jsstring)
}.

(** A tweet object.  [warnings_ref] is the identity of the array held in
    [warnings]: object spread copies the reference, so two tweets with the
    same [warnings_ref] share one array. *)
Record Tweet := {
  index : Z;
  text : jsstring;
  char_count : Z;
  warnings : list jsstring;
  warnings_ref : nat;
  hashtags : list jsstring;
  emoji_suggestions : list jsstring;
  cta : option jsstring;
  image_suggestion : option ImageSuggestion
}.

(** [{ ...tweet, hashtags: h }] and its siblings. *)
Definition with_hashtags (t : Tweet) (h : list jsstring) : Tweet :=
  {| index := index t; text := text t; char_count := char_count t;
     warnings := warnings t; warnings_ref := warnings_ref t;
     hashtags := h; emoji_suggestions := emoji_suggestions t;
     cta := cta t; image_suggestion := image_suggestion t |}.

Definition with_emoji_suggestions (t : Tweet) (e : list jsstring) : Tweet :=
  {| index := index t; text := text t; char_count := char_count t;
     warnings := warnings t; warnings_ref := warnings_ref t;
     hashtags := hashtags t; emoji_suggestions := e;
     cta := cta t; image_suggestion := image_suggestion t |}.

Definition with_text (t : Tweet) (x : jsstring) : Tweet :=
  {| index := index t; text := x; char_count := char_count t;
     warnings := warnings t; warnings_ref := warnings_ref t;
     hashtags := hashtags t; emoji_suggestions := emoji_suggestions t;
     cta := cta t; image_suggestion := image_suggestion t |}.

Definition with_index (t : Tweet) (i : Z) : Tweet :=
  {| index := i; text := text t; char_count := char_count t;
     warnings := warnings t; warnings_ref := warnings_ref t;
     hashtags := hashtags t; emoji_suggestions := emoji_suggestions t;
     cta := cta t; image_suggestion := image_suggestion t |}.

Definition with_char_count (t : Tweet) (n : Z) : Tweet :=
  {| index := index t; text := text t; char_count := n;
     warnings := warnings t; warnings_ref := warnings_ref t;
     hashtags := hashtags t; emoji_suggestions := emoji_suggestions t;
     cta := cta t; image_suggestion := image_suggestion t |}.

Definition with_warnings (t : Tweet) (w : list jsstring) : Tweet :=
  {| index := index t; text := text t; char_count := char_count t;
     warnings := w; warnings_ref := warnings_ref t;
     hashtags := hashtags t; emoji_suggestions := emoji_suggestions t;
     cta := cta t; image_suggestion := image_suggestion t |}.

(** [arr.map((x, i) => f(x, i))] *)
Fixpoint mapi_from (A B : Type) (f : A -> nat -> B) (i : nat) (l : list A)
    : list B :=
  match l with
  | [] => []
  | x :: l' => f x i :: mapi_from f (S i) l'
  end.

Definition mapi (A B : Type) (f : A -> nat -> B) (l : list A) : list B :=
  mapi_from f O l.

End Model.
Import Model.

(* ================================================================== *)
(** ** utils/dedupe.js *)

Module Dedupe.
Section Deduplication.
Context {host : Host}.

(** [tag.replace(/^#+/, '')] *)
Definition stripLeadingHashes (tag : jsstring) : jsstring :=
  dropWhile (N.eqb 35) tag.

(** The body of the [map] in [dedupeHashtags]; [None] stands for [null]. *)
Definition normalizeTag (tag : jsstring) : option jsstring :=
  let clean := toLowerCase (trim (stripLeadingHashes tag)) in
  if isEmpty clean then None else Some (35%N :: clean).

(** [arr.filter(Boolean)] on an array of strings and [null]s. *)
Fixpoint filterBoolean (l : list (option jsstring)) : list jsstring :=
  match l with
  | [] => []
  | Some x :: l' => if isEmpty x then filterBoolean l' else x :: filterBoolean l'
  | None :: l' => filterBoolean l'
  end.

Definition dedupeHashtags (hashtags : list jsstring) : list jsstring :=
  let normalized :=
    filterBoolean
      (List.map normalizeTag
         (List.filter (fun tag => negb (isEmpty (trim tag))) hashtags)) in
  arrayFromSet normalized.

Definition dedupeEmojis (emojis : list jsstring) : list jsstring :=
  let validEmojis :=
    List.map trim
      (List.filter (fun emoji => negb (isEmpty (trim emoji))) emojis) in
  arrayFromSet validEmojis.

(** The [for] loop that fills [tweetHashtags]; [steps] counts the
    iterations left before [i] reaches [maxPerTweet]. *)
Fixpoint assignLoop (uniqueHashtags : list jsstring)
    (maxPerTweet startIndex : nat) (steps i : nat)
    (tweetHashtags : list jsstring) : list jsstring :=
  match steps with
  | O => tweetHashtags
  | S steps' =>
      if (List.length tweetHashtags <? maxPerTweet)%nat then
        let hashtagIndex :=
          Nat.modulo (startIndex + i) (List.length uniqueHashtags) in
        let hashtag := nth hashtagIndex uniqueHashtags [] in
        assignLoop uniqueHashtags maxPerTweet startIndex steps' (S i)
          (if negb (isEmpty hashtag)
              && negb (existsb (streq hashtag) tweetHashtags)
           then tweetHashtags ++ [hashtag]
           else tweetHashtags)
      else tweetHashtags
  end.

Definition balanceHashtagsAcrossThread (tweets : list Tweet)
    (maxPerTweet : nat) : list Tweet :=
  match tweets with
  | [] => tweets
  | _ =>
      let allHashtags := List.concat (List.map hashtags tweets) in
      let uniqueHashtags := dedupeHashtags allHashtags in
      match uniqueHashtags with
      | [] => List.map (fun tweet => with_hashtags tweet []) tweets
      | _ =>
          mapi
            (fun tweet index =>
               let startIndex :=
                 Nat.modulo (index * maxPerTweet)
                   (List.length uniqueHashtags) in
               with_hashtags tweet
                 (assignLoop uniqueHashtags maxPerTweet startIndex
                    maxPerTweet O []))
            tweets
      end
  end.

(** [[a-zA-Z0-9_\u0600-\u06FF\u0750-\u077F\u08A0-\u08FF\uFE70-\uFEFF]] *)
Definition isHashtagUnit (c : codeunit) : bool :=
  ((97 <=? c) && (c <=? 122) || (65 <=? c) && (c <=? 90)
   || (48 <=? c) && (c <=? 57) || (c =? 95)
   || (0x600 <=? c) && (c <=? 0x6ff) || (0x750 <=? c) && (c <=? 0x77f)
   || (0x8a0 <=? c) && (c <=? 0x8ff) || (0xfe70 <=? c) && (c <=? 0xfeff))%N.

(** A finished candidate: [#] followed by at least one hashtag unit. *)
Definition emitHashtag (body : option jsstring) : list jsstring :=
  match body with
  | Some (c :: b) => [35%N :: rev (c :: b)]
  | _ => []
  end.

(** [text.match(/#[...]+/g)]: [cur] is the reversed body read since the
    last [#], when one is open. *)
Fixpoint hashtagMatches (s : jsstring) (cur : option jsstring)
    : list jsstring :=
  match s with
  | [] => emitHashtag cur
  | c :: s' =>
      match cur with
      | Some body =>
          if isHashtagUnit c then hashtagMatches s' (Some (c :: body))
          else emitHashtag cur
                 ++ hashtagMatches s' (if (c =? 35)%N then Some [] else None)
      | None => hashtagMatches s' (if (c =? 35)%N then Some [] else None)
      end
  end.

Definition extractHashtagsFromText (text : jsstring) : list jsstring :=
  if isEmpty text then []
  else dedupeHashtags (hashtagMatches text None).

(** The emoji ranges of [emojiRegex], on code points. *)
Definition isEmojiCodePoint (c : N) : bool :=
  ((0x1f300 <=? c) && (c <=? 0x1f9ff) || (0x2600 <=? c) && (c <=? 0x26ff)
   || (0x2700 <=? c) && (c <=? 0x27bf) || (0x1f1e0 <=? c) && (c <=? 0x1f1ff)
   || (0x1f900 <=? c) && (c <=? 0x1f9ff))%N.

(** [text.match(emojiRegex)] *)
Definition emojiMatches (text : jsstring) : list jsstring :=
  List.map snd
    (List.filter (fun cp => isEmojiCodePoint (fst cp)) (codePoints text)).

Definition extractEmojisFromText (text : jsstring) : list jsstring :=
  if isEmpty text then []
  else dedupeEmojis (emojiMatches text).

Definition dedupeHashtagsAndEmojis (tweets : list Tweet) : list Tweet :=
  let processedTweets :=
    List.map
      (fun tweet =>
         let textHashtags := extractHashtagsFromText (text tweet) in
         let textEmojis := extractEmojisFromText (text tweet) in
         let allHashtags := hashtags tweet ++ textHashtags in
         let allEmojis := emoji_suggestions tweet ++ textEmojis in
         with_emoji_suggestions
           (with_hashtags tweet (dedupeHashtags allHashtags))
           (dedupeEmojis allEmojis))
      tweets in
  balanceHashtagsAcrossThread processedTweets 3.

(** Whether a string starts with a hashtag unit. *)
Definition startsHashtagUnit (s : jsstring) : bool :=
  match s with
  | c :: _ => isHashtagUnit c
  | [] => false
  end.

(** [text.replace(/#[...]+/g, '')]: a [#] followed by a hashtag unit opens
    a match, which takes every hashtag unit that follows; [inMatch] tells
    that the units of a match are being dropped. *)
Fixpoint removeHashtags (s : jsstring) (inMatch : bool) : jsstring :=
  match s with
  | [] => []
  | c :: s' =>
      if inMatch && isHashtagUnit c then removeHashtags s' true
      else if (c =? 35)%N && startsHashtagUnit s' then removeHashtags s' true
      else c :: removeHashtags s' false
  end.

(** [text.replace(emojiRegex, '')], the pattern having the [u] flag. *)
Definition removeEmojis (text : jsstring) : jsstring :=
  List.concat
    (List.map snd
       (List.filter (fun cp => negb (isEmojiCodePoint (fst cp)))
          (codePoints text))).

(** [text.replace(/\s+/g, ' ')]: the first unit of a run of white space
    becomes a space and the others go; [inRun] tells that a run is being
    read. *)
Fixpoint collapseWhiteSpace (s : jsstring) (inRun : bool) : jsstring :=
  match s with
  | [] => []
  | c :: s' =>
      if isWhiteSpace c then
        if inRun then collapseWhiteSpace s' true
        else 32%N :: collapseWhiteSpace s' true
      else c :: collapseWhiteSpace s' false
  end.

Definition removeHashtagsAndEmojis (text : jsstring) : jsstring :=
  if isEmpty text then []
  else
    let cleaned := text in
    let cleaned := removeHashtags cleaned false in
    let cleaned := removeEmojis cleaned in
    let cleaned := trim (collapseWhiteSpace cleaned false) in
    cleaned.

(** [/^#[...]+$/.test(hashtag) && hashtag.length > 1
    && hashtag.length <= 100] *)
Definition isValidHashtag (hashtag : jsstring) : bool :=
  match hashtag with
  | [] => false
  | c :: body =>
      ((c =? 35)%N && negb (isEmpty body) && forallb isHashtagUnit body)
      && (len hashtag >? 1) && (len hashtag <=? 100)
  end.

End Deduplication.
End Dedupe.

(* ================================================================== *)
(** ** services/hashtagGenerator.js *)

Module HashtagGenerator.

Import LangDetect.

Inductive Topic :=
  | ai | programming | writing | education | business | productivity
  | technology | design | finance | health | social | general.

(** The [english] and [arabic] arrays of [HASHTAG_DICTIONARY], the
    alternatives of each [KEYWORD_PATTERNS] entry (every pattern has the
    shape [/\b(k1|k2|...)\b/i]), and [THREAD_HASHTAGS]. *)

Definition HASHTAG_DICTIONARY_english (t : Topic) : list jsstring :=
  match t with
  | ai =>
      [js "#AI"; js "#MachineLearning"; js "#DeepLearning";
       js "#NeuralNetworks"; js "#ArtificialIntelligence"; js "#MLOps";
       js "#DataScience"; js "#TechTrends"]
  | programming =>
      [js "#Programming"; js "#Coding"; js "#WebDev"; js "#JavaScript";
       js "#Python"; js "#React"; js "#NodeJS"; js "#FullStack"]
  | writing =>
      [js "#Writing"; js "#ContentCreation"; js "#Storytelling";
       js "#Copywriting"; js "#BlogWriting"; js "#CreativeWriting";
       js "#WritingTips"]
  | education =>
      [js "#Education"; js "#Learning"; js "#OnlineLearning"; js "#Skills";
       js "#Knowledge"; js "#StudyTips"; js "#PersonalGrowth"]
  | business =>
      [js "#Business"; js "#Entrepreneurship"; js "#Startup";
       js "#Leadership"; js "#Marketing"; js "#Strategy"; js "#Innovation"]
  | productivity =>
      [js "#Productivity"; js "#TimeManagement"; js "#Efficiency";
       js "#WorkLife"; js "#SelfImprovement"; js "#Mindset"; js "#Goals"]
  | technology =>
      [js "#Technology"; js "#Innovation"; js "#DigitalTransformation";
       js "#TechNews"; js "#Future"; js "#Automation"; js "#CloudComputing"]
  | design =>
      [js "#Design"; js "#UXDesign"; js "#UIDesign"; js "#CreativeDesign";
       js "#GraphicDesign"; js "#UserExperience"; js "#DesignThinking"]
  | finance =>
      [js "#Finance"; js "#Investment"; js "#Trading"; js "#Cryptocurrency";
       js "#FinTech"; js "#PersonalFinance"; js "#WealthBuilding"]
  | health =>
      [js "#Health"; js "#Wellness"; js "#Fitness"; js "#MentalHealth";
       js "#Nutrition"; js "#HealthyLifestyle"; js "#SelfCare"]
  | social =>
      [js "#SocialMedia"; js "#DigitalMarketing"; js "#ContentStrategy";
       js "#Branding"; js "#Influence"; js "#OnlinePresence"]
  | general =>
      [js "#Tips"; js "#Insights"; js "#Thoughts"; js "#Wisdom";
       js "#Experience"; js "#Advice"; js "#Perspective"]
  end.

Definition HASHTAG_DICTIONARY_arabic (t : Topic) : list jsstring :=
  match t with
  | ai =>
      [[0x23; 0x630; 0x643; 0x627; 0x621; 0x5f; 0x627; 0x635; 0x637; 0x646; 0x627; 0x639; 0x64a]%N;
       [0x23; 0x62a; 0x639; 0x644; 0x645; 0x5f; 0x622; 0x644; 0x64a]%N;
       [0x23; 0x62a; 0x642; 0x646; 0x64a; 0x629]%N;
       [0x23; 0x627; 0x628; 0x62a; 0x643; 0x627; 0x631]%N]
  | programming =>
      [[0x23; 0x628; 0x631; 0x645; 0x62c; 0x629]%N;
       [0x23; 0x62a; 0x637; 0x648; 0x64a; 0x631]%N;
       [0x23; 0x645; 0x637; 0x648; 0x631]%N; [0x23; 0x643; 0x648; 0x62f]%N]
  | writing =>
      [[0x23; 0x643; 0x62a; 0x627; 0x628; 0x629]%N;
       [0x23; 0x645; 0x62d; 0x62a; 0x648; 0x649]%N;
       [0x23; 0x642; 0x635; 0x635]%N;
       [0x23; 0x625; 0x628; 0x62f; 0x627; 0x639]%N]
  | education =>
      [[0x23; 0x62a; 0x639; 0x644; 0x64a; 0x645]%N;
       [0x23; 0x62a; 0x639; 0x644; 0x645]%N;
       [0x23; 0x645; 0x647; 0x627; 0x631; 0x627; 0x62a]%N;
       [0x23; 0x645; 0x639; 0x631; 0x641; 0x629]%N]
  | business =>
      [[0x23; 0x623; 0x639; 0x645; 0x627; 0x644]%N;
       [0x23; 0x631; 0x64a; 0x627; 0x62f; 0x629]%N;
       [0x23; 0x642; 0x64a; 0x627; 0x62f; 0x629]%N;
       [0x23; 0x62a; 0x633; 0x648; 0x64a; 0x642]%N]
  | productivity =>
      [[0x23; 0x625; 0x646; 0x62a; 0x627; 0x62c; 0x64a; 0x629]%N;
       [0x23; 0x62a; 0x637; 0x648; 0x64a; 0x631; 0x5f; 0x627; 0x644; 0x630; 0x627; 0x62a]%N;
       [0x23; 0x623; 0x647; 0x62f; 0x627; 0x641]%N;
       [0x23; 0x646; 0x62c; 0x627; 0x62d]%N]
  | technology =>
      [[0x23; 0x62a; 0x642; 0x646; 0x64a; 0x629]%N;
       [0x23; 0x627; 0x628; 0x62a; 0x643; 0x627; 0x631]%N;
       [0x23; 0x62a; 0x62d; 0x648; 0x644; 0x5f; 0x631; 0x642; 0x645; 0x64a]%N;
       [0x23; 0x645; 0x633; 0x62a; 0x642; 0x628; 0x644]%N]
  | design =>
      [[0x23; 0x62a; 0x635; 0x645; 0x64a; 0x645]%N;
       [0x23; 0x625; 0x628; 0x62f; 0x627; 0x639]%N; [0x23; 0x641; 0x646]%N;
       [0x23; 0x62c; 0x631; 0x627; 0x641; 0x64a; 0x643]%N]
  | finance =>
      [[0x23; 0x645; 0x627; 0x644; 0x64a; 0x629]%N;
       [0x23; 0x627; 0x633; 0x62a; 0x62b; 0x645; 0x627; 0x631]%N;
       [0x23; 0x62a; 0x62f; 0x627; 0x648; 0x644]%N;
       [0x23; 0x62b; 0x631; 0x648; 0x629]%N]
  | health =>
      [[0x23; 0x635; 0x62d; 0x629]%N;
       [0x23; 0x644; 0x64a; 0x627; 0x642; 0x629]%N;
       [0x23; 0x639; 0x627; 0x641; 0x64a; 0x629]%N;
       [0x23; 0x62a; 0x63a; 0x630; 0x64a; 0x629]%N]
  | social =>
      [[0x23; 0x648; 0x633; 0x627; 0x626; 0x644; 0x5f; 0x627; 0x644; 0x62a; 0x648; 0x627; 0x635; 0x644]%N;
       [0x23; 0x62a; 0x633; 0x648; 0x64a; 0x642; 0x5f; 0x631; 0x642; 0x645; 0x64a]%N;
       [0x23; 0x639; 0x644; 0x627; 0x645; 0x629; 0x5f; 0x62a; 0x62c; 0x627; 0x631; 0x64a; 0x629]%N;
       [0x23; 0x62a; 0x623; 0x62b; 0x64a; 0x631]%N]
  | general =>
      [[0x23; 0x646; 0x635; 0x627; 0x626; 0x62d]%N;
       [0x23; 0x62e; 0x628; 0x631; 0x629]%N;
       [0x23; 0x62d; 0x643; 0x645; 0x629]%N; [0x23; 0x631; 0x623; 0x64a]%N]
  end.

Definition KEYWORD_PATTERNS (t : Topic) : list jsstring :=
  match t with
  | ai =>
      [js "ai"; js "artificial intelligence"; js "machine learning";
       js "deep learning"; js "neural"; js "algorithm"; js "automation";
       js "chatgpt"; js "gpt"; js "llm";
       [0x630; 0x643; 0x627; 0x621; 0x20; 0x627; 0x635; 0x637; 0x646; 0x627; 0x639; 0x64a]%N;
       [0x62a; 0x639; 0x644; 0x645; 0x20; 0x622; 0x644; 0x64a]%N]
  | programming =>
      [js "programming"; js "coding"; js "developer"; js "javascript";
       js "python"; js "react"; js "node"; js "html"; js "css"; js "api";
       js "database"; [0x628; 0x631; 0x645; 0x62c; 0x629]%N;
       [0x645; 0x637; 0x648; 0x631]%N; [0x643; 0x648; 0x62f]%N]
  | writing =>
      [js "writing"; js "content"; js "story"; js "blog"; js "article";
       js "copywriting"; js "author"; js "publish";
       [0x643; 0x62a; 0x627; 0x628; 0x629]%N;
       [0x645; 0x62d; 0x62a; 0x648; 0x649]%N; [0x642; 0x635; 0x629]%N;
       [0x645; 0x642; 0x627; 0x644]%N]
  | education =>
      [js "education"; js "learning"; js "study"; js "course"; js "tutorial";
       js "knowledge"; js "skill"; js "teach";
       [0x62a; 0x639; 0x644; 0x64a; 0x645]%N; [0x62a; 0x639; 0x644; 0x645]%N;
       [0x62f; 0x631; 0x627; 0x633; 0x629]%N;
       [0x645; 0x647; 0x627; 0x631; 0x629]%N]
  | business =>
      [js "business"; js "startup"; js "entrepreneur"; js "company";
       js "marketing"; js "sales"; js "strategy";
       [0x623; 0x639; 0x645; 0x627; 0x644]%N; [0x634; 0x631; 0x643; 0x629]%N;
       [0x62a; 0x633; 0x648; 0x64a; 0x642]%N;
       [0x627; 0x633; 0x62a; 0x631; 0x627; 0x62a; 0x64a; 0x62c; 0x64a; 0x629]%N]
  | productivity =>
      [js "productivity"; js "efficiency"; js "time management"; js "goal";
       js "habit"; js "focus"; js "workflow";
       [0x625; 0x646; 0x62a; 0x627; 0x62c; 0x64a; 0x629]%N;
       [0x647; 0x62f; 0x641]%N; [0x639; 0x627; 0x62f; 0x629]%N]
  | technology =>
      [js "technology"; js "tech"; js "innovation"; js "digital"; js "cloud";
       js "software"; js "hardware"; [0x62a; 0x642; 0x646; 0x64a; 0x629]%N;
       [0x627; 0x628; 0x62a; 0x643; 0x627; 0x631]%N;
       [0x631; 0x642; 0x645; 0x64a]%N]
  | design =>
      [js "design"; js "ux"; js "ui"; js "creative"; js "visual";
       js "graphic"; js "interface"; [0x62a; 0x635; 0x645; 0x64a; 0x645]%N;
       [0x625; 0x628; 0x62f; 0x627; 0x639]%N;
       [0x648; 0x627; 0x62c; 0x647; 0x629]%N]
  | finance =>
      [js "finance"; js "investment"; js "trading"; js "money"; js "crypto";
       js "bitcoin"; js "financial"; [0x645; 0x627; 0x644; 0x64a; 0x629]%N;
       [0x627; 0x633; 0x62a; 0x62b; 0x645; 0x627; 0x631]%N;
       [0x62a; 0x62f; 0x627; 0x648; 0x644]%N; [0x645; 0x627; 0x644]%N]
  | health =>
      [js "health"; js "fitness"; js "wellness"; js "nutrition";
       js "mental health"; js "exercise"; [0x635; 0x62d; 0x629]%N;
       [0x644; 0x64a; 0x627; 0x642; 0x629]%N;
       [0x62a; 0x63a; 0x630; 0x64a; 0x629]%N]
  | social =>
      [js "social media"; js "marketing"; js "brand"; js "influence";
       js "twitter"; js "instagram";
       [0x648; 0x633; 0x627; 0x626; 0x644; 0x20; 0x627; 0x644; 0x62a; 0x648; 0x627; 0x635; 0x644]%N;
       [0x62a; 0x633; 0x648; 0x64a; 0x642]%N;
       [0x639; 0x644; 0x627; 0x645; 0x629; 0x20; 0x62a; 0x62c; 0x627; 0x631; 0x64a; 0x629]%N]
  | general => []
  end.

Definition THREAD_HASHTAGS_english : list jsstring :=
  [js "#Thread"; js "#TwitterThread"; js "#TweetThread"].

Definition THREAD_HASHTAGS_arabic : list jsstring :=
  [[0x23; 0x62e; 0x64a; 0x637]%N;
   [0x23; 0x62e; 0x64a; 0x637; 0x5f; 0x62a; 0x648; 0x64a; 0x62a; 0x631]%N].

(** The keys of [KEYWORD_PATTERNS] in insertion order. *)
Definition patternTopics : list Topic :=
  [ai; programming; writing; education; business; productivity;
   technology; design; finance; health; social].

(** [\w] *)
Definition isWordUnit (c : codeunit) : bool :=
  ((97 <=? c) && (c <=? 122) || (65 <=? c) && (c <=? 90)
   || (48 <=? c) && (c <=? 57) || (c =? 95))%N.

Definition asciiLower (c : codeunit) : codeunit :=
  if ((65 <=? c) && (c <=? 90))%N then (c + 32)%N else c.

(** Equality of code units under the [i] flag, for the units that occur in
    the patterns (ASCII letters, space, Arabic letters). *)
Definition ciEq (a b : codeunit) : bool := (asciiLower a =? asciiLower b)%N.

(** Read the alternative [alt] at the head of [s]: the last unit read and
    the rest of the input. *)
Fixpoint stripPrefixCI (alt s : jsstring) (lastc : option codeunit)
    : option (option codeunit * jsstring) :=
  match alt with
  | [] => Some (lastc, s)
  | a :: alt' =>
      match s with
      | [] => None
      | c :: s' => if ciEq a c then stripPrefixCI alt' s' (Some c) else None
      end
  end.

Definition isWordOpt (o : option codeunit) : bool :=
  match o with Some c => isWordUnit c | None => false end.

(** [\b] between two neighbouring units (or an end of the input). *)
Definition wordBoundary (a b : option codeunit) : bool :=
  xorb (isWordOpt a) (isWordOpt b).

(** [/\b(alts)\b/i.test(s)], where [prev] is the unit before [s]. *)
Fixpoint patternTest (alts : list jsstring) (prev : option codeunit)
    (s : jsstring) : bool :=
  existsb
    (fun alt =>
       match stripPrefixCI alt s None with
       | Some (lastc, rest) =>
           wordBoundary prev (hd_error s) && wordBoundary lastc (hd_error rest)
       | None => false
       end) alts
  || match s with
     | [] => false
     | c :: s' => patternTest alts (Some c) s'
     end.

Record Options := {
  maxHashtags : Z;
  englishRatio : Q;
  includeThreadHashtag : bool;
  forceArabic : bool
}.

(** [maxHashtags = 4, englishRatio = 0.7, includeThreadHashtag = false,
    forceArabic = false] *)
Definition defaultOptions : Options :=
  {| maxHashtags := 4; englishRatio := 7 # 10;
     includeThreadHashtag := false; forceArabic := false |}.

(** [usedHashtags.has(tag)] and [usedHashtags.add(tag)], the set being kept
    as the list of its members. *)
Definition setHas (used : list jsstring) (tag : jsstring) : bool :=
  existsb (streq tag) used.

Definition setAdd (used : list jsstring) (tag : jsstring) : list jsstring :=
  if setHas used tag then used else used ++ [tag].

(** The [while] loop that fills the remaining slots from the general pool.
    Every iteration that does not leave the loop pushes a general tag that
    was not yet in [hashtags], so there are at most [length generalHashtags]
    of them before [available] is empty. *)
Fixpoint fillGeneral (fuel : nat) (generalHashtags used : list jsstring)
    (maxHashtags : Z) (hashtags : list jsstring) : list jsstring :=
  match fuel with
  | O => hashtags
  | S fuel' =>
      if len hashtags <? maxHashtags then
        let available :=
          List.filter
            (fun tag => negb (existsb (streq tag) hashtags)
                        && negb (setHas used tag))
            generalHashtags in
        match available with
        | [] => hashtags
        | tag :: _ =>
            fillGeneral fuel' generalHashtags used maxHashtags
              (hashtags ++ [tag])
        end
      else hashtags
  end.

Section Generation.
Context {host : Host}.

Definition detectTopics (text : jsstring) : list Topic :=
  if isEmpty text then [general]
  else
    let lowerText := toLowerCase text in
    let topics :=
      List.filter
        (fun topic => patternTest (KEYWORD_PATTERNS topic) None lowerText)
        patternTopics in
    match topics with
    | [] => [general]
    | _ => topics
    end.

(** Returns the hashtags of the tweet and the updated [usedHashtags]. *)
Definition generateTweetHashtags (text : jsstring) (options : Options)
    (usedHashtags : list jsstring) : list jsstring * list jsstring :=
  let maxHashtags := maxHashtags options in
  let langAnalysis := detectLanguagePercentages text in
  let topics := detectTopics text in
  let isArabicContent := Qgtb (arabic_percent langAnalysis) 30 in
  let englishCount :=
    Qceiling (inject_Z maxHashtags * englishRatio options) in
  let arabicCount := maxHashtags - englishCount in
  let englishHashtags := List.flat_map HASHTAG_DICTIONARY_english topics in
  let availableEnglish :=
    slice 0 englishCount
      (List.filter (fun tag => negb (setHas usedHashtags tag))
         (arrayFromSet englishHashtags)) in
  let hashtags := availableEnglish in
  let hashtags :=
    if (isArabicContent || forceArabic options) && (arabicCount >? 0) then
      let arabicHashtags := List.flat_map HASHTAG_DICTIONARY_arabic topics in
      let availableArabic :=
        slice 0 arabicCount
          (List.filter (fun tag => negb (setHas usedHashtags tag))
             (arrayFromSet arabicHashtags)) in
      hashtags ++ availableArabic
    else hashtags in
  let hashtags :=
    if includeThreadHashtag options then
      let threadHashtag :=
        if isArabicContent then nth 0 THREAD_HASHTAGS_arabic []
        else nth 0 THREAD_HASHTAGS_english [] in
      if negb (setHas usedHashtags threadHashtag)
      then threadHashtag :: hashtags
      else hashtags
    else hashtags in
  let generalHashtags :=
    if isArabicContent then HASHTAG_DICTIONARY_arabic general
    else HASHTAG_DICTIONARY_english general in
  let hashtags :=
    fillGeneral (S (List.length generalHashtags)) generalHashtags
      usedHashtags maxHashtags hashtags in
  (slice 0 maxHashtags hashtags, fold_left setAdd hashtags usedHashtags).

(** The [map] of [generateThreadHashtags], threading [usedHashtags]. *)
Fixpoint threadHashtagsFrom (options : Options) (total : nat) (index : nat)
    (usedHashtags : list jsstring) (thread : list Tweet) : list Tweet :=
  match thread with
  | [] => []
  | tweet :: rest =>
      let tweetOptions :=
        {| maxHashtags := if (S index =? total)%nat then 4 else 3;
           englishRatio := englishRatio options;
           includeThreadHashtag := (index =? 0)%nat;
           forceArabic := forceArabic options |} in
      let r := generateTweetHashtags (text tweet) tweetOptions usedHashtags in
      with_hashtags tweet (fst r)
        :: threadHashtagsFrom options total (S index) (snd r) rest
  end.

Definition generateThreadHashtags (thread : list Tweet) (options : Options)
    : list Tweet :=
  threadHashtagsFrom options (List.length thread) O [] thread.

End Generation.

(** [/^#[a-zA-Z]/.test(tag)] *)
Definition isEnglishTag (tag : jsstring) : bool :=
  match tag with
  | h :: c :: _ => (h =? 35)%N && isEnglishUnit c
  | _ => false
  end.

(** [/[\u0600-\u06FF]/.test(tag)] *)
Definition isArabicTag (tag : jsstring) : bool :=
  existsb (fun c => (0x600 <=? c) && (c <=? 0x6ff))%N tag.

(** [Math.round((n / total) * 100) || 0]: the quotient is [NaN] for an
    empty thread, and [NaN || 0] is 0.  The quotient and the product are
    taken as exact rationals. *)
Definition roundedShare (n total : Z) : Z :=
  if total =? 0 then 0
  else Qfloor (inject_Z n / inject_Z total * 100 + (1 # 2))%Q.

Record Distribution := {
  share_english : Z;
  share_arabic : Z
}.

Record HashtagStats := {
  stats_total : Z;
  stats_english : Z;
  stats_arabic : Z;
  stats_unique : Z;
  distribution : Distribution
}.

Definition getHashtagStats (thread : list Tweet) : HashtagStats :=
  let allHashtags := List.flat_map hashtags thread in
  let uniqueHashtags := arrayFromSet allHashtags in
  let english := len (List.filter isEnglishTag allHashtags) in
  let arabic := len (List.filter isArabicTag allHashtags) in
  {| stats_total := len allHashtags;
     stats_english := english;
     stats_arabic := arabic;
     stats_unique := len uniqueHashtags;
     distribution :=
       {| share_english := roundedShare english (len allHashtags);
          share_arabic := roundedShare arabic (len allHashtags) |} |}.

End HashtagGenerator.

(* ================================================================== *)
(** ** services/localTemplates.js *)

Module LocalTemplates.

Import LangDetect CharCounter Dedupe.

(** The five styles of the tables, and any other style name (one that is
    not a property inherited from [Object.prototype]): the tables have no
    entry for it. *)
Inductive Style :=
  | educational | technical | concise | engaging | professional
  | otherStyle (name : jsstring).

Definition styleName (style : Style) : jsstring :=
  match style with
  | educational => js "educational"
  | technical => js "technical"
  | concise => js "concise"
  | engaging => js "engaging"
  | professional => js "professional"
  | otherStyle name => name
  end.

Record Params := {
  language : jsstring;
  style : Style;
  maxTweets : Z;
  includeHashtags : bool;
  includeImages : bool
}.

(** The defaults of the destructuring in [generateFallbackThread]. *)
Definition defaultParams : Params :=
  {| language := js "auto"; style := professional; maxTweets := 5;
     includeHashtags := true; includeImages := false |}.

(** What a JavaScript evaluation ends in: a value, or a thrown error. *)
Inductive Completion (A : Type) :=
  | Normal (a : A)
  | Throw (message : jsstring).
Arguments Normal {A} a.
Arguments Throw {A} message.

Record ImagePattern := {
  ip_keywords : list jsstring;
  ip_type : jsstring;
  ip_content : jsstring;
  ip_pattern_keywords : list jsstring;
  ip_template : jsstring;
  ip_priority : Z
}.

(** *** The literal tables of the file

    Emoji and Arabic literals are written by their UTF-16 code units
    (the characters the UTF-8 bytes of the file spell). *)

Definition stylePrefixes (style : Style) (isArabic : bool) : list jsstring :=
  match style with
  | educational =>
      if isArabic then
        [[0xd83d; 0xdca1]%N ++ js " " ++ [0x646; 0x635; 0x64a; 0x62d; 0x629]%N ++ js ":";
         [0xd83d; 0xdcda]%N ++ js " " ++ [0x62a; 0x639; 0x644; 0x645]%N ++ js ":";
         [0x2728]%N ++ js " " ++ [0x641; 0x643; 0x631; 0x629]%N ++ js ":"]
      else
        [[0xd83d; 0xdca1]%N ++ js " Tip:";
         [0xd83d; 0xdcda]%N ++ js " Learn:";
         [0x2728]%N ++ js " Insight:"]
  | technical =>
      if isArabic then
        [[0xd83d; 0xdd27]%N ++ js " " ++ [0x62a; 0x642; 0x646; 0x64a]%N ++ js ":";
         [0x2699; 0xfe0f]%N ++ js " " ++ [0x637; 0x631; 0x64a; 0x642; 0x629]%N ++ js ":";
         [0xd83d; 0xdee0; 0xfe0f]%N ++ js " " ++ [0x62d; 0x644]%N ++ js ":"]
      else
        [[0xd83d; 0xdd27]%N ++ js " Technical:";
         [0x2699; 0xfe0f]%N ++ js " Method:";
         [0xd83d; 0xdee0; 0xfe0f]%N ++ js " Solution:"]
  | concise =>
      if isArabic then
        [[0xd83d; 0xdccc]%N ++ js " " ++ [0x62e; 0x644; 0x627; 0x635; 0x629]%N ++ js ":";
         [0x26a1]%N ++ js " " ++ [0x633; 0x631; 0x64a; 0x639]%N ++ js ":";
         [0xd83c; 0xdfaf]%N ++ js " " ++ [0x645; 0x628; 0x627; 0x634; 0x631]%N ++ js ":"]
      else
        [[0xd83d; 0xdccc]%N ++ js " Summary:";
         [0x26a1]%N ++ js " Quick:";
         [0xd83c; 0xdfaf]%N ++ js " Direct:"]
  | engaging =>
      if isArabic then
        [[0xd83d; 0xdd25]%N ++ js " " ++ [0x645; 0x647; 0x645]%N ++ js ":";
         [0xd83d; 0xdc40]%N ++ js " " ++ [0x627; 0x646; 0x62a; 0x628; 0x647]%N ++ js ":";
         [0xd83d; 0xde80]%N ++ js " " ++ [0x631; 0x627; 0x626; 0x639]%N ++ js ":"]
      else
        [[0xd83d; 0xdd25]%N ++ js " Important:";
         [0xd83d; 0xdc40]%N ++ js " Notice:";
         [0xd83d; 0xde80]%N ++ js " Amazing:"]
  | professional =>
      if isArabic then
        [[0xd83d; 0xdcca]%N ++ js " " ++ [0x62a; 0x62d; 0x644; 0x64a; 0x644]%N ++ js ":";
         [0xd83d; 0xdcbc]%N ++ js " " ++ [0x62e; 0x628; 0x631; 0x629]%N ++ js ":";
         [0xd83d; 0xdcc8]%N ++ js " " ++ [0x627; 0x633; 0x62a; 0x631; 0x627; 0x62a; 0x64a; 0x62c; 0x64a; 0x629]%N ++ js ":"]
      else
        [[0xd83d; 0xdcca]%N ++ js " Analysis:";
         [0xd83d; 0xdcbc]%N ++ js " Experience:";
         [0xd83d; 0xdcc8]%N ++ js " Strategy:"]
  | otherStyle _ => []
  end.

Definition styleEmojis (style : Style) : list jsstring :=
  match style with
  | educational =>
      [[0xd83d; 0xdcda]%N;
       [0xd83d; 0xdca1]%N;
       [0x2728]%N;
       [0xd83c; 0xdfaf]%N;
       [0xd83d; 0xdcd6]%N]
  | technical =>
      [[0xd83d; 0xdd27]%N;
       [0x2699; 0xfe0f]%N;
       [0xd83d; 0xdee0; 0xfe0f]%N;
       [0xd83d; 0xdcbb]%N;
       [0xd83d; 0xdd2c]%N]
  | concise =>
      [[0xd83d; 0xdccc]%N;
       [0x26a1]%N;
       [0xd83c; 0xdfaf]%N;
       [0x2705]%N;
       [0x2b50]%N]
  | engaging =>
      [[0xd83d; 0xdd25]%N;
       [0xd83d; 0xdc40]%N;
       [0xd83d; 0xde80]%N;
       [0xd83d; 0xdcab]%N;
       [0xd83c; 0xdf89]%N]
  | professional =>
      [[0xd83d; 0xdcca]%N;
       [0xd83d; 0xdcbc]%N;
       [0xd83d; 0xdcc8]%N;
       [0xd83c; 0xdfc6]%N;
       [0x26a1]%N]
  | otherStyle _ => []
  end.

Definition importantEmojis : list jsstring :=
  [[0x26a0; 0xfe0f]%N;
   [0xd83d; 0xdea8]%N;
   [0xd83d; 0xdce2]%N].

Definition successEmojis : list jsstring :=
  [[0xd83c; 0xdf89]%N;
   [0xd83c; 0xdfc6]%N;
   [0x2705]%N].

Definition moneyEmojis : list jsstring :=
  [[0xd83d; 0xdcb0]%N;
   [0xd83d; 0xdcb5]%N;
   [0xd83d; 0xdcc8]%N].

Definition timeEmojis : list jsstring :=
  [[0x23f0]%N;
   [0x231a]%N;
   [0x23f3]%N].

Definition threadStartEmojis : list jsstring :=
  [[0xd83e; 0xddf5]%N;
   [0xd83d; 0xdc47]%N].

Definition importantWordArabic : jsstring := [0x645; 0x647; 0x645]%N.

Definition successWordArabic : jsstring := [0x646; 0x62c; 0x62d]%N.

Definition moneyWordArabic : jsstring := [0x645; 0x627; 0x644]%N.

Definition timeWordArabic : jsstring := [0x648; 0x642; 0x62a]%N.

Definition warningWordArabic : jsstring := [0x62a; 0x62d; 0x630; 0x64a; 0x631]%N.

Definition excitementWordArabic : jsstring := [0x631; 0x627; 0x626; 0x639]%N.

Definition urgentWordArabic : jsstring := [0x645; 0x647; 0x645]%N.

Definition styleCTAs (style : Style) (isArabic : bool) : list jsstring :=
  match style with
  | educational =>
      if isArabic then
        [[0x634; 0x627; 0x631; 0x643; 0x646; 0x627]%N ++ js " " ++ [0x631; 0x623; 0x64a; 0x643]%N ++ js " " ++ [0xd83d; 0xdc47]%N;
         [0x645; 0x627]%N ++ js " " ++ [0x631; 0x623; 0x64a; 0x643]%N ++ js " " ++ [0x641; 0x64a]%N ++ js " " ++ [0x647; 0x630; 0x627; 0x61f]%N ++ js " " ++ [0xd83d; 0xdcad]%N;
         [0x647; 0x644]%N ++ js " " ++ [0x62a; 0x637; 0x628; 0x642]%N ++ js " " ++ [0x647; 0x630; 0x627; 0x61f]%N ++ js " " ++ [0xd83e; 0xdd14]%N]
      else
        [js "Share your thoughts " ++ [0xd83d; 0xdc47]%N;
         js "What do you think? " ++ [0xd83d; 0xdcad]%N;
         js "Do you apply this? " ++ [0xd83e; 0xdd14]%N]
  | technical =>
      if isArabic then
        [[0x62c; 0x631; 0x628]%N ++ js " " ++ [0x648; 0x623; 0x62e; 0x628; 0x631; 0x646; 0x627]%N ++ js " " ++ [0xd83d; 0xdd27]%N;
         [0x634; 0x627; 0x631; 0x643]%N ++ js " " ++ [0x62a; 0x62c; 0x631; 0x628; 0x62a; 0x643]%N ++ js " " ++ [0xd83d; 0xdcbb]%N;
         [0x647; 0x644]%N ++ js " " ++ [0x648; 0x627; 0x62c; 0x647; 0x62a]%N ++ js " " ++ [0x647; 0x630; 0x627; 0x61f]%N ++ js " " ++ [0x2699; 0xfe0f]%N]
      else
        [js "Try it and let us know " ++ [0xd83d; 0xdd27]%N;
         js "Share your experience " ++ [0xd83d; 0xdcbb]%N;
         js "Have you faced this? " ++ [0x2699; 0xfe0f]%N]
  | concise =>
      if isArabic then
        [[0x631; 0x623; 0x64a; 0x643; 0x61f]%N ++ js " " ++ [0xd83d; 0xdc47]%N;
         [0x62a; 0x62c; 0x631; 0x628; 0x62a; 0x643; 0x61f]%N ++ js " " ++ [0xd83d; 0xdcad]%N;
         [0x645; 0x641; 0x64a; 0x62f; 0x61f]%N ++ js " " ++ [0x2728]%N]
      else
        [js "Your take? " ++ [0xd83d; 0xdc47]%N;
         js "Your experience? " ++ [0xd83d; 0xdcad]%N;
         js "Helpful? " ++ [0x2728]%N]
  | engaging =>
      if isArabic then
        [[0x634; 0x627; 0x631; 0x643]%N ++ js " " ++ [0x627; 0x644; 0x642; 0x635; 0x629]%N ++ js "! " ++ [0xd83d; 0xde80]%N;
         [0x639; 0x644; 0x642]%N ++ js " " ++ [0x628; 0x631; 0x623; 0x64a; 0x643]%N ++ js "! " ++ [0xd83d; 0xdd25]%N;
         [0x648; 0x623; 0x646; 0x62a; 0x61f]%N ++ js " " ++ [0xd83d; 0xdc40]%N]
      else
        [js "Share the story! " ++ [0xd83d; 0xde80]%N;
         js "Drop your opinion! " ++ [0xd83d; 0xdd25]%N;
         js "What about you? " ++ [0xd83d; 0xdc40]%N]
  | professional =>
      if isArabic then
        [[0x634; 0x627; 0x631; 0x643; 0x646; 0x627]%N ++ js " " ++ [0x62e; 0x628; 0x631; 0x62a; 0x643]%N ++ js " " ++ [0xd83d; 0xdcbc]%N;
         [0x645; 0x627]%N ++ js " " ++ [0x627; 0x633; 0x62a; 0x631; 0x627; 0x62a; 0x64a; 0x62c; 0x64a; 0x62a; 0x643; 0x61f]%N ++ js " " ++ [0xd83d; 0xdcca]%N;
         [0x62a; 0x62c; 0x631; 0x628; 0x62a; 0x643; 0x61f]%N ++ js " " ++ [0xd83c; 0xdfaf]%N]
      else
        [js "Share your expertise " ++ [0xd83d; 0xdcbc]%N;
         js "What's your strategy? " ++ [0xd83d; 0xdcca]%N;
         js "Your experience? " ++ [0xd83c; 0xdfaf]%N]
  | otherStyle _ =>
      if isArabic then
        [[0x634; 0x627; 0x631; 0x643; 0x646; 0x627]%N ++ js " " ++ [0x631; 0x623; 0x64a; 0x643]%N ++ js " " ++ [0xd83d; 0xdc47]%N;
         [0x645; 0x627]%N ++ js " " ++ [0x631; 0x623; 0x64a; 0x643]%N ++ js " " ++ [0x641; 0x64a]%N ++ js " " ++ [0x647; 0x630; 0x627; 0x61f]%N ++ js " " ++ [0xd83d; 0xdcad]%N;
         [0x647; 0x644]%N ++ js " " ++ [0x62a; 0x637; 0x628; 0x642]%N ++ js " " ++ [0x647; 0x630; 0x627; 0x61f]%N ++ js " " ++ [0xd83e; 0xdd14]%N]
      else
        [js "Share your thoughts " ++ [0xd83d; 0xdc47]%N;
         js "What do you think? " ++ [0xd83d; 0xdcad]%N;
         js "Do you apply this? " ++ [0xd83e; 0xdd14]%N]
  end.

Definition structures (style : Style) : jsstring :=
  match style with
  | educational =>
      js "Introduction " ++ [0x2192]%N ++ js " Key Points " ++ [0x2192]%N ++ js " Examples " ++ [0x2192]%N ++ js " Conclusion"
  | technical =>
      js "Problem " ++ [0x2192]%N ++ js " Solution " ++ [0x2192]%N ++ js " Implementation " ++ [0x2192]%N ++ js " Results"
  | concise =>
      js "Hook " ++ [0x2192]%N ++ js " Main Points " ++ [0x2192]%N ++ js " Summary"
  | engaging =>
      js "Hook " ++ [0x2192]%N ++ js " Story " ++ [0x2192]%N ++ js " Insights " ++ [0x2192]%N ++ js " CTA"
  | professional =>
      js "Analysis " ++ [0x2192]%N ++ js " Strategy " ++ [0x2192]%N ++ js " Application " ++ [0x2192]%N ++ js " Recommendations"
  | otherStyle _ =>
      js "Hook " ++ [0x2192]%N ++ js " Content " ++ [0x2192]%N ++ js " Conclusion"
  end.

Definition imagePatterns : list ImagePattern :=
  [
   {| ip_keywords :=
        [js "startup"; js "entrepreneur"; js "founding"; js "business plan"; js "venture"];
      ip_type := js "infographic";
      ip_content := js "Startup journey infographic";
      ip_pattern_keywords :=
        [js "startup"; js "entrepreneur"; js "journey"; js "business"];
      ip_template := js "process";
      ip_priority := 10 |};
   {| ip_keywords :=
        [js "mvp"; js "minimum viable product"; js "product development"; js "iterate"];
      ip_type := js "diagram";
      ip_content := js "Product development cycle";
      ip_pattern_keywords :=
        [js "mvp"; js "product"; js "development"; js "iteration"];
      ip_template := js "process";
      ip_priority := 9 |};
   {| ip_keywords :=
        [js "team"; js "hiring"; js "talent"; js "leadership"; js "skills"];
      ip_type := js "infographic";
      ip_content := js "Team building visual";
      ip_pattern_keywords :=
        [js "team"; js "leadership"; js "skills"; js "hiring"];
      ip_template := js "vertical_list";
      ip_priority := 8 |};
   {| ip_keywords :=
        [js "funding"; js "investment"; js "capital"; js "money"; js "revenue"];
      ip_type := js "chart";
      ip_content := js "Financial growth chart";
      ip_pattern_keywords :=
        [js "funding"; js "growth"; js "revenue"; js "investment"];
      ip_template := js "horizontal_list";
      ip_priority := 8 |};
   {| ip_keywords :=
        [js "step"; js "process"; js "tutorial"; js "guide"; js "how to"; js "method"];
      ip_type := js "infographic";
      ip_content := js "Step-by-step process guide";
      ip_pattern_keywords :=
        [js "tutorial"; js "process"; js "steps"; js "guide"];
      ip_template := js "vertical_list";
      ip_priority := 7 |};
   {| ip_keywords :=
        [js "vs"; js "versus"; js "comparison"; js "compare"; js "difference"; js "before"; js "after"];
      ip_type := js "infographic";
      ip_content := js "Comparison analysis";
      ip_pattern_keywords :=
        [js "comparison"; js "vs"; js "analysis"; js "differences"];
      ip_template := js "comparison";
      ip_priority := 7 |};
   {| ip_keywords :=
        [js "data"; js "statistics"; js "chart"; js "graph"; js "percentage"; js "number"; js "result"; js "metric"];
      ip_type := js "chart";
      ip_content := js "Data visualization";
      ip_pattern_keywords :=
        [js "data"; js "statistics"; js "metrics"; js "results"];
      ip_template := js "horizontal_list";
      ip_priority := 6 |};
   {| ip_keywords :=
        [js "tips"; js "advice"; js "list"; js "points"; js "factors"; js "reasons"; js "benefits"];
      ip_type := js "infographic";
      ip_content := js "Key insights infographic";
      ip_pattern_keywords :=
        [js "tips"; js "list"; js "insights"; js "benefits"];
      ip_template := js "vertical_list";
      ip_priority := 6 |};
   {| ip_keywords :=
        [js "code"; js "programming"; js "software"; js "app"; js "website"; js "algorithm"; js "api"];
      ip_type := js "screenshot";
      ip_content := js "Code or interface showcase";
      ip_pattern_keywords :=
        [js "code"; js "programming"; js "tech"; js "interface"];
      ip_template := js "highlight";
      ip_priority := 6 |};
   {| ip_keywords :=
        [js "strategy"; js "plan"; js "growth"; js "success"; js "framework"];
      ip_type := js "infographic";
      ip_content := js "Strategic framework diagram";
      ip_pattern_keywords :=
        [js "strategy"; js "framework"; js "growth"; js "success"];
      ip_template := js "process";
      ip_priority := 5 |};
   {| ip_keywords :=
        [js "timeline"; js "history"; js "evolution"; js "progress"; js "journey"; js "development"];
      ip_type := js "infographic";
      ip_content := js "Timeline progression";
      ip_pattern_keywords :=
        [js "timeline"; js "history"; js "progress"; js "evolution"];
      ip_template := js "horizontal_list";
      ip_priority := 5 |};
   {| ip_keywords :=
        [js "problem"; js "solution"; js "fix"; js "issue"; js "challenge"; js "resolve"];
      ip_type := js "diagram";
      ip_content := js "Problem-solution flow";
      ip_pattern_keywords :=
        [js "problem"; js "solution"; js "fix"; js "challenge"];
      ip_template := js "comparison";
      ip_priority := 5 |};
   {| ip_keywords :=
        [js "quote"; js "saying"; js "insight"; js "wisdom"; js "lesson"; js "principle"];
      ip_type := js "photo";
      ip_content := js "Inspirational quote card";
      ip_pattern_keywords :=
        [js "quote"; js "insight"; js "wisdom"; js "inspiration"];
      ip_template := js "highlight";
      ip_priority := 4 |}
  ].

(** The entries of [styleSuggestions] and the default after [||]:
    type, the head of the content, keywords, template. *)
Definition styleSuggestion (style : Style)
    : jsstring * jsstring * list jsstring * jsstring :=
  match style with
  | educational =>
      (js "infographic", js "Educational breakdown",
       [js "education"; js "learning"; js "knowledge"; js "tutorial"],
       js "vertical_list")
  | technical =>
      (js "diagram", js "Technical architecture",
       [js "technical"; js "system"; js "process"; js "architecture"],
       js "process")
  | engaging =>
      (js "photo", js "Eye-catching visual",
       [js "engaging"; js "visual"; js "attractive"; js "impact"],
       js "highlight")
  | professional =>
      (js "chart", js "Business insight chart",
       [js "professional"; js "business"; js "data"; js "insight"],
       js "horizontal_list")
  | concise =>
      (js "infographic", js "Key points summary",
       [js "summary"; js "key points"; js "overview"; js "concise"],
       js "vertical_list")
  | otherStyle _ =>
      (js "infographic", js "Content visualization",
       [js "content"; js "visual"; js "information"; js "summary"],
       js "vertical_list")
  end.

(** *** Segmentation *)

Definition Qltb (a b : Q) : bool := negb (Qle_bool b a).

(** The [for ... of] loop of [combineSmallSegments]; the result is
    [combined] and [current] when the loop is left. *)
Fixpoint combineLoop (all : list jsstring) (targetCount : Z) (avgLength : Q)
    (segments : list jsstring) (combined : list jsstring)
    (current : jsstring) : list jsstring * jsstring :=
  match segments with
  | [] => (combined, current)
  | segment :: rest =>
      if len current =? 0 then
        combineLoop all targetCount avgLength rest combined segment
      else if Qltb (inject_Z (len current + len segment + 1))
                (avgLength * (3 # 2)) then
        combineLoop all targetCount avgLength rest combined
          (current ++ js " " ++ segment)
      else
        let combined := combined ++ [current] in
        let current := segment in
        if len combined >=? targetCount - 1 then
          let remaining := sliceFrom (indexOf segment all + 1) all in
          (combined,
           if len remaining >? 0
           then current ++ js " " ++ join (js " ") remaining
           else current)
        else combineLoop all targetCount avgLength rest combined current
  end.

Definition combineSmallSegments (segments : list jsstring) (targetCount : Z)
    : list jsstring :=
  if len segments <=? targetCount then segments
  else
    let total := fold_left (fun sum s => sum + len s) segments 0 in
    let avgLength := (inject_Z total / inject_Z targetCount)%Q in
    let r := combineLoop segments targetCount avgLength segments [] [] in
    if isEmpty (snd r) then fst r else fst r ++ [snd r].

(** [Math.ceil(a / b)] for non-negative [a] and positive [b]. *)
Definition ceilDiv (a b : Z) : Z := (a + b - 1) / b.

(** [for (let i = 0; i < sentences.length; i += sentencesPerTweet)].
    With [sentencesPerTweet >= 1] the loop makes at most
    [sentences.length] iterations. *)
Fixpoint sentenceLoop (fuel : nat) (sentences : list jsstring)
    (sentencesPerTweet : Z) (i : Z) (segments : list jsstring)
    : list jsstring :=
  match fuel with
  | O => segments
  | S fuel' =>
      if i <? len sentences then
        let segment :=
          trim (join (js ". ") (slice i (i + sentencesPerTweet) sentences)) in
        sentenceLoop fuel' sentences sentencesPerTweet
          (i + sentencesPerTweet)
          (if isEmpty segment then segments else segments ++ [segment])
      else segments
  end.

(** [for (let i = 0; i < text.length; i += avgLength)].  With
    [avgLength >= 1] the loop makes at most [text.length] iterations. *)
Fixpoint lengthLoop (fuel : nat) (text : jsstring) (avgLength : Z) (i : Z)
    (segments : list jsstring) : list jsstring :=
  match fuel with
  | O => segments
  | S fuel' =>
      if i <? len text then
        let segment := substring i (i + avgLength) text in
        let segment :=
          if i + avgLength <? len text then
            let lastSpace := lastIndexOfAny 32%N segment in
            (* lastSpace > segment.length * 0.5 *)
            if 2 * lastSpace >? len segment
            then substring 0 lastSpace segment
            else segment
          else segment in
        lengthLoop fuel' text avgLength (i + avgLength)
          (segments ++ [trim segment])
      else segments
  end.

Definition nonBlank (s : jsstring) : bool := len (trim s) >? 0.

Definition segmentText (text : jsstring) (targetCount : Z) : list jsstring :=
  if isEmpty text || (targetCount <? 1) then []
  else
    let paragraphs := List.filter nonBlank (split paragraphBreak text) in
    if len paragraphs >=? targetCount then
      combineSmallSegments (slice 0 (targetCount * 2) paragraphs) targetCount
    else
      let sentences := List.filter nonBlank (split sentenceEnd text) in
      if len sentences >=? targetCount then
        let sentencesPerTweet := ceilDiv (len sentences) targetCount in
        let segments :=
          sentenceLoop (List.length sentences) sentences sentencesPerTweet
            0 [] in
        slice 0 targetCount segments
      else
        let avgLength := ceilDiv (len text) targetCount in
        let segments := lengthLoop (List.length text) text avgLength 0 [] in
        List.filter (fun s => len s >? 0) segments.

(** *** Building one tweet *)

(** The decimal numeral of a count, as template literals print it. *)
Definition decimal (n : nat) : jsstring :=
  js (NilZero.string_of_uint (Nat.to_uint n)).

Definition getStylePrefixes (style : Style) (language : Language)
    : list jsstring :=
  stylePrefixes style
    (match language with arabic => true | _ => false end).

Definition generateTweetText (segment : jsstring) (style : Style)
    (index total : nat) (langAnalysis : LangAnalysis) (g : rng)
    : jsstring * rng :=
  let tweetText := trim segment in
  let tweetText :=
    if (1 <? total)%nat then
      let threadNumber :=
        js "(" ++ decimal (S index) ++ js "/" ++ decimal total ++ js ")" in
      tweetText ++ js " " ++ threadNumber
    else tweetText in
  if (index =? 0)%nat then
    let prefixes := getStylePrefixes style (dominant_language langAnalysis) in
    match prefixes with
    | [] => (tweetText, g)
    | _ =>
        let r := randomIndex (List.length prefixes) g in
        let prefix := nth (fst r) prefixes [] in
        (prefix ++ js " " ++ tweetText, snd r)
    end
  else (tweetText, g).

Definition generateCTA (style : Style) (langAnalysis : LangAnalysis)
    (g : rng) : jsstring * rng :=
  let isArabic :=
    match dominant_language langAnalysis with arabic => true | _ => false end in
  let styleCTAs := styleCTAs style isArabic in
  let r := randomIndex (List.length styleCTAs) g in
  (nth (fst r) styleCTAs [], snd r).

Section Tweets.
Context {host : Host}.

Definition generateEmojis (segment : jsstring) (style : Style) (index : nat)
    : list jsstring :=
  let lowerSegment := toLowerCase segment in
  let contentEmojis := [] in
  let contentEmojis :=
    if includes lowerSegment (js "important")
       || includes lowerSegment importantWordArabic
    then contentEmojis ++ importantEmojis else contentEmojis in
  let contentEmojis :=
    if includes lowerSegment (js "success")
       || includes lowerSegment successWordArabic
    then contentEmojis ++ successEmojis else contentEmojis in
  let contentEmojis :=
    if includes lowerSegment (js "money")
       || includes lowerSegment moneyWordArabic
    then contentEmojis ++ moneyEmojis else contentEmojis in
  let contentEmojis :=
    if includes lowerSegment (js "time")
       || includes lowerSegment timeWordArabic
    then contentEmojis ++ timeEmojis else contentEmojis in
  let contentEmojis :=
    if (index =? 0)%nat then threadStartEmojis ++ contentEmojis
    else contentEmojis in
  let allEmojis := styleEmojis style ++ contentEmojis in
  slice 0 3 (arrayFromSet allEmojis).

(** The quotation mark of the template literals. *)
Definition quote : jsstring := [34%N].

(** The scan over [imagePatterns]: the best match so far with its score. *)
Fixpoint bestImageMatch (segment lowerText : jsstring)
    (patterns : list ImagePattern) (bestMatch : option ImageSuggestion)
    (bestScore : Z) : option ImageSuggestion * Z :=
  match patterns with
  | [] => (bestMatch, bestScore)
  | patternObj :: rest =>
      let matchedKeywords :=
        List.filter (fun keyword => includes lowerText keyword)
          (ip_keywords patternObj) in
      let score :=
        fold_left
          (fun score keyword => score + (ip_priority patternObj + len keyword))
          matchedKeywords 0 in
      if score >? bestScore then
        bestImageMatch segment lowerText rest
          (Some {| img_type := ip_type patternObj;
                   img_content :=
                     ip_content patternObj ++ js " for: " ++ quote
                       ++ substring 0 60 segment ++ js "..." ++ quote;
                   img_keywords := ip_pattern_keywords patternObj;
                   img_template := ip_template patternObj;
                   matched_keywords := Some matchedKeywords |})
          score
      else bestImageMatch segment lowerText rest bestMatch bestScore
  end.

Definition generateImageSuggestion (segment : jsstring) (style : Style)
    : ImageSuggestion :=
  let lowerText := toLowerCase segment in
  let best := bestImageMatch segment lowerText imagePatterns None 0 in
  match fst best with
  | Some bestMatch =>
      if snd best >=? 5 then bestMatch
      else
        let '(ty, head, kws, template) := styleSuggestion style in
        {| img_type := ty;
           img_content :=
             head ++ js ": " ++ quote ++ substring 0 50 segment
               ++ js "..." ++ quote;
           img_keywords := kws; img_template := template;
           matched_keywords := None |}
  | None =>
      let '(ty, head, kws, template) := styleSuggestion style in
      {| img_type := ty;
         img_content :=
           head ++ js ": " ++ quote ++ substring 0 50 segment
             ++ js "..." ++ quote;
         img_keywords := kws; img_template := template;
         matched_keywords := None |}
  end.

(** The callback of [segments.map] in [generateFallbackThread], threading
    the random draws. *)
Fixpoint makeTweets (style : Style) (langAnalysis : LangAnalysis)
    (includeImages : bool) (total : nat) (index : nat) (g : rng)
    (segments : list jsstring) : list Tweet :=
  match segments with
  | [] => []
  | segment :: rest =>
      let t := generateTweetText segment style index total langAnalysis g in
      let tweetText := fst t in
      let c :=
        if (S index =? total)%nat then
          let r := generateCTA style langAnalysis (snd t) in
          (Some (fst r), snd r)
        else (None, snd t) in
      {| index := Z.of_nat index + 1;
         text := tweetText;
         char_count := getCharCount tweetText [] None;
         warnings := [];
         warnings_ref := index;
         hashtags := [];
         emoji_suggestions := generateEmojis segment style index;
         cta := fst c;
         image_suggestion :=
           if includeImages
           then Some (generateImageSuggestion segment style)
           else None |}
        :: makeTweets style langAnalysis includeImages total (S index)
             (snd c) rest
  end.

End Tweets.

(** *** Rebalancing the number of tweets *)

(** [(tweet, index) => ({ ...tweet, index: index + 1 })] *)
Definition reindex (tweets : list Tweet) : list Tweet :=
  mapi (fun tweet i => with_index tweet (Z.of_nat i + 1)) tweets.

(** The [reduce] that finds the first longest tweet. *)
Fixpoint longestFrom (result : list Tweet) (idx maxIdx : nat)
    (l : list Tweet) : nat :=
  match l with
  | [] => maxIdx
  | tweet :: l' =>
      longestFrom result (S idx)
        (match nth_error result maxIdx with
         | Some best =>
             if len (text tweet) >? len (text best) then idx else maxIdx
         | None => maxIdx
         end) l'
  end.

Definition longestIndex (result : list Tweet) : nat :=
  longestFrom result O O result.

(** The [while (result.length < targetCount)] loop.  Every iteration that
    does not leave the loop adds one tweet, so [targetCount -
    result.length] iterations are all there can be.  Reading [.text] of
    [result[0]] on an empty [result] throws a TypeError. *)
Fixpoint splitLoop (fuel : nat) (targetCount : Z) (result : list Tweet)
    : Completion (list Tweet) :=
  match fuel with
  | O => Normal result
  | S fuel' =>
      if len result <? targetCount then
        let longestIndex := longestIndex result in
        match nth_error result longestIndex with
        | None =>
            Throw (js "Cannot read properties of undefined (reading 'text')")
        | Some longestTweet =>
            if len (text longestTweet) <? 100 then Normal result
            else
              let midPoint := len (text longestTweet) / 2 in
              let splitPoint :=
                lastIndexOf 32%N midPoint (text longestTweet) in
              if splitPoint >? 0 then
                let firstPart :=
                  trim (substring 0 splitPoint (text longestTweet)) in
                let secondPart :=
                  trim (substringFrom splitPoint (text longestTweet)) in
                splitLoop fuel' targetCount
                  (firstn longestIndex result
                   ++ with_text longestTweet firstPart
                   :: with_emoji_suggestions
                        (with_hashtags (with_text longestTweet secondPart) [])
                        []
                   :: skipn (S longestIndex) result)
              else Normal result
        end
      else Normal result
  end.

Definition ensureExactTweetCount (tweets : list Tweet) (targetCount : Z)
    : Completion (list Tweet) :=
  if len tweets =? targetCount then Normal tweets
  else if len tweets >? targetCount then
    let toRemove := len tweets - targetCount in
    let startRemove := (len tweets - toRemove) / 2 in
    Normal
      (reindex
         (slice 0 startRemove tweets
          ++ sliceFrom (startRemove + toRemove) tweets))
  else
    match splitLoop (Z.to_nat (targetCount - len tweets)) targetCount tweets
    with
    | Normal result => Normal (reindex (slice 0 targetCount result))
    | Throw e => Throw e
    end.

(** *** Tone, summary, score and recommendations *)

Definition generateThreadSummary (tweets : list Tweet) (style : Style)
    : jsstring :=
  structures style.

Definition truthy (o : option jsstring) : bool :=
  match o with Some c => negb (isEmpty c) | None => false end.

Definition styleScore (style : Style) : Q :=
  match style with
  | engaging => 5 # 10
  | educational => 3 # 10
  | professional => 2 # 10
  | technical => 1 # 10
  | concise => 2 # 10
  | otherStyle _ => 0
  end.

Definition calculateEngagementScore (tweets : list Tweet)
    (langAnalysis : LangAnalysis) (style : Style) : Q :=
  let score := 5%Q in
  let score :=
    if (len tweets >=? 3) && (len tweets <=? 7) then (score + 1)%Q
    else if len tweets >? 10 then (score - (3 # 2))%Q
    else score in
  let score :=
    if existsb (fun t => truthy (cta t)) tweets then (score + (1 # 2))%Q
    else score in
  let emojiCount :=
    fold_left (fun sum t => sum + len (emoji_suggestions t)) tweets 0 in
  let score :=
    if (emojiCount >? 0) && (emojiCount <=? len tweets * 2)
    then (score + (1 # 2))%Q else score in
  let hashtagCount :=
    fold_left (fun sum t => sum + len (hashtags t)) tweets 0 in
  let score :=
    if (hashtagCount >? 0) && (hashtagCount <=? len tweets * 3)
    then (score + (1 # 2))%Q else score in
  let score := (score + styleScore style)%Q in
  Qmin (Qmax score 0) 10.

Record PublishingRecommendations := {
  best_time : jsstring;
  thread_timing : jsstring;
  engagement_tips : list jsstring
}.

Definition generatePublishingRecommendations (langAnalysis : LangAnalysis)
    (style : Style) : PublishingRecommendations :=
  let isArabic :=
    match dominant_language langAnalysis with arabic => true | _ => false end in
  let bestTime := if isArabic then js "21:00 GMT+3" else js "09:00 GMT-5" in
  let engagementTips :=
    if isArabic then
      [js "Post during evening hours (8-10 PM) for better Arabic audience engagement";
       js "Use RTL formatting for optimal display"]
    else
      [js "Post during business hours or early evening for English audience";
       js "Consider time zones of your target audience"] in
  let engagementTips :=
    match style with
    | educational =>
        engagementTips
          ++ [js "Pin the thread for reference";
              js "Encourage saves and bookmarks"]
    | _ => engagementTips
    end in
  {| best_time := bestTime;
     thread_timing := js "2 minutes";
     engagement_tips := engagementTips |}.

Record Metadata := {
  md_language : jsstring;
  style_requested : Style;
  tone_detected : jsstring;
  max_tweets_requested : Z;
  tweets_generated : Z;
  md_direction : TextDirection
}.

(** The object returned at the end of the [try] block. *)
Record ThreadResult := {
  metadata : Metadata;
  thread : list Tweet;
  thread_summary : jsstring;
  estimated_engagement_score : Q;
  publishing_recommendations : PublishingRecommendations
}.

(** The object returned by the [catch] block. *)
Record ErrorResult := {
  error : jsstring;
  code : Z
}.

Inductive GenerationResult :=
  | Generated (r : ThreadResult)
  | Failed (e : ErrorResult).

(** [CONSTANTS.ERROR_CODES.INTERNAL_ERROR] *)
Definition INTERNAL_ERROR : Z := 500.

Section Thread.
Context {host : Host}.

Definition detectTone (text : jsstring) (style : Style) : jsstring :=
  let lowerText := toLowerCase text in
  if includes lowerText (js "warning") || includes lowerText (js "careful")
     || includes lowerText warningWordArabic
  then styleName style ++ js " + warning"
  else if includes lowerText (js "exciting")
          || includes lowerText (js "amazing")
          || includes lowerText excitementWordArabic
  then styleName style ++ js " + excitement"
  else if includes lowerText (js "important")
          || includes lowerText (js "critical")
          || includes lowerText urgentWordArabic
  then styleName style ++ js " + urgent"
  else styleName style.

(** *** The final length-validation pass *)

(** [tweet.warnings.push(w)] seen from another tweet object: the push
    shows in every tweet that holds the same array. *)
Definition pushWarning (ref : nat) (w : jsstring) (t : Tweet) : Tweet :=
  if (warnings_ref t =? ref)%nat then with_warnings t (warnings t ++ [w])
  else t.

(** The last [tweets.map(tweet => { ...; return tweet })].  The callback
    mutates the tweet objects in place and returns them, so the array is
    its own result: [tweets] is the state of its objects, [i] the position
    visited next and [steps] the number of positions left. *)
Fixpoint validateFrom (steps i : nat) (tweets : list Tweet) : list Tweet :=
  match steps with
  | O => tweets
  | S steps' =>
      match nth_error tweets i with
      | None => tweets
      | Some tweet =>
          let validation :=
            validateTweetLength (text tweet) (hashtags tweet) (cta tweet) in
          if isValid validation then validateFrom steps' (S i) tweets
          else
            let text' :=
              truncateSmart (text tweet) 280 (hashtags tweet) (cta tweet) in
            let tweet' :=
              with_char_count (with_text tweet text')
                (getCharCount text' (hashtags tweet) (cta tweet)) in
            validateFrom steps' (S i)
              (List.map
                 (pushWarning (warnings_ref tweet)
                    (js "Tweet truncated to fit character limit"))
                 (firstn i tweets ++ tweet' :: skipn (S i) tweets))
      end
  end.

Definition validatePass (tweets : list Tweet) : list Tweet :=
  validateFrom (List.length tweets) O tweets.

(** *** [generateFallbackThread] *)

(** The tweets as they stand after [ensureExactTweetCount] (the first
    half of the [try] block). *)
Definition segmentAndRebalance (text : jsstring) (params : Params) (g : rng)
    : Completion (list Tweet) :=
  let langAnalysis := detectLanguagePercentages text in
  let segments := segmentText text (maxTweets params) in
  let tweets :=
    makeTweets (style params) langAnalysis (includeImages params)
      (List.length segments) O g segments in
  ensureExactTweetCount tweets (maxTweets params).

(** The tweets handed to [dedupeHashtagsAndEmojis]. *)
Definition enrichWithHashtags (params : Params) (tweets : list Tweet)
    : list Tweet :=
  if includeHashtags params then
    HashtagGenerator.generateThreadHashtags tweets
      {| HashtagGenerator.maxHashtags := 4;
         HashtagGenerator.englishRatio := 7 # 10;
         HashtagGenerator.includeThreadHashtag := false;
         HashtagGenerator.forceArabic := false |}
  else tweets.

(** The body of the [try] block. *)
Definition tryBlock (text : jsstring) (params : Params) (g : rng)
    : Completion ThreadResult :=
  let langAnalysis := detectLanguagePercentages text in
  let detectedLanguage := getLanguageCode text in
  let direction := detectTextDirection text in
  match segmentAndRebalance text params g with
  | Throw e => Throw e
  | Normal tweets =>
      let tweets := enrichWithHashtags params tweets in
      let tweets := dedupeHashtagsAndEmojis tweets in
      let tweets := validatePass tweets in
      let metadata :=
        {| md_language :=
             if streq (language params) (js "auto") then detectedLanguage
             else language params;
           style_requested := style params;
           tone_detected := detectTone text (style params);
           max_tweets_requested := maxTweets params;
           tweets_generated := len tweets;
           md_direction := direction |} in
      Normal
        {| metadata := metadata;
           thread := tweets;
           thread_summary := generateThreadSummary tweets (style params);
           estimated_engagement_score :=
             calculateEngagementScore tweets langAnalysis (style params);
           publishing_recommendations :=
             generatePublishingRecommendations langAnalysis (style params) |}
  end.

(** [try { ... } catch (error) { console.error(...); return { error, code } }] *)
Definition generateFallbackThread (text : jsstring) (params : Params)
    (g : rng) : Completion GenerationResult :=
  match tryBlock text params g with
  | Normal r => Normal (Generated r)
  | Throw _ =>
      Normal
        (Failed
           {| error := js "Failed to generate thread using local fallback";
              code := INTERNAL_ERROR |})
  end.

End Thread.
End LocalTemplates.

(* ================================================================== *)
(** ** utils/langDetect.js: the analysis of a whole thread *)

Module ThreadLanguage.

Import LangDetect.
Export LocalTemplates(Completion, Normal, Throw).

(** An entry of [tweetAnalyses]. *)
Record TweetAnalysis := {
  ta_index : Z;
  ta_text : jsstring;
  ta_analysis : LangAnalysis
}.

Record Statistics := {
  stat_total_chars : Z;
  stat_arabic_percent : Q;
  stat_english_percent : Q
}.

(** The object returned by [analyzeThreadLanguage]; [statistics] is
    missing from the one returned for an empty thread. *)
Record ThreadAnalysis := {
  thread_dominant_language : Language;
  thread_direction : Direction;
  is_consistent : bool;
  mixed_tweets : list Z;
  recommendations : list jsstring;
  statistics : option Statistics
}.

(** [tweetAnalyses.reduce((sum, t) => sum + t.analysis.raw_counts.f, 0)].
    The analysis of a text without letters has no [raw_counts], and
    reading the property [f] of [undefined] throws a TypeError. *)
Fixpoint sumRawCounts (field : RawCounts -> Z) (name : jsstring)
    (l : list TweetAnalysis) (sum : Z) : Completion Z :=
  match l with
  | [] => Normal sum
  | t :: l' =>
      match raw_counts (ta_analysis t) with
      | Some counts => sumRawCounts field name l' (sum + field counts)
      | None =>
          Throw
            (js "Cannot read properties of undefined (reading '" ++ name
               ++ js "')")
      end
  end.

Section Analysis.
Context {host : Host}.

Local Open Scope Q_scope.

Definition analyzeThreadLanguage (tweets : list Tweet)
    : Completion ThreadAnalysis :=
  match tweets with
  | [] =>
      Normal
        {| thread_dominant_language := unknown; thread_direction := ltr;
           is_consistent := true; mixed_tweets := []; recommendations := [];
           statistics := None |}
  | _ =>
      let tweetAnalyses :=
        mapi
          (fun tweet index =>
             {| ta_index := Z.of_nat index;
                ta_text := text tweet;
                ta_analysis := detectLanguagePercentages (text tweet) |})
          tweets in
      let totalChars :=
        fold_left (fun sum t => (sum + total_chars (ta_analysis t))%Z)
          tweetAnalyses 0%Z in
      match sumRawCounts raw_arabic (js "arabic") tweetAnalyses 0%Z with
      | Throw e => Throw e
      | Normal totalArabic =>
          match sumRawCounts raw_english (js "english") tweetAnalyses 0%Z with
          | Throw e => Throw e
          | Normal totalEnglish =>
              let overallArabicPercent :=
                if (totalChars >? 0)%Z
                then inject_Z totalArabic / inject_Z totalChars * 100
                else 0 in
              let overallEnglishPercent :=
                if (totalChars >? 0)%Z
                then inject_Z totalEnglish / inject_Z totalChars * 100
                else 0 in
              let dominantLanguage :=
                if Qgtb overallArabicPercent overallEnglishPercent
                then if Qgtb overallArabicPercent 30 then arabic else unknown
                else if Qgtb overallEnglishPercent 50 then english
                     else unknown in
              let direction :=
                if Qgtb overallArabicPercent 30 then rtl else ltr in
              let mixedTweets :=
                List.filter (fun t => is_mixed (ta_analysis t))
                  tweetAnalyses in
              let isConsistent := (len mixedTweets =? 0)%Z in
              let recommendations :=
                if negb isConsistent then
                  [js "Consider separating mixed-language content into different tweets"]
                else [] in
              let recommendations :=
                match dominantLanguage, direction with
                | arabic, rtl =>
                    recommendations
                      ++ [js "Use RTL formatting for optimal Arabic text display"]
                | _, _ => recommendations
                end in
              Normal
                {| thread_dominant_language := dominantLanguage;
                   thread_direction := direction;
                   is_consistent := isConsistent;
                   mixed_tweets := List.map ta_index mixedTweets;
                   recommendations := recommendations;
                   statistics :=
                     Some
                       {| stat_total_chars := totalChars;
                          stat_arabic_percent := round2 overallArabicPercent;
                          stat_english_percent :=
                            round2 overallEnglishPercent |} |}
          end
      end
  end.

End Analysis.
End ThreadLanguage.

(* ================================================================== *)
(** ** services/geminiService.js: the fallback path *)

Module GeminiService.

Import LocalTemplates.

(** What [useFallback] returns: the result of [generateFallbackThread],
    or the error object of its own [catch] block. *)
Inductive FallbackResult :=
  | Fallback (r : GenerationResult)
  | BothFailed (error : jsstring).

Section Fallback.
Context {host : Host}.

(** [useFallback(text, params, requestId, reason)], logging aside: the
    hashtags of a generated thread are generated anew. *)
Definition useFallback (text : jsstring) (params : Params) (g : rng)
    : FallbackResult :=
  match generateFallbackThread text params g with
  | Normal (Generated r) =>
      Fallback
        (Generated
           {| metadata := metadata r;
              thread :=
                HashtagGenerator.generateThreadHashtags (thread r)
                  {| HashtagGenerator.maxHashtags := 4;
                     HashtagGenerator.englishRatio := 7 # 10;
                     HashtagGenerator.includeThreadHashtag := false;
                     HashtagGenerator.forceArabic := false |};
              thread_summary := thread_summary r;
              estimated_engagement_score := estimated_engagement_score r;
              publishing_recommendations := publishing_recommendations r |})
  | Normal (Failed e) => Fallback (Failed e)
  | Throw _ => BothFailed (js "Both Gemini and fallback generation failed")
  end.

End Fallback.
End GeminiService.

(* ================================================================== *)
(** ** utils/inputSanitizer.js *)

Module InputSanitizer.

(** What the file reads of [process.env], after [parseInt]: [None] is
    [NaN], the value for a variable that is unset or does not start with a
    number. *)
Record Environment := {
  env_MAX_INPUT_LENGTH : option Z;
  env_MAX_TWEETS_PER_THREAD : option Z
}.

(** [parsed || fallback] for a number: [NaN] and 0 are falsy. *)
Definition orElse (parsed : option Z) (fallback : Z) : Z :=
  match parsed with
  | Some n => if n =? 0 then fallback else n
  | None => fallback
  end.

(** config/constants *)
Definition MAX_INPUT_LENGTH : Z := 10000.
Definition MAX_TWEETS_PER_THREAD : Z := 20.
Definition DEFAULT_STYLE : jsstring := js "professional".
Definition DEFAULT_MAX_TWEETS : Z := 5.
Definition DEFAULT_LANGUAGE : jsstring := js "auto".
Definition VALIDATION_ERROR : Z := 400.

(** *** Patterns *)

(** [s.replace(re, '')] for a global pattern [re] that matches no empty
    string.  [matchAt s] is the length of the match of [re] at the start
    of [s], when there is one; [skip] counts the units of the current
    match that are still to be dropped. *)
Fixpoint removeMatches (matchAt : jsstring -> option nat) (s : jsstring)
    (skip : nat) : jsstring :=
  match s with
  | [] => []
  | c :: s' =>
      match skip with
      | S k => removeMatches matchAt s' k
      | O =>
          match matchAt s with
          | Some (S k) => removeMatches matchAt s' k
          | _ => c :: removeMatches matchAt s' O
          end
      end
  end.

(** Equality of two units under the [i] flag of a pattern without the [u]
    flag, for a pattern unit that is ASCII: the letters A to Z equal their
    lower-case forms, and no unit beyond ASCII equals an ASCII one. *)
Definition asciiLower (c : codeunit) : codeunit :=
  if ((65 <=? c) && (c <=? 90))%N then (c + 32)%N else c.

Definition sameIgnoringCase (a b : codeunit) : bool :=
  (asciiLower a =? asciiLower b)%N.

Fixpoint startsWithBy (eqb : codeunit -> codeunit -> bool) (s p : jsstring)
    {struct p} : bool :=
  match p, s with
  | [], _ => true
  | _ :: _, [] => false
  | a :: p', b :: s' => eqb a b && startsWithBy eqb s' p'
  end.

(** The number of units of [s] up to the end of the first occurrence of
    [close] in it. *)
Fixpoint throughFirst (eqb : codeunit -> codeunit -> bool)
    (close s : jsstring) : option nat :=
  match s with
  | [] => None
  | _ :: s' =>
      if startsWithBy eqb s close then Some (List.length close)
      else option_map S (throughFirst eqb close s')
  end.

(** [/<[^>]*>/]: a [<], and everything up to the first [>] after it. *)
Definition tagMatch (s : jsstring) : option nat :=
  match s with
  | c :: s' =>
      if (c =? 60)%N then option_map S (throughFirst N.eqb [62%N] s')
      else None
  | [] => None
  end.

(** [\w] *)
Definition isWordUnit (c : codeunit) : bool :=
  ((97 <=? c) && (c <=? 122) || (65 <=? c) && (c <=? 90)
   || (48 <=? c) && (c <=? 57) || (c =? 95))%N.

(** [\b] after a word unit: the next unit, if any, is not a word unit. *)
Definition wordEnds (s : jsstring) : bool :=
  match s with
  | [] => true
  | c :: _ => negb (isWordUnit c)
  end.

(** The pattern of the script and style removals, for the element [name],
    case being ignored: [<name] at the end of a word, the units up to the
    next [<], any number of times a [<] that does not open [</name>] with
    the units up to the next [<], and [</name>].  The pattern walks from one
    [<] to the next and stops at the first that opens [</name>]: the match
    ends with the first closing tag after the opening one, and there is no
    match without a closing tag. *)
Definition elementMatch (name s : jsstring) : option nat :=
  let opening := 60%N :: name in
  let closing := js "</" ++ name ++ js ">" in
  if startsWithBy sameIgnoringCase s opening then
    let rest := skipn (List.length opening) s in
    if wordEnds rest then
      option_map (fun n => (List.length opening + n)%nat)
        (throughFirst sameIgnoringCase closing rest)
    else None
  else None.

Definition removeTags (s : jsstring) : jsstring :=
  removeMatches tagMatch s O.

Definition removeScripts (s : jsstring) : jsstring :=
  removeMatches (elementMatch (js "script")) s O.

Definition removeStyles (s : jsstring) : jsstring :=
  removeMatches (elementMatch (js "style")) s O.

(** [s.replace(/pattern/g, replacement)] for a literal pattern that is not
    empty and a replacement without [$]. *)
Fixpoint replaceAll (pattern replacement s : jsstring) (skip : nat)
    : jsstring :=
  match s with
  | [] => []
  | c :: s' =>
      match skip with
      | S k => replaceAll pattern replacement s' k
      | O =>
          if startsWith s pattern then
            replacement
              ++ replaceAll pattern replacement s'
                   (List.length pattern - 1)
          else c :: replaceAll pattern replacement s' O
      end
  end.

(** The seven replacements of the entity decoding, in their order. *)
Definition entities : list (jsstring * jsstring) :=
  [ (js "&lt;", [60%N]); (js "&gt;", [62%N]); (js "&amp;", [38%N]);
    (js "&quot;", [34%N]); (js "&#x27;", [39%N]); (js "&#x2F;", [47%N]);
    (js "&#96;", [96%N]) ].

Definition decodeEntities (s : jsstring) : jsstring :=
  fold_left (fun s e => replaceAll (fst e) (snd e) s O) entities s.

(** [[\x00-\x08\x0B\x0C\x0E-\x1F\x7F]] *)
Definition isControlUnit (c : codeunit) : bool :=
  ((c <=? 8) || (c =? 11) || (c =? 12) || (14 <=? c) && (c <=? 31)
   || (c =? 127))%N.

(** [[ \t]] *)
Definition isBlank (c : codeunit) : bool := ((c =? 32) || (c =? 9))%N.

(** [s.replace(/[ \t]+/g, ' ')]; [inRun] tells that a run of blanks is
    being read. *)
Fixpoint collapseBlanks (s : jsstring) (inRun : bool) : jsstring :=
  match s with
  | [] => []
  | c :: s' =>
      if isBlank c then
        if inRun then collapseBlanks s' true
        else 32%N :: collapseBlanks s' true
      else c :: collapseBlanks s' false
  end.

(** [s.replace(/\n{3,}/g, '\n\n')]: of a run of line feeds the first two
    stay; [run] counts the line feeds just read. *)
Fixpoint capNewlines (s : jsstring) (run : nat) : jsstring :=
  match s with
  | [] => []
  | c :: s' =>
      if (c =? 10)%N then
        if (run <? 2)%nat then c :: capNewlines s' (S run)
        else capNewlines s' (S run)
      else c :: capNewlines s' O
  end.

(** *** sanitizeInput *)

(** [opts], the defaults overridden by the options of the caller. *)
Record SanitizeOptions := {
  maxLength : Z;
  removeHTML : bool;
  removeControlChars : bool;
  normalizeWhitespace : bool;
  preserveNewlines : bool
}.

Definition defaults (env : Environment) : SanitizeOptions :=
  {| maxLength := orElse (env_MAX_INPUT_LENGTH env) MAX_INPUT_LENGTH;
     removeHTML := true;
     removeControlChars := true;
     normalizeWhitespace := true;
     preserveNewlines := true |}.

Definition sanitizeInput (input : jsstring) (opts : SanitizeOptions)
    : jsstring :=
  if isEmpty input then []
  else
    let sanitized := input in
    let sanitized :=
      if removeHTML opts then
        decodeEntities (removeStyles (removeScripts (removeTags sanitized)))
      else sanitized in
    let sanitized :=
      if removeControlChars opts then
        List.filter (fun c => negb (isControlUnit c)) sanitized
      else sanitized in
    let sanitized :=
      if normalizeWhitespace opts then
        if preserveNewlines opts then
          capNewlines (collapseBlanks sanitized false) O
        else Dedupe.collapseWhiteSpace sanitized false
      else sanitized in
    let sanitized := trim sanitized in
    if negb (maxLength opts =? 0) && (len sanitized >? maxLength opts)
    then substring 0 (maxLength opts) sanitized
    else sanitized.

(** *** validateParameters *)

(** The fields of the request body that [validateParameters] reads, for a
    body whose fields, when present, have the types of the API: strings, an
    integer and booleans.  [None] is [undefined]. *)
Record RequestBody := {
  body_text : option jsstring;
  body_language : option jsstring;
  body_style : option jsstring;
  body_maxTweets : option Z;
  body_includeHashtags : option bool;
  body_includeImages : option bool
}.

(** The messages pushed on [errors] and [warnings]. *)
Inductive Issue :=
  | TextRequired       (* Text is required and must be a string *)
  | TextEmpty          (* Text cannot be empty *)
  | TextTooLong        (* Text exceeds maximum length of ... characters *)
  | InvalidLanguage    (* Language must be one of: auto, ar, en, both *)
  | InvalidStyle       (* Style must be one of: educational, ... *)
  | MaxTweetsNotPositive            (* maxTweets must be a positive integer *)
  | MaxTweetsTooLarge (maxAllowed : Z)  (* maxTweets cannot exceed ... *)
  | LargeThread.       (* Large thread counts may reduce engagement *)

Record Sanitized := {
  sanitized_text : jsstring;
  sanitized_language : jsstring;
  sanitized_style : jsstring;
  sanitized_maxTweets : Z;
  sanitized_includeHashtags : bool;
  sanitized_includeImages : bool
}.

(** What [validateParameters] returns: the error object, with its code, or
    the success object. *)
Inductive Validation :=
  | Rejected (code : Z) (errors warnings : list Issue)
  | Accepted (warnings : list Issue) (sanitized : Sanitized).

Definition validLanguages : list jsstring :=
  [js "auto"; js "ar"; js "en"; js "both"].

Definition validStyles : list jsstring :=
  [js "educational"; js "technical"; js "concise"; js "engaging";
   js "professional"].

(** [arr.includes(x)] on an array of strings. *)
Definition arrayIncludes (l : list jsstring) (x : jsstring) : bool :=
  existsb (streq x) l.

(** [value || fallback] for a string that may be missing. *)
Definition stringOr (value : option jsstring) (fallback : jsstring)
    : jsstring :=
  match value with
  | Some (c :: s) => c :: s
  | _ => fallback
  end.

Definition validateParameters (env : Environment) (params : RequestBody)
    : Validation :=
  let maxInput := orElse (env_MAX_INPUT_LENGTH env) MAX_INPUT_LENGTH in
  let maxAllowed :=
    orElse (env_MAX_TWEETS_PER_THREAD env) MAX_TWEETS_PER_THREAD in
  let errors :=
    match params.(body_text) with
    | None | Some [] => [TextRequired]
    | Some text =>
        if len (trim text) =? 0 then [TextEmpty]
        else if len text >? maxInput then [TextTooLong]
        else []
    end in
  let errors :=
    match params.(body_language) with
    | Some (c :: s) =>
        if negb (arrayIncludes validLanguages (c :: s))
        then errors ++ [InvalidLanguage] else errors
    | _ => errors
    end in
  let errors :=
    match params.(body_style) with
    | Some (c :: s) =>
        if negb (arrayIncludes validStyles (c :: s))
        then errors ++ [InvalidStyle] else errors
    | _ => errors
    end in
  let '(errors, warnings) :=
    match params.(body_maxTweets) with
    | Some maxTweets =>
        if maxTweets <? 1 then (errors ++ [MaxTweetsNotPositive], [])
        else if maxTweets >? maxAllowed
             then (errors ++ [MaxTweetsTooLarge maxAllowed], [])
        else if maxTweets >? 10 then (errors, [LargeThread])
        else (errors, [])
    | None => (errors, [])
    end in
  if len errors >? 0 then Rejected VALIDATION_ERROR errors warnings
  else
    Accepted warnings
      {| sanitized_text :=
           sanitizeInput (stringOr params.(body_text) []) (defaults env);
         sanitized_language := stringOr params.(body_language) DEFAULT_LANGUAGE;
         sanitized_style := stringOr params.(body_style) DEFAULT_STYLE;
         sanitized_maxTweets :=
           Z.min (orElse params.(body_maxTweets) DEFAULT_MAX_TWEETS)
             maxAllowed;
         sanitized_includeHashtags :=
           match params.(body_includeHashtags) with
           | Some false => false
           | _ => true
           end;
         sanitized_includeImages :=
           match params.(body_includeImages) with
           | Some true => true
           | _ => false
           end |}.

(** The name of a style as the [style] of the generator. *)
Definition styleOfName (name : jsstring) : LocalTemplates.Style :=
  if streq name (js "educational") then LocalTemplates.educational
  else if streq name (js "technical") then LocalTemplates.technical
  else if streq name (js "concise") then LocalTemplates.concise
  else if streq name (js "engaging") then LocalTemplates.engaging
  else if streq name (js "professional") then LocalTemplates.professional
  else LocalTemplates.otherStyle name.

(** The object [validation.sanitized], as the [params] that server.js
    hands to the generator. *)
Definition paramsOf (s : Sanitized) : LocalTemplates.Params :=
  {| LocalTemplates.language := sanitized_language s;
     LocalTemplates.style := styleOfName (sanitized_style s);
     LocalTemplates.maxTweets := sanitized_maxTweets s;
     LocalTemplates.includeHashtags := sanitized_includeHashtags s;
     LocalTemplates.includeImages := sanitized_includeImages s |}.

End InputSanitizer.

(* ================================================================== *)
(** ** A reference host

    An executable [Host] for evaluating the pipeline on concrete inputs.
    It agrees with the JavaScript runtime and with grapheme-splitter on
    strings made of printable ASCII, line breaks, Arabic letters and
    emoji without joiners: a grapheme cluster is a code point (a CR LF
    pair counts as one) followed by its variation selectors and combining
    marks, lower-casing acts on the letters A to Z, and punctuation or
    symbols are the ASCII ones, the Arabic ones and the emoji and arrow
    blocks. *)

Module ReferenceHost.

Definition isExtend (c : N) : bool :=
  ((c =? 0xfe0f) || (0x300 <=? c) && (c <=? 0x36f)
   || (0x64b <=? c) && (c <=? 0x65f) || (c =? 0x670))%N.

Fixpoint groupClusters (cps : list (N * jsstring)) (cur : option jsstring)
    : list jsstring :=
  match cps with
  | [] => match cur with Some c => [c] | None => [] end
  | cp :: rest =>
      match cur with
      | Some c =>
          if isExtend (fst cp) || (streq c [13%N] && (fst cp =? 10)%N)
          then groupClusters rest (Some (c ++ snd cp))
          else c :: groupClusters rest (Some (snd cp))
      | None => groupClusters rest (Some (snd cp))
      end
  end.

Definition clusters (s : jsstring) : list jsstring :=
  groupClusters (codePoints s) None.

Definition lowerAscii (s : jsstring) : jsstring :=
  List.map HashtagGenerator.asciiLower s.

Definition punctOrSymbol (c : N) : bool :=
  ((33 <=? c) && (c <=? 47) || (58 <=? c) && (c <=? 64)
   || (91 <=? c) && (c <=? 96) || (123 <=? c) && (c <=? 126)
   || (c =? 0x60c) || (c =? 0x61b) || (c =? 0x61f) || (c =? 0x6d4)
   || (0x2190 <=? c) && (c <=? 0x21ff) || (0x2600 <=? c) && (c <=? 0x27bf)
   || (0x1f300 <=? c) && (c <=? 0x1faff))%N.

Definition host : Host :=
  {| splitGraphemes := clusters;
     toLowerCase := lowerAscii;
     isPunctOrSymbol := punctOrSymbol |}.

End ReferenceHost.

(* ================================================================== *)
(** ** Vocabulary of the properties *)

Module Vocabulary.

(** *** Strings *)

(** A string that neither starts nor ends in white space. *)
Definition trimmed (s : jsstring) : Prop :=
  dropWhile isWhiteSpace s = s /\ dropWhile isWhiteSpace (rev s) = rev s.

(** Whether a string has a unit that is not white space. *)
Definition hasInk (s : jsstring) : bool :=
  existsb (fun c => negb (isWhiteSpace c)) s.

Definition inked (s : jsstring) : Prop := hasInk s = true.

(** Whether a string starts, or ends, with a unit that is not white
    space. *)
Definition startsInk (s : jsstring) : bool :=
  match s with
  | c :: _ => negb (isWhiteSpace c)
  | [] => false
  end.

Definition endsInk (s : jsstring) : bool := startsInk (rev s).

(** A non-empty string without white space at either end. *)
Definition goodText (s : jsstring) : Prop :=
  startsInk s = true /\ endsInk s = true.

(** A normalized tag with exactly one leading [#]. *)
Definition singleHash (tag : jsstring) : Prop :=
  exists body, tag = 35%N :: body /\ hd_error body <> Some 35%N.

(** What the idempotence of [dedupeHashtags] uses of
    [String.prototype.toLowerCase]: lower-casing a lower-cased string
    changes nothing, and lower-casing puts no white space at the ends of
    a string that had none. *)
Class LowerCaseLaws (host : Host) : Prop := {
  toLowerCase_idempotent :
    forall s, toLowerCase (toLowerCase s) = toLowerCase s;
  toLowerCase_trimmed :
    forall s, trimmed s -> trimmed (toLowerCase s)
}.

(** The positions of the elements of [l] that satisfy [p], counted from
    [i], in increasing order. *)
Fixpoint positionsFrom (A : Type) (p : A -> bool) (i : nat) (l : list A)
    : list Z :=
  match l with
  | [] => []
  | x :: l' =>
      if p x then Z.of_nat i :: positionsFrom p (S i) l'
      else positionsFrom p (S i) l'
  end.

Definition positions (A : Type) (p : A -> bool) (l : list A) : list Z :=
  positionsFrom p O l.

(** The units of a string that are not white space. *)
Definition ink (s : jsstring) : jsstring :=
  List.filter (fun c => negb (isWhiteSpace c)) s.

(** The [k] tags of [pool] read cyclically from position [start]. *)
Definition cyclic (pool : list jsstring) (start k : nat) : list jsstring :=
  List.map
    (fun j => nth (Nat.modulo (start + j) (List.length pool)) pool [])
    (seq O k).

(** Whether every white space unit of [s] is a space that follows a unit
    other than white space; [afterSpace] tells that the unit before [s] is
    white space. *)
Fixpoint wellSpaced (afterSpace : bool) (s : jsstring) : bool :=
  match s with
  | [] => true
  | c :: s' =>
      if isWhiteSpace c
      then negb afterSpace && (c =? 32)%N && wellSpaced true s'
      else wellSpaced false s'
  end.

(** A string in which white space only occurs as single spaces between
    other units. *)
Definition singleSpaced (s : jsstring) : Prop :=
  trimmed s
  /\ Forall (fun c => isWhiteSpace c = true -> c = 32%N) s
  /\ forall l1 a b l2,
       s = l1 ++ a :: b :: l2 -> isWhiteSpace a = true ->
       isWhiteSpace b = false.

(** No [<] of [s] has a [>] anywhere after it: nothing in [s] has the form
    of a tag. *)
Fixpoint tagFree (s : jsstring) : Prop :=
  match s with
  | [] => True
  | c :: s' => (c = 60%N -> ~ In 62%N s') /\ tagFree s'
  end.

(** [s] does not hold [k] adjacent units equal to [c]. *)
Definition noRun (c : codeunit) (k : nat) (s : jsstring) : Prop :=
  forall l r, s <> l ++ repeat c k ++ r.

(** Whether no run of [c] in [s] is longer than [k], when [n] units equal
    to [c] come just before [s]. *)
Fixpoint runsAtMost (c : codeunit) (k : nat) (s : jsstring) (n : nat)
    : bool :=
  match s with
  | [] => true
  | x :: s' =>
      if (x =? c)%N then (S n <=? k)%nat && runsAtMost c k s' (S n)
      else runsAtMost c k s' O
  end.

(** [o] is [i] with some units dropped and some replaced by a space. *)
Inductive Thinned : jsstring -> jsstring -> Prop :=
  | thinned_nil : Thinned [] []
  | thinned_keep (c : codeunit) (o i : jsstring) :
      Thinned o i -> Thinned (c :: o) (c :: i)
  | thinned_drop (c : codeunit) (o i : jsstring) :
      Thinned o i -> Thinned o (c :: i)
  | thinned_space (c : codeunit) (o i : jsstring) :
      Thinned o i -> Thinned (32%N :: o) (c :: i).

(** *** Tweets and threads *)

(** Every field of [t'] other than [hashtags] is the one of [t]. *)
Definition sameExceptHashtags (t t' : Tweet) : Prop :=
  index t' = index t /\ text t' = text t /\ char_count t' = char_count t
  /\ warnings t' = warnings t /\ warnings_ref t' = warnings_ref t
  /\ emoji_suggestions t' = emoji_suggestions t /\ cta t' = cta t
  /\ image_suggestion t' = image_suggestion t.

(** Every field of [t'] other than [warnings] is the one of [t]. *)
Definition sameExceptWarnings (t t' : Tweet) : Prop :=
  index t' = index t /\ text t' = text t /\ char_count t' = char_count t
  /\ warnings_ref t' = warnings_ref t /\ hashtags t' = hashtags t
  /\ emoji_suggestions t' = emoji_suggestions t /\ cta t' = cta t
  /\ image_suggestion t' = image_suggestion t.

(** A tweet with its warnings taken away. *)
Definition withoutWarnings (t : Tweet) : Tweet := with_warnings t [].

(** What the final pass of [generateFallbackThread] makes of the text and
    the count of a tweet: nothing when the tweet is within the limit, the
    truncated text and its count with hashtags and CTA otherwise. *)
Definition fitted {host : Host} (t : Tweet) : Tweet :=
  if CharCounter.isValid
       (CharCounter.validateTweetLength (text t) (hashtags t) (cta t))
  then t
  else
    let text' :=
      CharCounter.truncateSmart (text t) 280 (hashtags t) (cta t) in
    with_char_count (with_text t text')
      (CharCounter.getCharCount text' (hashtags t) (cta t)).

(** The indices [1, 2, ..., k]. *)
Definition oneTo (k : nat) : list Z :=
  List.map (fun i => Z.of_nat i + 1) (seq O k).

(** No hashtag occurs in two different messages of the thread. *)
Definition noSharedHashtag (tweets : list Tweet) : Prop :=
  forall i j ti tj h,
    i <> j ->
    nth_error tweets i = Some ti -> nth_error tweets j = Some tj ->
    In h (hashtags ti) -> ~ In h (hashtags tj).

(** The list after one split of the tweet [t] found at position [i]. *)
Definition afterSplit (result : list Tweet) (i : nat) (t : Tweet)
    (splitPoint : Z) : list Tweet :=
  firstn i result
  ++ with_text t (trim (substring 0 splitPoint (text t)))
  :: with_emoji_suggestions
       (with_hashtags
          (with_text t (trim (substringFrom splitPoint (text t)))) [])
       []
  :: skipn (S i) result.

(** One of the five styles that the tables of the generator know. *)
Definition knownStyle (style : LocalTemplates.Style) : bool :=
  match style with
  | LocalTemplates.otherStyle _ => false
  | _ => true
  end.

(** The thread of a result; a failed generation has none. *)
Definition threadOf
    (c : LocalTemplates.Completion LocalTemplates.GenerationResult)
    : list Tweet :=
  match c with
  | LocalTemplates.Normal (LocalTemplates.Generated r) =>
      LocalTemplates.thread r
  | _ => []
  end.

(** The tweets as [generateFallbackThread] hands them to
    [dedupeHashtagsAndEmojis]; none when the rebalancing throws. *)
Definition beforeDedupe {host : Host} (text : jsstring)
    (params : LocalTemplates.Params) (g : rng) : list Tweet :=
  match LocalTemplates.segmentAndRebalance text params g with
  | LocalTemplates.Normal tweets =>
      LocalTemplates.enrichWithHashtags params tweets
  | LocalTemplates.Throw _ => []
  end.

(** *** The inputs of the examples *)

(** A tweet object with the given text and hashtags and nothing else. *)
Definition plainTweet (i : Z) (text : jsstring) (hashtags : list jsstring)
    : Tweet :=
  {| index := i; text := text; char_count := 0; warnings := [];
     warnings_ref := Z.to_nat i; hashtags := hashtags;
     emoji_suggestions := []; cta := None; image_suggestion := None |}.

(** The options of a request for [n] tweets, the others at their
    defaults. *)
Definition request (n : Z) : LocalTemplates.Params :=
  {| LocalTemplates.language := js "auto";
     LocalTemplates.style := LocalTemplates.professional;
     LocalTemplates.maxTweets := n;
     LocalTemplates.includeHashtags := true;
     LocalTemplates.includeImages := false |}.

(** Generation on the reference host, with draws of [Math.random] that
    select the first entry of each table. *)
Definition generate (text : jsstring) (params : LocalTemplates.Params)
    : LocalTemplates.Completion LocalTemplates.GenerationResult :=
  @LocalTemplates.generateFallbackThread ReferenceHost.host text params [].

(** Every way the two draws of a request (the prefix of the first tweet,
    the CTA of the last) can fall on tables of three entries. *)
Definition allDraws : list rng :=
  List.flat_map (fun a => List.map (fun b => [a; b]) [0; 1; 2]%nat)
    [0; 1; 2]%nat.

(** The Arabic word for hello, five letters. *)
Definition marhaba : jsstring := [0x645; 0x631; 0x62d; 0x628; 0x627]%N.

(** The emoji U+1F680. *)
Definition rocket : jsstring := [0xd83d; 0xde80]%N.

Definition shipping : jsstring :=
  js "Plan. Build. Ship. Then keep listening to the people who use the product every day because their feedback tells you what to fix next.".

End Vocabulary.
Import Vocabulary.

(* ================================================================== *)
(** * Properties *)

(** ** Facts about strings and arrays *)

Module JsStringFacts.

Lemma len_nonneg (A : Type) (l : list A) : 0 <= len l.
Proof. unfold len. lia. Qed.

Lemma len_app (A : Type) (l1 l2 : list A) : len (l1 ++ l2) = len l1 + len l2.
Proof. unfold len. rewrite length_app. lia. Qed.

Lemma isEmpty_true (s : jsstring) : isEmpty s = true <-> s = [].
Proof. destruct s; simpl; split; congruence. Qed.

Lemma isEmpty_false (s : jsstring) : isEmpty s = false <-> s <> [].
Proof. destruct s; simpl; split; congruence. Qed.

Lemma streq_true (a b : jsstring) : streq a b = true <-> a = b.
Proof. unfold streq. destruct (jsstring_eq_dec a b); split; congruence. Qed.

Lemma streq_refl (a : jsstring) : streq a a = true.
Proof. apply streq_true. reflexivity. Qed.

Lemma existsb_streq (x : jsstring) (l : list jsstring) :
  existsb (streq x) l = true <-> In x l.
Proof.
  rewrite existsb_exists. split.
  - intros [y [Hin Heq]]. apply streq_true in Heq. now subst.
  - intros Hin. exists x. split; [assumption | apply streq_refl].
Qed.

(** *** [dropWhile] and [trim] *)

Lemma dropWhile_idem (A : Type) (p : A -> bool) (l : list A) :
  dropWhile p (dropWhile p l) = dropWhile p l.
Proof.
  induction l as [|x l IH]; simpl; [reflexivity|].
  destruct (p x) eqn:E; [assumption|]. simpl. now rewrite E.
Qed.

Lemma dropWhile_suffix (A : Type) (p : A -> bool) (l : list A) :
  exists pre, l = pre ++ dropWhile p l /\ forallb p pre = true.
Proof.
  induction l as [|x l [pre [H1 H2]]]; simpl.
  - exists []. split; reflexivity.
  - destruct (p x) eqn:E.
    + exists (x :: pre). simpl. rewrite E, H2. split; [now f_equal | reflexivity].
    + exists []. split; reflexivity.
Qed.

Lemma dropWhile_app_keep (A : Type) (p : A -> bool) (l1 l2 : list A) :
  dropWhile p l1 <> [] -> dropWhile p (l1 ++ l2) = dropWhile p l1 ++ l2.
Proof.
  induction l1 as [|x l1 IH]; simpl; [congruence|].
  destruct (p x); [assumption | reflexivity].
Qed.

Lemma dropWhile_all (A : Type) (p : A -> bool) (l1 l2 : list A) :
  forallb p l1 = true -> dropWhile p (l1 ++ l2) = dropWhile p l2.
Proof.
  induction l1 as [|x l1 IH]; simpl; [reflexivity|].
  intros H. apply andb_prop in H. destruct H as [Hx Hl]. rewrite Hx. auto.
Qed.

Lemma dropWhile_nil_iff (s : jsstring) :
  dropWhile isWhiteSpace s = [] <-> hasInk s = false.
Proof.
  unfold hasInk. induction s as [|c s IH]; simpl; [tauto|].
  destruct (isWhiteSpace c); simpl; [assumption | split; congruence].
Qed.

Lemma hasInk_app (a b : jsstring) : hasInk (a ++ b) = hasInk a || hasInk b.
Proof. unfold hasInk. apply existsb_app. Qed.

Lemma hasInk_rev (s : jsstring) : hasInk (rev s) = hasInk s.
Proof.
  unfold hasInk. induction s as [|c s IH]; simpl; [reflexivity|].
  rewrite existsb_app, IH. simpl. rewrite orb_false_r. apply orb_comm.
Qed.

Lemma hasInk_dropWhile (s : jsstring) :
  hasInk (dropWhile isWhiteSpace s) = hasInk s.
Proof.
  unfold hasInk. induction s as [|c s IH]; simpl; [reflexivity|].
  destruct (isWhiteSpace c) eqn:E; simpl; [assumption | now rewrite E].
Qed.

Lemma hasInk_trim (s : jsstring) : hasInk (trim s) = hasInk s.
Proof.
  unfold trim, trimEnd, trimStart.
  now rewrite hasInk_rev, hasInk_dropWhile, hasInk_rev, hasInk_dropWhile.
Qed.

Lemma hasInk_nil_false (s : jsstring) : hasInk s = true -> s <> [].
Proof. destruct s; simpl; congruence. Qed.

Lemma trim_nil_iff (s : jsstring) : trim s = [] <-> hasInk s = false.
Proof.
  rewrite <- (hasInk_trim s). split.
  - intros ->. reflexivity.
  - unfold trim, trimEnd, trimStart. intros H.
    rewrite hasInk_rev in H. apply dropWhile_nil_iff in H.
    now rewrite dropWhile_idem, H in *.
Qed.

Lemma trim_trimmed (s : jsstring) : trimmed (trim s).
Proof.
  unfold trimmed, trim, trimEnd, trimStart. split.
  - set (t := dropWhile isWhiteSpace s).
    destruct (dropWhile_suffix isWhiteSpace (rev t)) as [pre [H1 H2]].
    assert (Ht : t = rev (dropWhile isWhiteSpace (rev t)) ++ rev pre).
    { rewrite <- rev_app_distr, <- H1. now rewrite rev_involutive. }
    destruct (rev (dropWhile isWhiteSpace (rev t))) as [|c r] eqn:E;
      [reflexivity|].
    assert (Hc : isWhiteSpace c = false).
    { subst t. destruct (dropWhile isWhiteSpace s) as [|d u] eqn:Ed;
        [discriminate|].
      injection Ht as -> _.
      clear -Ed. induction s as [|x s IH]; simpl in Ed; [discriminate|].
      destruct (isWhiteSpace x) eqn:Ex; [auto|]. now injection Ed as -> _. }
    simpl. now rewrite Hc.
  - rewrite rev_involutive. apply dropWhile_idem.
Qed.

Lemma trim_fixed (s : jsstring) : trimmed s -> trim s = s.
Proof.
  intros [H1 H2]. unfold trim, trimEnd, trimStart.
  now rewrite H1, H2, rev_involutive.
Qed.


Lemma trim_cons_ink (c : codeunit) (s : jsstring) :
  isWhiteSpace c = false -> trim (c :: s) <> [].
Proof.
  intros H E. apply trim_nil_iff in E. unfold hasInk in E. simpl in E.
  now rewrite H in E.
Qed.

(** *** [[...new Set(l)]] *)

Lemma setInsertAll_spec (seen l : list jsstring) (x : jsstring) :
  In x (setInsertAll seen l) <-> In x l /\ ~ In x seen.
Proof.
  revert seen. induction l as [|y l IH]; intros seen; simpl.
  - tauto.
  - destruct (existsb (streq y) seen) eqn:E.
    + apply existsb_streq in E. rewrite IH. split.
      * tauto.
      * intros [[->|H] Hn]; tauto.
    + assert (Hy : ~ In y seen).
      { intros H. apply existsb_streq in H. congruence. }
      simpl. rewrite IH. simpl. split.
      * intros [->|[H1 H2]]; tauto.
      * intros [[->|H] Hn]; [tauto|].
        destruct (jsstring_eq_dec y x); [tauto|]. right. tauto.
Qed.

Lemma setInsertAll_NoDup (seen l : list jsstring) :
  NoDup (setInsertAll seen l).
Proof.
  revert seen. induction l as [|y l IH]; intros seen; simpl.
  - constructor.
  - destruct (existsb (streq y) seen); [apply IH|].
    constructor; [|apply IH].
    rewrite setInsertAll_spec. simpl. tauto.
Qed.

Lemma setInsertAll_fixed (seen l : list jsstring) :
  NoDup l -> (forall x, In x l -> ~ In x seen) -> setInsertAll seen l = l.
Proof.
  revert seen. induction l as [|y l IH]; intros seen Hnd Hs; simpl.
  - reflexivity.
  - inversion Hnd as [|? ? Hy Hl]; subst.
    destruct (existsb (streq y) seen) eqn:E.
    + apply existsb_streq in E. exfalso. apply (Hs y); simpl; auto.
    + f_equal. apply IH; [assumption|].
      intros x Hx [->|H]; [tauto|]. apply (Hs x); simpl; auto.
Qed.

Lemma arrayFromSet_In (l : list jsstring) (x : jsstring) :
  In x (arrayFromSet l) <-> In x l.
Proof. unfold arrayFromSet. rewrite setInsertAll_spec. simpl. tauto. Qed.

Lemma arrayFromSet_NoDup (l : list jsstring) : NoDup (arrayFromSet l).
Proof. apply setInsertAll_NoDup. Qed.


Lemma setInsertAll_length (seen l : list jsstring) :
  (List.length (setInsertAll seen l) <= List.length l)%nat.
Proof.
  revert seen. induction l as [|y l IH]; intros seen; simpl; [lia|].
  destruct (existsb (streq y) seen); simpl.
  - specialize (IH seen). lia.
  - specialize (IH (y :: seen)). lia.
Qed.

End JsStringFacts.

(** ** utils/charCounter.js *)

Module CharCounterFacts.
Import CharCounter.

(** C9.  When the space that [truncateSmart] reserves for the hashtags and
    the CTA (the length of the joined hashtags plus one, the length of the
    CTA plus one, each only when present) is at least the limit,
    [truncateSmart] returns the empty string, whatever the text. *)
Theorem truncateSmart_no_room (host : Host) (text : jsstring)
    (maxLength : Z) (hashtags : list jsstring) (cta : option jsstring) :
  maxLength <= hashtagSpace hashtags + ctaSpace cta ->
  truncateSmart text maxLength hashtags cta = [].
Proof.
  intros H. unfold truncateSmart.
  destruct (isEmpty text); [reflexivity|].
  destruct (Z.leb_spec (maxLength - hashtagSpace hashtags - ctaSpace cta) 0);
    [reflexivity | lia].
Qed.

Lemma truncateSmart_no_room_witness :
  9 <= hashtagSpace [js "#hashtag"] + ctaSpace None
  /\ @truncateSmart ReferenceHost.host (js "Hello world") 9
       [js "#hashtag"] None = [].
Proof.
  split.
  - vm_compute. discriminate.
  - apply truncateSmart_no_room. vm_compute. discriminate.
Defined.

(** The reserved space is what the claim describes. *)
Lemma hashtagSpace_cons (h : jsstring) (hashtags : list jsstring) :
  hashtagSpace (h :: hashtags) = len (join (js " ") (h :: hashtags)) + 1.
Proof. reflexivity. Qed.

Lemma ctaSpace_some (c : codeunit) (cta : jsstring) :
  ctaSpace (Some (c :: cta)) = len (c :: cta) + 1.
Proof. reflexivity. Qed.

(** C4 (defect of the code).  With two units of room or less left for the
    text, the hard slice [graphemes.slice(0, availableSpace - 3)] gets a
    negative end and keeps all but the last graphemes: for the text
    "Hello world", limit 10, the one hashtag "#hashtag" and the empty CTA
    the result is "Hello wor...", which counts 21 with its hashtag. *)
Theorem truncateSmart_exceeds_limit :
  let hashtags := [js "#hashtag"] in
  let result :=
    @truncateSmart ReferenceHost.host (js "Hello world") 10 hashtags (Some []) in
  result = js "Hello wor..."
  /\ @getCharCount ReferenceHost.host result hashtags (Some []) = 21
  /\ 10 < @getCharCount ReferenceHost.host result hashtags (Some []).
Proof. vm_compute. repeat split. Qed.

(** The same at the production limit of 280, with a hashtag of 277
    units. *)
Example truncateSmart_exceeds_280 :
  let hashtags := [35%N :: repeat 97%N 276] in
  let result :=
    @truncateSmart ReferenceHost.host (js "Hello world") 280 hashtags (Some []) in
  result = js "Hello worl..."
  /\ @getCharCount ReferenceHost.host result hashtags (Some []) = 291.
Proof. vm_compute. repeat split. Qed.

End CharCounterFacts.

(** ** utils/dedupe.js *)

Module DedupeFacts.
Import Dedupe JsStringFacts.

(** *** Deduplication of hashtags and emojis *)



Lemma filterBoolean_In (l : list (option jsstring)) (y : jsstring) :
  In y (filterBoolean l) -> In (Some y) l.
Proof.
  induction l as [|[x|] l IH]; simpl; [tauto | |tauto].
  destruct (isEmpty x); simpl; [tauto|].
  intros [->|H]; auto.
Qed.



Lemma stripLeadingHashes_single (body : jsstring) :
  hd_error body <> Some 35%N ->
  stripLeadingHashes (35%N :: body) = body.
Proof.
  intros H. unfold stripLeadingHashes. cbn [dropWhile]. rewrite N.eqb_refl.
  destruct body as [|c body]; [reflexivity|]. cbn [dropWhile].
  destruct (N.eqb_spec 35 c) as [<-|]; [now elim H | reflexivity].
Qed.

(** A normalized tag with a single [#] is normalized to itself. *)
Lemma normalizeTag_fixed (host : Host) (laws : LowerCaseLaws host)
    (tag y : jsstring) :
  normalizeTag tag = Some y -> singleHash y ->
  normalizeTag y = Some y /\ isEmpty (trim y) = false.
Proof.
  unfold normalizeTag. intros Hn [body [Hy Hb]].
  destruct (isEmpty (toLowerCase (trim (stripLeadingHashes tag)))) eqn:E;
    [discriminate|].
  injection Hn as Hn. rewrite Hy in Hn. injection Hn as Hn.
  subst y. split.
  - rewrite stripLeadingHashes_single by assumption.
    assert (Ht : trim body = body).
    { rewrite <- Hn. apply trim_fixed, toLowerCase_trimmed, trim_trimmed. }
    rewrite Ht.
    assert (Hl : toLowerCase body = body).
    { rewrite <- Hn. apply toLowerCase_idempotent. }
    rewrite Hl, <- Hn, E. reflexivity.
  - apply isEmpty_false, trim_cons_ink. reflexivity.
Qed.

Lemma dedupeHashtags_normalized (host : Host) (X : list jsstring)
    (y : jsstring) :
  In y (dedupeHashtags X) -> exists tag, normalizeTag tag = Some y.
Proof.
  unfold dedupeHashtags. intros Hy. rewrite arrayFromSet_In in Hy.
  apply filterBoolean_In, in_map_iff in Hy. destruct Hy as [tag [Ht _]].
  now exists tag.
Qed.

Lemma dedupeHashtags_NoDup (host : Host) (X : list jsstring) :
  NoDup (dedupeHashtags X).
Proof. apply arrayFromSet_NoDup. Qed.




(** *** The reference host obeys the laws of [toLowerCase] *)








End DedupeFacts.

(** *** Balancing hashtags across a thread *)

Module BalanceFacts.
Import Dedupe JsStringFacts DedupeFacts.

Lemma mapi_from_length (A B : Type) (f : A -> nat -> B) (s : nat)
    (l : list A) :
  List.length (mapi_from f s l) = List.length l.
Proof.
  revert s. induction l as [|x l IH]; intros s; simpl; [reflexivity|].
  now rewrite IH.
Qed.

Lemma mapi_from_nth_error (A B : Type) (f : A -> nat -> B) (s : nat)
    (l : list A) (i : nat) :
  nth_error (mapi_from f s l) i
  = option_map (fun x => f x (s + i)%nat) (nth_error l i).
Proof.
  revert s i. induction l as [|x l IH]; intros s [|i]; simpl;
    try reflexivity.
  - now rewrite Nat.add_0_r.
  - rewrite IH. now rewrite Nat.add_succ_r.
Qed.

(** The tags that the [for] loop can push are those at the positions it
    visits. *)
Lemma assignLoop_In (pool : list jsstring) (m start steps i : nat)
    (acc : list jsstring) (h : jsstring) :
  In h (assignLoop pool m start steps i acc) ->
  In h acc
  \/ exists k, (i <= k < i + steps)%nat
               /\ h = nth (Nat.modulo (start + k) (List.length pool)) pool [].
Proof.
  revert i acc. induction steps as [|steps IH]; intros i acc; simpl.
  - auto.
  - destruct (List.length acc <? m)%nat; [|auto].
    intros H. apply IH in H. destruct H as [H|[k [Hk ->]]].
    + destruct (negb _ && negb _) in H; [|auto].
      apply in_app_or in H. destruct H as [H|[<-|[]]]; [auto|].
      right. exists i. split; [lia | reflexivity].
    + right. exists k. split; [lia | reflexivity].
Qed.

(** What [balanceHashtagsAcrossThread] returns at each position. *)
Lemma balance_nth_error (host : Host) (tweets : list Tweet) (m i : nat)
    (t : Tweet) (pool : list jsstring) :
  pool = dedupeHashtags (List.concat (List.map hashtags tweets)) ->
  nth_error tweets i = Some t ->
  nth_error (balanceHashtagsAcrossThread tweets m) i
  = Some (with_hashtags t
            (match pool with
             | [] => []
             | _ => assignLoop pool m
                      (Nat.modulo (i * m) (List.length pool)) m O []
             end)).
Proof.
  intros Epool Ht. unfold balanceHashtagsAcrossThread.
  destruct tweets as [|t0 tweets]; [destruct i; discriminate|].
  rewrite <- Epool. destruct pool as [|h pool'].
  - rewrite nth_error_map, Ht. reflexivity.
  - unfold mapi. rewrite mapi_from_nth_error, Ht. reflexivity.
Qed.

Lemma balance_length (host : Host) (tweets : list Tweet) (m : nat) :
  List.length (balanceHashtagsAcrossThread tweets m) = List.length tweets.
Proof.
  unfold balanceHashtagsAcrossThread.
  destruct tweets as [|t0 tweets]; [reflexivity|].
  destruct (dedupeHashtags _).
  - apply length_map.
  - apply mapi_from_length.
Qed.

(** C10.  [balanceHashtagsAcrossThread] returns as many tweets as it was
    given, in the same order, and changes no field of a tweet but
    [hashtags]. *)
Theorem balanceHashtagsAcrossThread_frame (host : Host)
    (tweets : list Tweet) (maxPerTweet : nat) :
  List.length (balanceHashtagsAcrossThread tweets maxPerTweet)
  = List.length tweets
  /\ forall i t,
       nth_error tweets i = Some t ->
       exists t',
         nth_error (balanceHashtagsAcrossThread tweets maxPerTweet) i
         = Some t'
         /\ sameExceptHashtags t t'.
Proof.
  split; [apply balance_length|].
  intros i t Ht. eexists. split.
  - apply (@balance_nth_error host tweets maxPerTweet i t _ eq_refl Ht).
  - repeat split.
Qed.

(** Without wrap-around the tweets draw from disjoint stretches of the
    pool. *)
Lemma balance_disjoint (host : Host) (tweets : list Tweet)
    (maxPerTweet : nat) :
  (maxPerTweet * List.length tweets
   <= List.length (dedupeHashtags (List.concat (List.map hashtags tweets))))%nat ->
  noSharedHashtag (balanceHashtagsAcrossThread tweets maxPerTweet).
Proof.
  remember (dedupeHashtags (List.concat (List.map hashtags tweets)))
    as pool eqn:Epool.
  remember (List.length pool) as p eqn:Ep.
  remember maxPerTweet as m eqn:Em.
  intros Hroom i j ti tj h Hij Hi Hj Hhi Hhj.
  assert (Hnd : NoDup pool) by (subst pool; apply dedupeHashtags_NoDup).
  assert (Hlen := balance_length host tweets m).
  assert (Hil : (i < List.length tweets)%nat).
  { rewrite <- Hlen. apply nth_error_Some. congruence. }
  assert (Hjl : (j < List.length tweets)%nat).
  { rewrite <- Hlen. apply nth_error_Some. congruence. }
  destruct (nth_error tweets i) as [ui|] eqn:Eui;
    [|apply nth_error_None in Eui; lia].
  destruct (nth_error tweets j) as [uj|] eqn:Euj;
    [|apply nth_error_None in Euj; lia].
  rewrite (@balance_nth_error host tweets m i ui pool Epool Eui) in Hi.
  rewrite (@balance_nth_error host tweets m j uj pool Epool Euj) in Hj.
  injection Hi as <-. injection Hj as <-.
  cbn [hashtags with_hashtags] in Hhi, Hhj.
  assert (Hi1 : (i * m + m <= p)%nat) by nia.
  assert (Hj1 : (j * m + m <= p)%nat) by nia.
  destruct pool as [|h0 pool'] eqn:Epool'; [contradiction|].
  rewrite <- Epool' in *. rewrite <- Ep in *.
  apply assignLoop_In in Hhi. apply assignLoop_In in Hhj.
  destruct Hhi as [[]|[k [Hk Hhk]]]. destruct Hhj as [[]|[k' [Hk' Hhk']]].
  rewrite <- Ep in Hhk, Hhk'.
  rewrite (Nat.mod_small (i * m) p) in Hhk by lia.
  rewrite (Nat.mod_small (j * m) p) in Hhk' by lia.
  rewrite (Nat.mod_small (i * m + k) p) in Hhk by lia.
  rewrite (Nat.mod_small (j * m + k') p) in Hhk' by lia.
  assert (Heq : (i * m + k = j * m + k')%nat).
  { apply (proj1 (NoDup_nth pool []) Hnd); try lia. congruence. }
  apply Hij. nia.
Qed.


(** What the round-robin hands out comes from the pool. *)
Lemma balance_from_pool (host : Host) (tweets : list Tweet) (m i : nat)
    (t : Tweet) (h : jsstring) :
  nth_error (balanceHashtagsAcrossThread tweets m) i = Some t ->
  In h (hashtags t) ->
  In h (dedupeHashtags (List.concat (List.map hashtags tweets))).
Proof.
  intros Ht Hh.
  assert (Hi : (i < List.length tweets)%nat).
  { rewrite <- (balance_length host tweets m). apply nth_error_Some.
    congruence. }
  destruct (nth_error tweets i) as [u|] eqn:Eu;
    [|apply nth_error_None in Eu; lia].
  rewrite (@balance_nth_error host tweets m i u _ eq_refl Eu) in Ht.
  injection Ht as <-. cbn [hashtags with_hashtags] in Hh.
  destruct (dedupeHashtags _) as [|h0 pool'] eqn:E; [contradiction|].
  rewrite <- E in *.
  apply assignLoop_In in Hh. destruct Hh as [[]|[k [_ ->]]].
  apply nth_In, Nat.mod_upper_bound. rewrite E. discriminate.
Qed.

(** With tags that start with a single [#], being different strings and
    having different normal forms is the same: under the condition of the
    theorem no two messages hold tags that normalize alike. *)
Corollary balance_no_shared_normal_form (host : Host)
    (laws : LowerCaseLaws host) (tweets : list Tweet) (maxPerTweet : nat) :
  let pool := dedupeHashtags (List.concat (List.map hashtags tweets)) in
  Forall singleHash pool ->
  (maxPerTweet * List.length tweets <= List.length pool)%nat ->
  forall i j ti tj h h',
    i <> j ->
    nth_error (balanceHashtagsAcrossThread tweets maxPerTweet) i = Some ti ->
    nth_error (balanceHashtagsAcrossThread tweets maxPerTweet) j = Some tj ->
    In h (hashtags ti) -> In h' (hashtags tj) ->
    normalizeTag h <> normalizeTag h'.
Proof.
  intros pool Hs Hroom i j ti tj h h' Hij Hi Hj Hh Hh' E.
  assert (Hp := @balance_from_pool host tweets maxPerTweet i ti h Hi Hh).
  assert (Hp' := @balance_from_pool host tweets maxPerTweet j tj h' Hj Hh').
  fold pool in Hp, Hp'. rewrite Forall_forall in Hs.
  destruct (@dedupeHashtags_normalized host _ h Hp) as [tag Ht].
  destruct (@dedupeHashtags_normalized host _ h' Hp') as [tag' Ht'].
  destruct (@normalizeTag_fixed host laws tag h Ht (Hs h Hp)) as [N _].
  destruct (@normalizeTag_fixed host laws tag' h' Ht' (Hs h' Hp')) as [N' _].
  rewrite N, N' in E. injection E as <-.
  exact (@balance_disjoint host tweets maxPerTweet Hroom
           i j ti tj h Hij Hi Hj Hh Hh').
Qed.



End BalanceFacts.

(** ** services/localTemplates.js: the pipeline on concrete inputs

    The draws of [Math.random] are taken to select the first entry of each
    table. *)

Module PipelineExamples.
Import LocalTemplates CharCounter.


(** Whatever prefix and CTA are drawn, the count of that tweet differs
    from the count of its text with hashtags and CTA. *)
Example char_count_mismatch_all_draws :
  forallb
    (fun g =>
       match
         threadOf
           (@generateFallbackThread ReferenceHost.host (js "Hello world")
              (request 1) g)
       with
       | [t] =>
           negb
             (char_count t
              =? @getCharCount ReferenceHost.host (text t) (hashtags t)
                   (cta t))
       | _ => false
       end)
    allDraws
  = true.
Proof. vm_compute. reflexivity. Qed.

(** C5 (defect of the code).  When [ensureExactTweetCount] splits the last
    tweet, both halves are spread from it and both keep its CTA: four
    sentences asked as three tweets come back with a CTA on the second
    and on the third message. *)
Theorem cta_on_two_messages :
  List.map (fun t => truthy (cta t))
    (threadOf (generate shipping (request 3)))
  = [false; true; true].
Proof. vm_compute. reflexivity. Qed.

(** The same for every prefix and CTA that can be drawn. *)
Example cta_on_two_messages_all_draws :
  Forall
    (fun g =>
       List.map (fun t => truthy (cta t))
         (threadOf
            (@generateFallbackThread ReferenceHost.host shipping
               (request 3) g))
       = [false; true; true])
    allDraws.
Proof.
  unfold allDraws. cbn [List.flat_map List.map List.app].
  repeat (constructor; [vm_compute; reflexivity|]). constructor.
Qed.

(** The count is stale after a split as well: both halves keep the count
    of the tweet they were cut from. *)
Example char_count_after_split :
  List.map
    (fun t =>
       (len (text t), char_count t,
        @getCharCount ReferenceHost.host (text t) (hashtags t) (cta t)))
    (threadOf (generate shipping (request 3)))
  = [(30, 29, 53); (59, 126, 110); (66, 126, 116)].
Proof. vm_compute. reflexivity. Qed.

(** C6, as stated, fails: the final deduplication pass appends the emoji
    found in the text to the three suggestions without capping the list
    again. *)
Lemma four_emoji_suggestions :
  List.map (fun t => List.length (emoji_suggestions t))
    (threadOf (generate (js "Launch day " ++ rocket) (request 1)))
  = [4%nat]
  /\ ~ Forall (fun t => (List.length (emoji_suggestions t) <= 3)%nat)
         (threadOf (generate (js "Launch day " ++ rocket) (request 1))).
Proof.
  split; [vm_compute; reflexivity|].
  intros H. vm_compute in H. inversion H as [|? ? Hle _]. lia.
Qed.


(** An empty input makes the rebalancing read a property of [undefined];
    the [catch] block turns the TypeError into the error object. *)
Example empty_input_fails :
  generate [] (request 5)
  = Normal
      (Failed
         {| error := js "Failed to generate thread using local fallback";
            code := 500 |}).
Proof. vm_compute. reflexivity. Qed.

End PipelineExamples.

(** ** services/localTemplates.js: rebalancing the number of tweets *)

Module RebalanceFacts.
Import LocalTemplates JsStringFacts.

Lemma Forall_firstn (A : Type) (P : A -> Prop) (n : nat) (l : list A) :
  Forall P l -> Forall P (firstn n l).
Proof.
  intros H. rewrite <- (firstn_skipn n l) in H.
  apply Forall_app in H. tauto.
Qed.

Lemma Forall_skipn (A : Type) (P : A -> Prop) (n : nat) (l : list A) :
  Forall P l -> Forall P (skipn n l).
Proof.
  intros H. rewrite <- (firstn_skipn n l) in H.
  apply Forall_app in H. tauto.
Qed.

Lemma Forall_slice (A : Type) (P : A -> Prop) (a b : Z) (l : list A) :
  Forall P l -> Forall P (slice a b l).
Proof. intros H. unfold slice. apply Forall_firstn, Forall_skipn, H. Qed.

Lemma Forall_sliceFrom (A : Type) (P : A -> Prop) (a : Z) (l : list A) :
  Forall P l -> Forall P (sliceFrom a l).
Proof. apply Forall_slice. Qed.

Lemma slice_0 (A : Type) (k : Z) (l : list A) :
  0 <= k -> slice 0 k l = firstn (Z.to_nat k) l.
Proof.
  intros Hk0. unfold slice, relIndex. assert (Hn := len_nonneg l).
  change (0 <? 0) with false. cbv iota.
  rewrite (Z.min_l 0 (len l)) by lia. change (Z.to_nat 0) with O.
  rewrite Nat.sub_0_r. cbn [skipn].
  destruct (Z.ltb_spec k 0) as [Hk|Hk].
  - lia.
  - destruct (Z.le_gt_cases k (len l)) as [H|H].
    + now rewrite Z.min_l by assumption.
    + rewrite Z.min_r by lia. unfold len in *.
      rewrite Nat2Z.id, firstn_all. symmetry. apply firstn_all2. lia.
Qed.

Lemma slice_0_length (A : Type) (k : Z) (l : list A) :
  0 <= k -> len (slice 0 k l) = Z.min k (len l).
Proof.
  intros Hk. rewrite slice_0 by assumption. unfold len.
  rewrite length_firstn. lia.
Qed.

Lemma sliceFrom_skipn (A : Type) (a : Z) (l : list A) :
  0 <= a <= len l -> sliceFrom a l = skipn (Z.to_nat a) l.
Proof.
  intros Ha. unfold sliceFrom, slice, relIndex.
  destruct (Z.ltb_spec a 0); [lia|].
  destruct (Z.ltb_spec (len l) 0); [lia|].
  rewrite (Z.min_l a (len l)) by lia. rewrite Z.min_id.
  apply firstn_all2. rewrite length_skipn. unfold len. lia.
Qed.

Lemma sliceFrom_length (A : Type) (a : Z) (l : list A) :
  0 <= a <= len l -> len (sliceFrom a l) = len l - a.
Proof.
  intros Ha. rewrite sliceFrom_skipn by assumption. unfold len in *.
  rewrite length_skipn. lia.
Qed.

Lemma mapi_from_Forall (A B : Type) (P : A -> Prop) (Q : B -> Prop)
    (f : A -> nat -> B) (s : nat) (l : list A) :
  (forall x i, P x -> Q (f x i)) ->
  Forall P l -> Forall Q (mapi_from f s l).
Proof.
  intros Hf. revert s. induction l as [|x l IH]; intros s H; simpl.
  - constructor.
  - inversion H; subst. constructor; auto.
Qed.

Lemma reindex_length (tweets : list Tweet) :
  List.length (reindex tweets) = List.length tweets.
Proof. apply BalanceFacts.mapi_from_length. Qed.

Lemma len_reindex (tweets : list Tweet) : len (reindex tweets) = len tweets.
Proof. unfold len. now rewrite reindex_length. Qed.

(** *** The longest tweet *)

Lemma longestFrom_lt (result : list Tweet) (idx maxIdx : nat)
    (l : list Tweet) :
  (maxIdx < List.length result)%nat ->
  (idx + List.length l <= List.length result)%nat ->
  (longestFrom result idx maxIdx l < List.length result)%nat.
Proof.
  revert idx maxIdx. induction l as [|t l IH]; intros idx maxIdx Hm Hi;
    simpl in *; [assumption|].
  apply IH; [|lia].
  destruct (nth_error result maxIdx); [|assumption].
  destruct (len (text t) >? len (text t0)); [lia | assumption].
Qed.

Lemma longestIndex_lt (result : list Tweet) :
  result <> [] -> (longestIndex result < List.length result)%nat.
Proof.
  intros H. unfold longestIndex. apply longestFrom_lt; [|lia].
  destruct result; [congruence | simpl; lia].
Qed.

(** *** The splitting loop *)

Lemma afterSplit_length (result : list Tweet) (i : nat) (t : Tweet)
    (splitPoint : Z) :
  nth_error result i = Some t ->
  List.length (afterSplit result i t splitPoint) = S (List.length result).
Proof.
  intros H. assert (Hi : (i < List.length result)%nat).
  { apply nth_error_Some. congruence. }
  unfold afterSplit. rewrite length_app, length_firstn.
  cbn [List.length]. rewrite length_skipn. lia.
Qed.

(** One round of the loop, as an equation. *)
Lemma splitLoop_step (fuel : nat) (targetCount : Z) (result : list Tweet) :
  splitLoop (S fuel) targetCount result
  = if len result <? targetCount then
      match nth_error result (longestIndex result) with
      | None =>
          Throw (js "Cannot read properties of undefined (reading 'text')")
      | Some t =>
          if len (text t) <? 100 then Normal result
          else
            let splitPoint := lastIndexOf 32%N (len (text t) / 2) (text t) in
            if splitPoint >? 0
            then splitLoop fuel targetCount
                   (afterSplit result (longestIndex result) t splitPoint)
            else Normal result
      end
    else Normal result.
Proof. reflexivity. Qed.

Section Invariant.

Variable P : Tweet -> Prop.
Hypothesis P_index : forall t i, P t -> P (with_index t i).
Hypothesis P_split :
  forall t, P t -> 100 <= len (text t) ->
    let splitPoint := lastIndexOf 32%N (len (text t) / 2) (text t) in
    0 < splitPoint ->
    P (with_text t (trim (substring 0 splitPoint (text t))))
    /\ P (with_emoji_suggestions
            (with_hashtags
               (with_text t (trim (substringFrom splitPoint (text t)))) [])
            []).

Lemma splitLoop_Forall (fuel : nat) (targetCount : Z)
    (result r : list Tweet) :
  Forall P result -> splitLoop fuel targetCount result = Normal r ->
  Forall P r.
Proof.
  revert result. induction fuel as [|fuel IH]; intros result HP.
  - simpl. intros E. now injection E as <-.
  - rewrite splitLoop_step.
    destruct (len result <? targetCount); [|intros E; now injection E as <-].
    destruct (nth_error result (longestIndex result)) as [t|] eqn:Et;
      [|discriminate].
    destruct (Z.ltb_spec (len (text t)) 100) as [Hs|Hl];
      [intros E; now injection E as <-|].
    cbv zeta. rewrite Z.gtb_ltb.
    destruct (Z.ltb_spec 0 (lastIndexOf 32%N (len (text t) / 2) (text t)))
      as [Hsp|Hsp]; [|intros E; now injection E as <-].
    apply IH. unfold afterSplit.
    assert (Pt : P t).
    { rewrite Forall_forall in HP. apply HP. eapply nth_error_In, Et. }
    destruct (P_split Pt Hl Hsp) as [P1 P2].
    apply Forall_app. split; [apply Forall_firstn, HP|].
    constructor; [exact P1|]. constructor; [exact P2|].
    apply Forall_skipn, HP.
Qed.

Lemma ensureExactTweetCount_Forall (tweets r : list Tweet)
    (targetCount : Z) :
  Forall P tweets -> ensureExactTweetCount tweets targetCount = Normal r ->
  Forall P r.
Proof.
  intros HP. unfold ensureExactTweetCount.
  destruct (len tweets =? targetCount); [intros E; now injection E as <-|].
  destruct (len tweets >? targetCount).
  - intros E. injection E as <-. unfold reindex, mapi.
    apply mapi_from_Forall with (P := P); [intros; now apply P_index|].
    apply Forall_app. split; [apply Forall_slice | apply Forall_sliceFrom];
      exact HP.
  - destruct (splitLoop _ targetCount tweets) as [result|] eqn:E;
      [|discriminate].
    intros E'. injection E' as <-. unfold reindex, mapi.
    apply mapi_from_Forall with (P := P); [intros; now apply P_index|].
    apply Forall_slice. eapply splitLoop_Forall; eauto.
Qed.

End Invariant.

Lemma splitLoop_length (fuel : nat) (targetCount : Z)
    (result r : list Tweet) :
  splitLoop fuel targetCount result = Normal r ->
  (List.length result <= List.length r <= List.length result + fuel)%nat.
Proof.
  revert result. induction fuel as [|fuel IH]; intros result.
  - simpl. intros E. injection E as <-. lia.
  - rewrite splitLoop_step.
    destruct (len result <? targetCount);
      [|intros E; injection E as <-; lia].
    destruct (nth_error result (longestIndex result)) as [t|] eqn:Et;
      [|discriminate].
    destruct (len (text t) <? 100); [intros E; injection E as <-; lia|].
    cbv zeta.
    destruct (lastIndexOf 32%N (len (text t) / 2) (text t) >? 0);
      [|intros E; injection E as <-; lia].
    intros E. apply IH in E. rewrite afterSplit_length in E by assumption.
    lia.
Qed.

(** The loop throws exactly when it starts on no tweet at all with a
    tweet still to add. *)
Lemma splitLoop_nonempty (fuel : nat) (targetCount : Z)
    (result : list Tweet) :
  result <> [] -> exists r, splitLoop fuel targetCount result = Normal r.
Proof.
  revert result. induction fuel as [|fuel IH]; intros result Hne.
  - eexists. reflexivity.
  - rewrite splitLoop_step.
    destruct (len result <? targetCount); [|eexists; reflexivity].
    destruct (nth_error result (longestIndex result)) as [t|] eqn:Et.
    + destruct (len (text t) <? 100); [eexists; reflexivity|].
      cbv zeta.
      destruct (lastIndexOf 32%N (len (text t) / 2) (text t) >? 0);
        [|eexists; reflexivity].
      apply IH. unfold afterSplit. intros E.
      apply app_eq_nil in E. destruct E as [_ E]. discriminate.
    + apply nth_error_None in Et.
      assert (H := longestIndex_lt Hne). lia.
Qed.

Lemma ensureExactTweetCount_throws (tweets : list Tweet) (targetCount : Z) :
  (exists e, ensureExactTweetCount tweets targetCount = Throw e)
  <-> tweets = [] /\ 0 < targetCount.
Proof.
  unfold ensureExactTweetCount. split.
  - intros [e E].
    destruct (Z.eqb_spec (len tweets) targetCount) as [Heq|Hne];
      [discriminate|].
    rewrite Z.gtb_ltb in E.
    destruct (Z.ltb_spec targetCount (len tweets)) as [Hgt|Hle];
      [discriminate|].
    destruct tweets as [|t tweets].
    + split; [reflexivity|]. change (len (@nil Tweet)) with 0 in *. lia.
    + destruct (@splitLoop_nonempty
                  (Z.to_nat (targetCount - len (t :: tweets))) targetCount
                  (t :: tweets)) as [r Hr]; [discriminate|].
      rewrite Hr in E. discriminate.
  - intros [-> Hpos]. change (len (@nil Tweet)) with 0.
    destruct (Z.eqb_spec 0 targetCount) as [Heq|Hne]; [lia|].
    rewrite Z.gtb_ltb. destruct (Z.ltb_spec targetCount 0) as [Hgt|Hle];
      [lia|].
    rewrite Z.sub_0_r.
    destruct (Z.to_nat targetCount) as [|fuel] eqn:Ef; [lia|].
    rewrite splitLoop_step. change (len (@nil Tweet)) with 0.
    destruct (Z.ltb_spec 0 targetCount); [|lia].
    eexists. reflexivity.
Qed.

(** The number of tweets after rebalancing: never more than asked for,
    and exactly as many when there were at least as many before. *)
Lemma ensureExactTweetCount_length (tweets r : list Tweet)
    (targetCount : Z) :
  0 <= targetCount ->
  ensureExactTweetCount tweets targetCount = Normal r ->
  Z.min (len tweets) targetCount <= len r <= targetCount.
Proof.
  intros Hpos. unfold ensureExactTweetCount.
  destruct (Z.eqb_spec (len tweets) targetCount) as [Heq|Hne].
  - intros E. injection E as <-. lia.
  - rewrite Z.gtb_ltb.
    destruct (Z.ltb_spec targetCount (len tweets)) as [Hgt|Hle].
    + intros E. injection E as <-. rewrite len_reindex, len_app.
      replace (len tweets - (len tweets - targetCount)) with targetCount
        by lia.
      assert (H2 := Z.div_pos targetCount 2 Hpos ltac:(lia)).
      rewrite slice_0_length by assumption.
      assert (H3 : targetCount / 2 <= targetCount)
        by (apply Z.div_le_upper_bound; lia).
      rewrite sliceFrom_length by lia. lia.
    + destruct (splitLoop _ targetCount tweets) as [result|] eqn:E;
        [|discriminate].
      intros E'. injection E' as <-.
      rewrite len_reindex, slice_0_length by assumption.
      apply splitLoop_length in E. unfold len in *. lia.
Qed.

(** The fuel given to the loop is enough: more of it changes nothing. *)
Lemma splitLoop_fuel (fuel extra : nat) (targetCount : Z)
    (result : list Tweet) :
  (Z.to_nat (targetCount - len result) <= fuel)%nat ->
  splitLoop (fuel + extra) targetCount result
  = splitLoop fuel targetCount result.
Proof.
  revert result. induction fuel as [|fuel IH]; intros result Hf.
  - destruct extra as [|extra]; [reflexivity|].
    simpl Nat.add. rewrite splitLoop_step.
    destruct (Z.ltb_spec (len result) targetCount); [lia | reflexivity].
  - simpl Nat.add. rewrite !splitLoop_step.
    destruct (Z.ltb_spec (len result) targetCount); [|reflexivity].
    destruct (nth_error result (longestIndex result)) as [t|] eqn:Et;
      [|reflexivity].
    destruct (len (text t) <? 100); [reflexivity|].
    cbv zeta.
    destruct (lastIndexOf 32%N (len (text t) / 2) (text t) >? 0);
      [|reflexivity].
    apply IH. unfold len in *.
    rewrite afterSplit_length by assumption. lia.
Qed.

End RebalanceFacts.

(** ** services/localTemplates.js: segmentation and the first tweets *)

Module SegmentFacts.
Import LocalTemplates JsStringFacts RebalanceFacts.

(** *** Strings with ink at their ends *)







Lemma dropWhile_startsInk (s : jsstring) :
  dropWhile isWhiteSpace s <> [] ->
  startsInk (dropWhile isWhiteSpace s) = true.
Proof.
  induction s as [|c s IH]; simpl; [congruence|].
  destruct (isWhiteSpace c) eqn:E; [assumption|].
  intros _. simpl. now rewrite E.
Qed.



Lemma trim_goodText (s : jsstring) : hasInk s = true -> goodText (trim s).
Proof.
  intros H.
  assert (Hne : trim s <> []).
  { intros E. apply trim_nil_iff in E. congruence. }
  destruct (trim_trimmed s) as [H1 H2]. split.
  - rewrite <- H1. apply dropWhile_startsInk. now rewrite H1.
  - unfold endsInk. rewrite <- H2. apply dropWhile_startsInk. rewrite H2.
    intros E. apply (f_equal (@rev _)) in E.
    rewrite rev_involutive in E. now elim Hne.
Qed.



(** *** [segmentText] returns segments with ink *)


Lemma inked_app_r (a b : jsstring) : inked b -> inked (a ++ b).
Proof.
  unfold inked. intros H. rewrite hasInk_app, H. apply orb_true_r.
Qed.







(** *** The loops of [segmentText] have fuel enough *)

Lemma sentenceLoop_fuel (fuel extra : nat) (sentences : list jsstring)
    (sentencesPerTweet i : Z) (segments : list jsstring) :
  1 <= sentencesPerTweet ->
  (Z.to_nat (len sentences - i) <= fuel)%nat ->
  sentenceLoop (fuel + extra) sentences sentencesPerTweet i segments
  = sentenceLoop fuel sentences sentencesPerTweet i segments.
Proof.
  intros Hs. revert i segments.
  induction fuel as [|fuel IH]; intros i segments Hf.
  - destruct extra as [|extra]; [reflexivity|]. simpl.
    destruct (Z.ltb_spec i (len sentences)); [lia | reflexivity].
  - simpl. destruct (Z.ltb_spec i (len sentences)); [|reflexivity].
    apply IH. lia.
Qed.

Lemma lengthLoop_fuel (fuel extra : nat) (text : jsstring)
    (avgLength i : Z) (segments : list jsstring) :
  1 <= avgLength ->
  (Z.to_nat (len text - i) <= fuel)%nat ->
  lengthLoop (fuel + extra) text avgLength i segments
  = lengthLoop fuel text avgLength i segments.
Proof.
  intros Hs. revert i segments.
  induction fuel as [|fuel IH]; intros i segments Hf.
  - destruct extra as [|extra]; [reflexivity|]. simpl.
    destruct (Z.ltb_spec i (len text)); [lia | reflexivity].
  - simpl. destruct (Z.ltb_spec i (len text)); [|reflexivity].
    apply IH. lia.
Qed.

Lemma ceilDiv_pos (a b : Z) : 1 <= a -> 1 <= b -> 1 <= ceilDiv a b.
Proof.
  intros Ha Hb. unfold ceilDiv.
  apply Z.div_le_lower_bound; lia.
Qed.

End SegmentFacts.

(** ** services/hashtagGenerator.js: the filling loop has fuel enough *)

Module HashtagFacts.
Import HashtagGenerator JsStringFacts.

Lemma filter_length_lt (A : Type) (p q : A -> bool) (l : list A) (x : A) :
  (forall y, q y = true -> p y = true) ->
  In x l -> p x = true -> q x = false ->
  (List.length (List.filter q l) < List.length (List.filter p l))%nat.
Proof.
  intros Hqp. induction l as [|y l IH]; simpl; [tauto|].
  assert (Hle : (List.length (List.filter q l)
                 <= List.length (List.filter p l))%nat).
  { clear -Hqp. induction l as [|z l IH]; simpl; [lia|].
    destruct (q z) eqn:Eq.
    - rewrite (Hqp z Eq). simpl. lia.
    - destruct (p z); simpl; lia. }
  intros [->|Hin] Hp Hq.
  - rewrite Hp, Hq. simpl. lia.
  - specialize (IH Hin Hp Hq). destruct (q y) eqn:Eq.
    + rewrite (Hqp y Eq). simpl. lia.
    + destruct (p y); simpl; lia.
Qed.

(** The general tags not yet among [hashtags]. *)
Lemma fillGeneral_fuel (fuel extra : nat) (generalHashtags used : list jsstring)
    (maxHashtags : Z) (hashtags : list jsstring) :
  (List.length
     (List.filter (fun tag => negb (existsb (streq tag) hashtags))
        generalHashtags) < fuel)%nat ->
  fillGeneral (fuel + extra) generalHashtags used maxHashtags hashtags
  = fillGeneral fuel generalHashtags used maxHashtags hashtags.
Proof.
  revert hashtags. induction fuel as [|fuel IH]; intros hashtags Hf; [lia|].
  simpl. destruct (len hashtags <? maxHashtags); [|reflexivity].
  destruct (List.filter
              (fun tag => negb (existsb (streq tag) hashtags)
                          && negb (setHas used tag))
              generalHashtags) as [|tag available] eqn:E;
    [reflexivity|].
  apply IH.
  assert (Hin : In tag (tag :: available)) by (left; reflexivity).
  rewrite <- E in Hin. apply filter_In in Hin. destruct Hin as [Hg Ht].
  apply andb_prop in Ht. destruct Ht as [Ht _].
  assert (Hlt : (List.length
                   (List.filter
                      (fun t => negb (existsb (streq t) (hashtags ++ [tag])))
                      generalHashtags)
                 < List.length
                     (List.filter
                        (fun t => negb (existsb (streq t) hashtags))
                        generalHashtags))%nat).
  { apply filter_length_lt with (x := tag); try assumption.
    - intros y Hy. rewrite existsb_app in Hy.
      apply negb_true_iff in Hy. apply orb_false_elim in Hy.
      destruct Hy as [Hy _]. now rewrite Hy.
    - rewrite existsb_app. simpl. rewrite streq_refl.
      now rewrite orb_true_r. }
  lia.
Qed.

(** [generateTweetHashtags] starts the loop with more fuel than there are
    general tags. *)
Lemma fillGeneral_enough (extra : nat) (generalHashtags used : list jsstring)
    (maxHashtags : Z) (hashtags : list jsstring) :
  fillGeneral (S (List.length generalHashtags) + extra) generalHashtags used
    maxHashtags hashtags
  = fillGeneral (S (List.length generalHashtags)) generalHashtags used
      maxHashtags hashtags.
Proof.
  apply fillGeneral_fuel.
  assert (H := filter_length_le
                 (fun tag => negb (existsb (streq tag) hashtags))
                 generalHashtags).
  lia.
Qed.

End HashtagFacts.

(** ** services/localTemplates.js: the thread as a whole *)

Module PipelineFacts.
Import LangDetect CharCounter Dedupe LocalTemplates.
Import JsStringFacts BalanceFacts RebalanceFacts SegmentFacts.

(** *** The tweets made from the segments *)

Lemma makeTweets_length (host : Host) (style : Style)
    (langAnalysis : LangAnalysis) (includeImages : bool) (total index : nat)
    (g : rng) (segments : list jsstring) :
  List.length
    (makeTweets style langAnalysis includeImages total index g segments)
  = List.length segments.
Proof.
  revert index g. induction segments as [|s segments IH]; intros index g;
    simpl; [reflexivity|]. now rewrite IH.
Qed.

Lemma generateEmojis_length (host : Host) (segment : jsstring)
    (style : Style) (index : nat) :
  (List.length (generateEmojis segment style index) <= 3)%nat.
Proof.
  unfold generateEmojis. cbv zeta. rewrite slice_0 by lia.
  apply firstn_le_length.
Qed.

Lemma makeTweets_emoji (host : Host) (style : Style)
    (langAnalysis : LangAnalysis) (includeImages : bool) (total index : nat)
    (g : rng) (segments : list jsstring) :
  Forall (fun t => (List.length (emoji_suggestions t) <= 3)%nat)
    (makeTweets style langAnalysis includeImages total index g segments).
Proof.
  revert index g. induction segments as [|s segments IH]; intros index g;
    simpl; constructor; [apply generateEmojis_length | apply IH].
Qed.





(** *** Both halves of a split tweet are good texts *)

Lemma lastIndexScan_range (c : codeunit) (bound : Z) (s : jsstring)
    (i best : Z) :
  lastIndexScan c bound i best s = best
  \/ (i <= lastIndexScan c bound i best s <= bound
      /\ lastIndexScan c bound i best s < i + len s).
Proof.
  revert i best. induction s as [|d s IH]; intros i best; simpl; [auto|].
  replace (i + len (d :: s)) with (i + 1 + len s)
    by (unfold len; cbn [List.length]; lia).
  destruct (IH (i + 1)
              (if (d =? c)%N && (i <=? bound) then i else best))
    as [H|H].
  - rewrite H. destruct ((d =? c)%N && (i <=? bound)) eqn:E; [|auto].
    right. apply andb_prop in E. destruct E as [_ E].
    apply Z.leb_le in E. assert (Hn := len_nonneg s). lia.
  - right. lia.
Qed.

Lemma lastIndexOf_range (c : codeunit) (fromIndex : Z) (s : jsstring) :
  0 < lastIndexOf c fromIndex s ->
  lastIndexOf c fromIndex s <= fromIndex /\ lastIndexOf c fromIndex s < len s.
Proof.
  unfold lastIndexOf. intros H.
  destruct (lastIndexScan_range c fromIndex s 0 (-1)) as [E|E]; lia.
Qed.

Lemma substring_0_firstn (A : Type) (b : Z) (s : list A) :
  0 <= b <= len s -> substring 0 b s = firstn (Z.to_nat b) s.
Proof.
  intros H. unfold substring, clamp.
  rewrite (Z.min_l 0 (len s)) by lia. rewrite (Z.min_l b (len s)) by lia.
  rewrite !Z.max_r by lia. change (Z.to_nat 0) with O.
  rewrite Nat.min_0_l, Nat.max_0_l, Nat.sub_0_r. reflexivity.
Qed.

Lemma substringFrom_skipn (A : Type) (a : Z) (s : list A) :
  0 <= a <= len s -> substringFrom a s = skipn (Z.to_nat a) s.
Proof.
  intros H. unfold substringFrom, substring, clamp.
  rewrite (Z.min_l a (len s)) by lia. rewrite Z.min_id.
  rewrite !Z.max_r by lia.
  rewrite Nat.min_l, Nat.max_r by lia.
  apply firstn_all2. rewrite length_skipn. unfold len. lia.
Qed.



(** *** Fields that the later passes leave alone *)

(** One visit of the final pass, as an equation. *)
Lemma validateFrom_step (host : Host) (steps i : nat) (tweets : list Tweet) :
  validateFrom (S steps) i tweets
  = match nth_error tweets i with
    | None => tweets
    | Some tweet =>
        if isValid
             (validateTweetLength (text tweet) (hashtags tweet) (cta tweet))
        then validateFrom steps (S i) tweets
        else
          validateFrom steps (S i)
            (List.map
               (pushWarning (warnings_ref tweet)
                  (js "Tweet truncated to fit character limit"))
               (firstn i tweets
                ++ with_char_count
                     (with_text tweet
                        (truncateSmart (text tweet) 280 (hashtags tweet)
                           (cta tweet)))
                     (getCharCount
                        (truncateSmart (text tweet) 280 (hashtags tweet)
                           (cta tweet))
                        (hashtags tweet) (cta tweet))
                :: skipn (S i) tweets))
    end.
Proof. reflexivity. Qed.

Section Projection.

Context {host : Host}.
Variable A : Type.
Variable f : Tweet -> A.

Lemma map_mapi_from (k : Tweet -> nat -> Tweet) (s : nat)
    (l : list Tweet) :
  (forall t i, f (k t i) = f t) ->
  List.map f (mapi_from k s l) = List.map f l.
Proof.
  intros H. revert s. induction l as [|t l IH]; intros s; simpl;
    [reflexivity|]. now rewrite H, IH.
Qed.

Hypothesis f_hashtags : forall t h, f (with_hashtags t h) = f t.

Lemma balance_keeps (tweets : list Tweet) (m : nat) :
  List.map f (balanceHashtagsAcrossThread tweets m) = List.map f tweets.
Proof.
  unfold balanceHashtagsAcrossThread.
  destruct tweets as [|t0 tweets]; [reflexivity|].
  destruct (dedupeHashtags _).
  - rewrite map_map. apply map_ext. intros t. apply f_hashtags.
  - apply map_mapi_from. intros t i. apply f_hashtags.
Qed.

Lemma threadHashtagsFrom_keeps (options : HashtagGenerator.Options)
    (total index : nat) (used : list jsstring) (thread : list Tweet) :
  List.map f
    (HashtagGenerator.threadHashtagsFrom options total index used thread)
  = List.map f thread.
Proof.
  revert index used. induction thread as [|t thread IH]; intros index used;
    simpl; [reflexivity|]. now rewrite f_hashtags, IH.
Qed.

Lemma enrichWithHashtags_keeps (params : Params) (tweets : list Tweet) :
  List.map f (enrichWithHashtags params tweets) = List.map f tweets.
Proof.
  unfold enrichWithHashtags. destruct (includeHashtags params);
    [apply threadHashtagsFrom_keeps | reflexivity].
Qed.

Hypothesis f_warnings : forall t w, f (with_warnings t w) = f t.
Hypothesis f_truncated :
  forall t x n, f (with_char_count (with_text t x) n) = f t.

Lemma validateFrom_keeps (steps i : nat) (tweets : list Tweet) :
  List.map f (validateFrom steps i tweets) = List.map f tweets.
Proof.
  revert i tweets. induction steps as [|steps IH]; intros i tweets;
    [reflexivity|].
  rewrite validateFrom_step.
  destruct (nth_error tweets i) as [tweet|] eqn:E; [|reflexivity].
  destruct (isValid
              (validateTweetLength (text tweet) (hashtags tweet) (cta tweet)));
    [apply IH|].
  rewrite IH, map_map.
  rewrite <- (firstn_skipn_middle i tweets E) at 3.
  rewrite !map_app. cbn [List.map]. f_equal; [|f_equal].
  - apply map_ext. intros t. unfold pushWarning.
    destruct (_ =? _)%nat; [apply f_warnings | reflexivity].
  - unfold pushWarning. destruct (_ =? _)%nat;
      [rewrite f_warnings|]; apply f_truncated.
  - apply map_ext. intros t. unfold pushWarning.
    destruct (_ =? _)%nat; [apply f_warnings | reflexivity].
Qed.

Lemma validatePass_keeps (tweets : list Tweet) :
  List.map f (validatePass tweets) = List.map f tweets.
Proof. apply validateFrom_keeps. Qed.

End Projection.

(** *** What the defects look like in general *)

(** The final pass changes nothing of a thread whose tweets are all
    within the limit: [char_count] stays what it was before hashtags and
    CTA were attached. *)
Lemma validateFrom_valid (host : Host) (steps i : nat)
    (tweets : list Tweet) :
  Forall
    (fun t =>
       isValid (validateTweetLength (text t) (hashtags t) (cta t)) = true)
    tweets ->
  validateFrom steps i tweets = tweets.
Proof.
  intros H. revert i. induction steps as [|steps IH]; intros i;
    [reflexivity|].
  rewrite validateFrom_step.
  destruct (nth_error tweets i) as [tweet|] eqn:E; [|reflexivity].
  rewrite Forall_forall in H. rewrite (H tweet (nth_error_In _ _ E)).
  apply IH.
Qed.

Lemma validatePass_valid (host : Host) (tweets : list Tweet) :
  Forall
    (fun t =>
       isValid (validateTweetLength (text t) (hashtags t) (cta t)) = true)
    tweets ->
  validatePass tweets = tweets.
Proof. apply validateFrom_valid. Qed.

(** Both halves of a split tweet carry the CTA, the count and the
    warnings array of the tweet they were cut from. *)
Lemma afterSplit_halves (result : list Tweet) (i : nat) (t : Tweet)
    (splitPoint : Z) :
  (i < List.length result)%nat ->
  exists first second,
    nth_error (afterSplit result i t splitPoint) i = Some first
    /\ nth_error (afterSplit result i t splitPoint) (S i) = Some second
    /\ cta first = cta t /\ cta second = cta t
    /\ char_count first = char_count t /\ char_count second = char_count t
    /\ warnings_ref first = warnings_ref t
    /\ warnings_ref second = warnings_ref t.
Proof.
  intros Hi. unfold afterSplit.
  assert (Hl : List.length (firstn i result) = i).
  { rewrite length_firstn. lia. }
  do 2 eexists. split; [|split].
  - rewrite nth_error_app2 by lia. rewrite Hl, Nat.sub_diag. reflexivity.
  - rewrite nth_error_app2 by lia. rewrite Hl.
    replace (S i - i)%nat with 1%nat by lia. reflexivity.
  - repeat split.
Qed.

(** *** The thread of a result *)

Lemma threadOf_generate (host : Host) (text : jsstring) (params : Params)
    (g : rng) :
  threadOf (generateFallbackThread text params g)
  = validatePass (dedupeHashtagsAndEmojis (beforeDedupe text params g)).
Proof.
  unfold generateFallbackThread, tryBlock, beforeDedupe.
  destruct (segmentAndRebalance text params g); reflexivity.
Qed.

Lemma makeTweets_nil (host : Host) (style : Style)
    (langAnalysis : LangAnalysis) (includeImages : bool) (total index : nat)
    (g : rng) (segments : list jsstring) :
  makeTweets style langAnalysis includeImages total index g segments = []
  <-> segments = [].
Proof. destruct segments; simpl; split; congruence. Qed.

(** The rebalancing throws exactly when there is no segment to start from
    and at least one tweet is asked for. *)
Lemma segmentAndRebalance_throws (host : Host) (text : jsstring)
    (params : Params) (g : rng) :
  (exists e, segmentAndRebalance text params g = Throw e)
  <-> segmentText text (maxTweets params) = [] /\ 0 < maxTweets params.
Proof.
  unfold segmentAndRebalance. rewrite ensureExactTweetCount_throws.
  now rewrite makeTweets_nil.
Qed.

(** C7.  [generateFallbackThread] never throws.  It returns the full
    result object (metadata, thread, summary, score, recommendations)
    whenever the text yields a segment or no tweet is asked for, and
    otherwise, when the [try] block throws on the missing first tweet, the
    object made of [error] and [code]. *)
Theorem generateFallbackThread_never_throws (host : Host) (text : jsstring)
    (params : Params) (g : rng) :
  match generateFallbackThread text params g with
  | Normal (Generated r) =>
      (segmentText text (maxTweets params) <> [] \/ maxTweets params <= 0)
      /\ tweets_generated (metadata r) = len (thread r)
      /\ max_tweets_requested (metadata r) = maxTweets params
  | Normal (Failed e) =>
      e = {| error := js "Failed to generate thread using local fallback";
             code := 500 |}
      /\ segmentText text (maxTweets params) = []
      /\ 0 < maxTweets params
  | Throw _ => False
  end.
Proof.
  unfold generateFallbackThread, tryBlock.
  destruct (segmentAndRebalance text params g) as [tweets|e] eqn:E.
  - cbn [metadata thread tweets_generated max_tweets_requested].
    split; [|split; reflexivity].
    destruct (segmentText text (maxTweets params)) eqn:Es;
      [|left; discriminate].
    right. destruct (Z.le_gt_cases (maxTweets params) 0) as [H|H];
      [assumption|].
    assert (Ht : exists e, segmentAndRebalance text params g = Throw e).
    { apply segmentAndRebalance_throws. split; [assumption | lia]. }
    destruct Ht as [e Ht]. congruence.
  - split; [reflexivity|].
    apply (proj1 (segmentAndRebalance_throws host text params g)). eauto.
Qed.

(** *** Emoji suggestions *)

Lemma dedupeEmojis_length (emojis : list jsstring) :
  (List.length (dedupeEmojis emojis) <= List.length emojis)%nat.
Proof.
  unfold dedupeEmojis, arrayFromSet.
  etransitivity; [apply setInsertAll_length|].
  rewrite length_map. apply filter_length_le.
Qed.

Lemma dedupeHashtagsAndEmojis_emoji (host : Host) (tweets : list Tweet) :
  List.map emoji_suggestions (dedupeHashtagsAndEmojis tweets)
  = List.map
      (fun s =>
         dedupeEmojis (emoji_suggestions s ++ extractEmojisFromText (text s)))
      tweets.
Proof.
  unfold dedupeHashtagsAndEmojis.
  rewrite balance_keeps by reflexivity. rewrite map_map. reflexivity.
Qed.

Lemma Forall2_of_maps (A B C : Type) (f : A -> C) (k : B -> C)
    (l1 : list A) (l2 : list B) :
  List.map k l2 = List.map f l1 -> Forall2 (fun s t => k t = f s) l1 l2.
Proof.
  revert l2. induction l1 as [|x l1 IH]; intros [|y l2] H; simpl in H;
    try discriminate; constructor.
  - now injection H.
  - apply IH. now injection H.
Qed.

Lemma beforeDedupe_emoji (host : Host) (text : jsstring) (params : Params)
    (g : rng) :
  Forall (fun s => (List.length (emoji_suggestions s) <= 3)%nat)
    (beforeDedupe text params g).
Proof.
  unfold beforeDedupe.
  destruct (segmentAndRebalance text params g) as [tweets|e] eqn:E;
    [|constructor].
  assert (H : Forall (fun s => (List.length (emoji_suggestions s) <= 3)%nat)
                tweets).
  { unfold segmentAndRebalance in E.
    eapply ensureExactTweetCount_Forall; [| | |exact E].
    - intros t i Ht. exact Ht.
    - intros t Ht Hl sp Hsp. split; [exact Ht | simpl; lia].
    - apply makeTweets_emoji. }
  apply (Forall_map emoji_suggestions
           (fun e => (List.length e <= 3)%nat)).
  rewrite enrichWithHashtags_keeps by reflexivity.
  apply Forall_map. exact H.
Qed.

(** C6, as amended.  Every message has at most 3 emoji suggestions when it
    reaches the final deduplication pass.  That pass replaces the list by
    the deduplicated concatenation of the suggestions and of the emojis
    extracted from the text of the message, and nothing caps it again: a
    message of the returned thread has at most 3 suggestions plus the
    emojis extracted from its text. *)
Theorem emoji_suggestions_after_dedupe (host : Host) (text : jsstring)
    (params : Params) (g : rng) :
  Forall (fun s => (List.length (emoji_suggestions s) <= 3)%nat)
    (beforeDedupe text params g)
  /\ Forall2
       (fun s t =>
          emoji_suggestions t
          = dedupeEmojis
              (emoji_suggestions s ++ extractEmojisFromText (Model.text s))
          /\ (List.length (emoji_suggestions t)
              <= 3 + List.length (extractEmojisFromText (Model.text s)))%nat)
       (beforeDedupe text params g)
       (threadOf (generateFallbackThread text params g)).
Proof.
  assert (H3 := beforeDedupe_emoji host text params g).
  split; [exact H3|].
  assert (Hm :
    List.map emoji_suggestions
      (threadOf (generateFallbackThread text params g))
    = List.map
        (fun s =>
           dedupeEmojis
             (emoji_suggestions s ++ extractEmojisFromText (Model.text s)))
        (beforeDedupe text params g)).
  { rewrite threadOf_generate.
    rewrite validatePass_keeps by reflexivity.
    apply dedupeHashtagsAndEmojis_emoji. }
  apply Forall2_of_maps in Hm.
  revert H3 Hm. generalize (beforeDedupe text params g).
  generalize (threadOf (generateFallbackThread text params g)).
  intros l2 l1 H3 Hm. induction Hm as [|s t l1 l2 Hst Hm IH];
    constructor.
  - inversion H3; subst. split; [exact Hst|]. rewrite Hst.
    etransitivity; [apply dedupeEmojis_length|].
    rewrite length_app. lia.
  - apply IH. now inversion H3.
Qed.

(** *** Segmentation followed by rebalancing *)



End PipelineFacts.

(** ** Lists and indexed maps *)

Module ListFacts.

Lemma map_mapi_from_any (A B C : Type) (f : A -> nat -> B) (g : B -> C)
    (h : A -> C) (s : nat) (l : list A) :
  (forall x i, g (f x i) = h x) ->
  List.map g (mapi_from f s l) = List.map h l.
Proof.
  intros H. revert s. induction l as [|x l IH]; intros s; cbn;
    [reflexivity|]. now rewrite H, IH.
Qed.

Lemma mapi_from_ext (A B : Type) (f g : A -> nat -> B) (s : nat)
    (l : list A) :
  (forall x i, f x i = g x i) -> mapi_from f s l = mapi_from g s l.
Proof.
  intros H. revert s. induction l as [|x l IH]; intros s; cbn;
    [reflexivity|]. now rewrite H, IH.
Qed.

Lemma mapi_from_const (A B : Type) (f : A -> B) (s : nat) (l : list A) :
  mapi_from (fun x _ => f x) s l = List.map f l.
Proof.
  revert s. induction l as [|x l IH]; intros s; cbn; [reflexivity|].
  now rewrite IH.
Qed.

Lemma nth_error_head (A : Type) (x t : A) (l : list A) :
  nth_error (x :: l) O = Some t -> t = x.
Proof. cbn. congruence. Qed.

Lemma forallb_rev (A : Type) (p : A -> bool) (l : list A) :
  forallb p (rev l) = forallb p l.
Proof.
  induction l as [|x l IH]; cbn [rev forallb]; [reflexivity|].
  rewrite forallb_app, IH. cbn [forallb].
  rewrite andb_true_r. apply andb_comm.
Qed.

Lemma filter_disjoint_length (A : Type) (p q : A -> bool) (l : list A) :
  (forall x, p x = true -> q x = false) ->
  (List.length (List.filter p l) + List.length (List.filter q l)
   <= List.length l)%nat.
Proof.
  intros H. induction l as [|x l IH]; cbn; [lia|].
  destruct (p x) eqn:Ep.
  - rewrite (H x Ep). cbn. lia.
  - destruct (q x); cbn; lia.
Qed.

Lemma hashtags_with_hashtags (t : Tweet) (h : list jsstring) :
  hashtags (with_hashtags t h) = h.
Proof. reflexivity. Qed.

Lemma bool_eq_iff (b c : bool) : (b = true <-> c = true) -> b = c.
Proof. destruct b, c; intuition congruence. Qed.

(** Unfold a boolean combination of comparisons of code units into its
    proposition. *)
Ltac reflect_ranges H :=
  repeat (rewrite orb_true_iff in H || rewrite andb_true_iff in H
          || rewrite N.leb_le in H || rewrite N.eqb_eq in H).

End ListFacts.

(** ** utils/langDetect.js *)

Module LangDetectFacts.
Import LangDetect JsStringFacts ListFacts.

Lemma Qgtb_true (a b : Q) : Qgtb a b = true <-> (b < a)%Q.
Proof.
  unfold Qgtb. rewrite negb_true_iff. split.
  - intros H. apply Qnot_le_lt. intros Hle. apply Qle_bool_iff in Hle. congruence.
  - intros H. destruct (Qle_bool a b) eqn:E; [|reflexivity].
    apply Qle_bool_iff in E. exfalso. apply (Qlt_not_le _ _ H E).
Qed.

Lemma percent_lt (a b t : Z) :
  0 < t ->
  (inject_Z a / inject_Z t * 100 < inject_Z b / inject_Z t * 100)%Q <-> a < b.
Proof.
  intros Ht. destruct t as [|p|p]; try lia.
  unfold Qlt, Qdiv, Qmult, Qinv, inject_Z. cbn -[Z.mul].
  rewrite ?Pos2Z.inj_mul, ?Z.mul_1_r. assert (0 < Z.pos p) by lia.
  split; intros.
  - apply Z.mul_lt_mono_pos_r with (p := 100 * Z.pos p); lia.
  - nia.
Qed.

Lemma percent_gt_const (a k t : Z) :
  0 < t ->
  (inject_Z k < inject_Z a / inject_Z t * 100)%Q <-> k * t < 100 * a.
Proof.
  intros Ht. destruct t as [|p|p]; try lia.
  unfold Qlt, Qdiv, Qmult, Qinv, inject_Z. cbn -[Z.mul].
  rewrite ?Pos2Z.inj_mul, ?Z.mul_1_r. assert (0 < Z.pos p) by lia.
  split; intros; lia.
Qed.

Lemma Qgtb_percent (a b t : Z) :
  0 < t ->
  Qgtb (inject_Z a / inject_Z t * 100) (inject_Z b / inject_Z t * 100)
  = (b <? a).
Proof.
  intros Ht. apply bool_eq_iff. rewrite Qgtb_true, percent_lt by assumption.
  symmetry. apply Z.ltb_lt.
Qed.

Lemma Qgtb_percent_const (a k t : Z) :
  0 < t ->
  Qgtb (inject_Z a / inject_Z t * 100) (inject_Z k) = (k * t <? 100 * a).
Proof.
  intros Ht. apply bool_eq_iff.
  rewrite Qgtb_true, percent_gt_const by assumption.
  symmetry. apply Z.ltb_lt.
Qed.

(** The two letter classes exclude each other. *)
Lemma arabic_not_english (c : codeunit) :
  isArabicUnit c = true -> isEnglishUnit c = false.
Proof.
  intros Ha. destruct (isEnglishUnit c) eqn:He; [exfalso|reflexivity].
  unfold isArabicUnit in Ha. unfold isEnglishUnit in He.
  reflect_ranges Ha. reflect_ranges He. lia.
Qed.

(** The counts behind an analysis: letters, Arabic letters, English
    letters. *)
Lemma counts_bounds (host : Host) (text : jsstring) :
  let letters := removeNonLetters text in
  0 <= len (List.filter isArabicUnit letters)
  /\ 0 <= len (List.filter isEnglishUnit letters)
  /\ len (List.filter isArabicUnit letters)
     + len (List.filter isEnglishUnit letters) <= len letters.
Proof.
  intros letters. unfold len.
  pose proof (@filter_disjoint_length _ isArabicUnit isEnglishUnit letters
                arabic_not_english). lia.
Qed.

Lemma removeNonLetters_nil (host : Host) : removeNonLetters [] = [].
Proof. reflexivity. Qed.

(** The analysis of a text with at least one letter, its comparisons of
    percentages written on the counts. *)
Lemma detect_letters (host : Host) (text : jsstring) :
  let letters := removeNonLetters text in
  let t := len letters in
  let a := len (List.filter isArabicUnit letters) in
  let e := len (List.filter isEnglishUnit letters) in
  let o := t - a - e in
  letters <> [] ->
  let r := detectLanguagePercentages text in
  total_chars r = t
  /\ raw_counts r
     = Some {| raw_arabic := a; raw_english := e; raw_other := o |}
  /\ dominant_language r
     = (if (e <? a) && (o <? a) then arabic
        else if (a <? e) && (o <? e) then english
        else if (a <? o) && (e <? o) then other
        else unknown)
  /\ direction r = (if 30 * t <? 100 * a then rtl else ltr)
  /\ is_mixed r = (10 * t <? 100 * a) && (10 * t <? 100 * e)
  /\ arabic_percent r = round2 (inject_Z a / inject_Z t * 100)
  /\ english_percent r = round2 (inject_Z e / inject_Z t * 100).
Proof.
  intros letters t a e o Hne r.
  assert (Ht : 0 < t).
  { unfold t, len. destruct letters; [congruence|]. cbn [List.length]. lia. }
  assert (Htext : isEmpty text = false).
  { destruct text; [|reflexivity]. exfalso. apply Hne. reflexivity. }
  unfold r, detectLanguagePercentages. rewrite Htext.
  fold letters. fold t.
  destruct (t =? 0) eqn:E0; [apply Z.eqb_eq in E0; lia|].
  cbn [total_chars raw_counts dominant_language direction is_mixed
       arabic_percent english_percent].
  fold a. fold e. fold o.
  change 30%Q with (inject_Z 30). change 10%Q with (inject_Z 10).
  rewrite !Qgtb_percent, !Qgtb_percent_const by assumption.
  repeat split; reflexivity.
Qed.

Lemma detect_no_letters (host : Host) (text : jsstring) :
  removeNonLetters text = [] ->
  detectLanguagePercentages text = emptyAnalysis.
Proof.
  intros H. unfold detectLanguagePercentages.
  destruct (isEmpty text); [reflexivity|]. rewrite H. reflexivity.
Qed.

(** X1: [detectLanguagePercentages] counts every letter once.  When the text
    has a letter, the raw counts of Arabic, English and other letters are
    non-negative and add up to [total_chars], which is the number of
    letters left by the cleaning step and is positive.  When it has none,
    the early result is returned: no raw counts, zero letters, language
    unknown, direction ltr, not mixed. *)
Theorem raw_counts_partition (host : Host) (text : jsstring) :
  let r := detectLanguagePercentages text in
  match raw_counts r with
  | Some c =>
      0 <= raw_arabic c /\ 0 <= raw_english c /\ 0 <= raw_other c
      /\ raw_arabic c + raw_english c + raw_other c = total_chars r
      /\ 0 < total_chars r
      /\ total_chars r = len (removeNonLetters text)
  | None =>
      total_chars r = 0 /\ removeNonLetters text = []
      /\ dominant_language r = unknown /\ direction r = ltr
      /\ is_mixed r = false
  end.
Proof.
  intros r. destruct (removeNonLetters text) as [|c0 l0] eqn:EL.
  - unfold r. rewrite (@detect_no_letters host text EL). cbn. auto.
  - assert (Hne : removeNonLetters text <> []) by (rewrite EL; discriminate).
    destruct (@detect_letters host text Hne) as (Ht & Hr & _).
    pose proof (@counts_bounds host text) as (Ha & He & Hsum).
    fold r in Ht, Hr. rewrite Hr. cbn [raw_arabic raw_english raw_other].
    rewrite Ht. rewrite <- EL.
    assert (0 < len (removeNonLetters text)).
    { rewrite EL. unfold len. cbn [List.length]. lia. }
    repeat split; lia.
Qed.


(** X2: [getLanguageCode] and [detectTextDirection] agree on every
    text: the code is mixed exactly when the direction is mixed, the code ar
    is only given to a text whose direction is rtl, and the code en only to
    a text whose direction is ltr. *)
Theorem language_code_agrees_with_direction (host : Host) (text : jsstring) :
  (getLanguageCode text = js "mixed" <-> detectTextDirection text = dir_mixed)
  /\ (getLanguageCode text = js "ar" -> detectTextDirection text = dir_rtl)
  /\ (getLanguageCode text = js "en" -> detectTextDirection text = dir_ltr).
Proof.
  unfold getLanguageCode, detectTextDirection.
  destruct (removeNonLetters text) as [|c0 l0] eqn:EL.
  - rewrite (@detect_no_letters host text EL). cbn [is_mixed emptyAnalysis
      dominant_language direction].
    repeat split; intros H; try discriminate H; vm_compute in H; discriminate H.
  - assert (Hne : removeNonLetters text <> []) by (rewrite EL; discriminate).
    destruct (@detect_letters host text Hne)
      as (_ & _ & Hdom & Hdir & Hmix & _).
    pose proof (@counts_bounds host text) as (Ha & He & Hsum).
    cbv zeta in Hsum, Ha, He.
    rewrite Hdom, Hdir, Hmix. clear Hdom Hdir Hmix.
    set (t := len (removeNonLetters text)) in *.
    set (a := len (List.filter isArabicUnit (removeNonLetters text))) in *.
    set (e := len (List.filter isEnglishUnit (removeNonLetters text))) in *.
    destruct ((10 * t <? 100 * a) && (10 * t <? 100 * e)) eqn:Emix.
    { repeat split; intros H'; try reflexivity; vm_compute in H';
        discriminate H'. }
    assert (Hmix : 100 * a <= 10 * t \/ 100 * e <= 10 * t).
    { apply andb_false_iff in Emix. destruct Emix as [E|E];
        apply Z.ltb_ge in E; auto. }
    destruct ((e <? a) && (t - a - e <? a)) eqn:Ear.
    { apply andb_true_iff in Ear. destruct Ear as [E1 E2].
      apply Z.ltb_lt in E1, E2.
      destruct (Z.ltb_spec (30 * t) (100 * a)); [|lia].
      repeat split; intros H'; try reflexivity; try discriminate H';
        vm_compute in H'; discriminate H'. }
    destruct ((a <? e) && (t - a - e <? e)) eqn:Een.
    { apply andb_true_iff in Een. destruct Een as [E1 E2].
      apply Z.ltb_lt in E1, E2.
      destruct (Z.ltb_spec (30 * t) (100 * a)); [lia|].
      repeat split; intros H'; try reflexivity; try discriminate H';
        vm_compute in H'; discriminate H'. }
    destruct ((a <? t - a - e) && (e <? t - a - e));
      destruct (30 * t <? 100 * a);
      repeat split; intros H'; try reflexivity; try discriminate H';
        vm_compute in H'; discriminate H'.
Qed.


(** Rounding to two decimals does not take a percentage below a whole
    number that it reaches. *)
Lemma round2_ge (k : Z) (p : Q) : (inject_Z k <= p)%Q -> (inject_Z k <= round2 p)%Q.
Proof.
  intros H. unfold round2.
  assert (Hz : k * 100 <= Qfloor (p * 100 + (1 # 2))).
  { rewrite <- (Qfloor_Z (k * 100)). apply Qfloor_resp_le.
    rewrite inject_Z_mult.
    apply Qle_trans with (p * 100)%Q.
    - apply Qmult_le_compat_r; [exact H|discriminate].
    - rewrite <- (Qplus_0_r (p * 100)) at 1.
      apply Qplus_le_r. discriminate. }
  set (z := Qfloor (p * 100 + (1 # 2))) in *. clearbody z.
  unfold Qle, Qdiv, Qmult, Qinv, inject_Z. cbn -[Z.mul]. lia.
Qed.

(** X3: a text whose detected direction is rtl passes [isArabicText] at
    its default threshold of 30: the direction is rtl only above 70 percent
    of Arabic letters. *)
Theorem rtl_text_is_arabic (host : Host) (text : jsstring) :
  direction (detectLanguagePercentages text) = rtl ->
  isArabicText text defaultArabicThreshold = true.
Proof.
  intros Hdir. unfold isArabicText, defaultArabicThreshold.
  destruct (removeNonLetters text) as [|c0 l0] eqn:EL.
  - rewrite (@detect_no_letters host text EL) in Hdir. discriminate Hdir.
  - assert (Hne : removeNonLetters text <> []) by (rewrite EL; discriminate).
    destruct (@detect_letters host text Hne)
      as (_ & _ & _ & Hd & _ & Hp & _).
    rewrite Hd in Hdir. rewrite Hp. apply Qle_bool_iff.
    change 30%Q with (inject_Z 30). apply round2_ge.
    apply Qlt_le_weak. apply percent_gt_const.
    + rewrite EL. unfold len. cbn [List.length]. lia.
    + destruct (Z.ltb_spec
                  (30 * len (removeNonLetters text))
                  (100 * len (List.filter isArabicUnit
                                (removeNonLetters text)))); [lia|].
      discriminate Hdir.
Qed.

Lemma rtl_text_is_arabic_witness :
  direction (@detectLanguagePercentages ReferenceHost.host marhaba) = rtl
  /\ @isArabicText ReferenceHost.host marhaba defaultArabicThreshold = true.
Proof.
  split; [reflexivity|].
  apply (@rtl_text_is_arabic ReferenceHost.host marhaba). reflexivity.
Defined.


(** An isolated position: with three Arabic letters among ten the share
    is exactly 30, which reaches the threshold of [isArabicText] but does
    not exceed the 30 that the direction asks for. *)
Example isArabicText_at_threshold :
  let text := js "abcdefg" ++ [0x645; 0x631; 0x62d]%N in
  @isArabicText ReferenceHost.host text defaultArabicThreshold = true
  /\ direction (@detectLanguagePercentages ReferenceHost.host text) = ltr.
Proof. split; reflexivity. Qed.

End LangDetectFacts.

Module ThreadLanguageFacts.
Import LangDetect ThreadLanguage JsStringFacts ListFacts LangDetectFacts.

Lemma raw_counts_none (host : Host) (text : jsstring) :
  raw_counts (detectLanguagePercentages text) = None
  <-> removeNonLetters text = [].
Proof.
  split.
  - intros H. destruct (removeNonLetters text) as [|c0 l0] eqn:EL;
      [reflexivity|].
    assert (Hne : removeNonLetters text <> []) by (rewrite EL; discriminate).
    destruct (@detect_letters host text Hne) as (_ & Hr & _).
    rewrite Hr in H. discriminate H.
  - intros H. rewrite (@detect_no_letters host text H). reflexivity.
Qed.

Lemma sumRawCounts_throws (field : RawCounts -> Z) (name : jsstring)
    (l : list TweetAnalysis) (sum : Z) :
  (exists e, sumRawCounts field name l sum = Throw e)
  <-> exists t, In t l /\ raw_counts (ta_analysis t) = None.
Proof.
  revert sum. induction l as [|t l IH]; intros sum; cbn [sumRawCounts].
  - split; [intros [e H]; discriminate H|intros (t & [] & _)].
  - destruct (raw_counts (ta_analysis t)) eqn:E.
    + rewrite IH. split.
      * intros (t' & Hin & Hn). exists t'. split; [right; exact Hin|exact Hn].
      * intros (t' & [Heq|Hin] & Hn).
        -- subst t'. congruence.
        -- exists t'. auto.
    + split; [|intros _; eexists; reflexivity].
      intros _. exists t. split; [left; reflexivity|exact E].
Qed.

Lemma sumRawCounts_cases (field : RawCounts -> Z) (name : jsstring)
    (l : list TweetAnalysis) (sum : Z) :
  (exists v, sumRawCounts field name l sum = Normal v)
  \/ (exists e, sumRawCounts field name l sum = Throw e).
Proof.
  destruct (sumRawCounts field name l sum); [left|right]; eexists;
    reflexivity.
Qed.

Lemma exists_letterless (host : Host) (tweets : list Tweet) (s : nat) :
  (exists t,
     In t
       (mapi_from
          (fun tweet index =>
             {| ta_index := Z.of_nat index;
                ta_text := text tweet;
                ta_analysis := detectLanguagePercentages (text tweet) |})
          s tweets)
     /\ raw_counts (ta_analysis t) = None)
  <-> exists t, In t tweets /\ removeNonLetters (text t) = [].
Proof.
  set (F := fun (tweet : Tweet) (index : nat) =>
              {| ta_index := Z.of_nat index;
                 ta_text := text tweet;
                 ta_analysis := detectLanguagePercentages (text tweet) |}).
  assert (Hmap :
            List.map ta_analysis (mapi_from F s tweets)
            = List.map (fun t => detectLanguagePercentages (text t)) tweets).
  { apply map_mapi_from_any. reflexivity. }
  split.
  - intros (ta & Hin & Hn).
    assert (Hin' : In (ta_analysis ta)
                     (List.map ta_analysis (mapi_from F s tweets))).
    { apply in_map. exact Hin. }
    rewrite Hmap in Hin'. apply in_map_iff in Hin'.
    destruct Hin' as (t & Heq & Ht). exists t. split; [exact Ht|].
    apply raw_counts_none. rewrite Heq. exact Hn.
  - intros (t & Ht & Hn).
    assert (Hin' : In (detectLanguagePercentages (text t))
                     (List.map ta_analysis (mapi_from F s tweets))).
    { rewrite Hmap. apply in_map_iff. exists t. auto. }
    apply in_map_iff in Hin'. destruct Hin' as (ta & Heq & Hin).
    exists ta. split; [exact Hin|]. rewrite Heq.
    apply raw_counts_none. exact Hn.
Qed.

Lemma mixed_positions (host : Host) (tweets : list Tweet) (s : nat) :
  List.map ta_index
    (List.filter (fun t => is_mixed (ta_analysis t))
       (mapi_from
          (fun tweet index =>
             {| ta_index := Z.of_nat index;
                ta_text := text tweet;
                ta_analysis := detectLanguagePercentages (text tweet) |})
          s tweets))
  = positionsFrom
      (fun t => is_mixed (detectLanguagePercentages (text t))) s tweets.
Proof.
  revert s. induction tweets as [|t l IH]; intros s; cbn [mapi_from
    List.filter positionsFrom List.map]; [reflexivity|].
  cbn [ta_analysis].
  destruct (is_mixed (detectLanguagePercentages (text t)));
    cbn [List.map ta_index]; now rewrite IH.
Qed.

(** X4: [analyzeThreadLanguage] throws exactly when some tweet of the
    thread has no letter at all in its text (an empty text, digits,
    punctuation or emojis only).  The analysis of such a text is the early
    result without [raw_counts], and the sums over the thread read
    [raw_counts.arabic] of every tweet. *)
Theorem analyzeThreadLanguage_throws (host : Host) (tweets : list Tweet) :
  (exists e, analyzeThreadLanguage tweets = Throw e)
  <-> exists t, In t tweets /\ removeNonLetters (text t) = [].
Proof.
  destruct tweets as [|t0 l0].
  - cbn. split; [intros [e H]; discriminate H|intros (t & [] & _)].
  - remember (t0 :: l0) as tweets eqn:Etw.
    rewrite <- (@exists_letterless host tweets O).
    rewrite <- (sumRawCounts_throws raw_arabic (js "arabic") _ 0).
    unfold analyzeThreadLanguage. rewrite Etw. rewrite <- Etw.
    unfold mapi.
    set (L := mapi_from _ O tweets).
    destruct (sumRawCounts raw_arabic (js "arabic") L 0) as [va|ea] eqn:Ea.
    + split; [|intros [e H]; discriminate H].
      intros [e H]. exfalso.
      destruct (sumRawCounts raw_english (js "english") L 0) as [ve|ee]
        eqn:Ee; [discriminate H|].
      assert (Hex : exists e', sumRawCounts raw_english (js "english") L 0
                               = Throw e') by (eexists; exact Ee).
      apply sumRawCounts_throws in Hex.
      apply (sumRawCounts_throws raw_arabic (js "arabic") L 0) in Hex.
      destruct Hex as [e' He']. congruence.
    + split; intros _; eexists; reflexivity.
Qed.

(** X5: when [analyzeThreadLanguage] returns, [mixed_tweets] lists the
    positions in the array, counted from 0, of the tweets whose own
    analysis is mixed, in order (not the [index] fields of the tweets,
    which the generator counts from 1), and the thread is reported
    consistent exactly when that list is empty. *)
Theorem analyzeThreadLanguage_mixed_tweets (host : Host)
    (tweets : list Tweet) (r : ThreadAnalysis) :
  analyzeThreadLanguage tweets = Normal r ->
  mixed_tweets r
  = positions (fun t => is_mixed (detectLanguagePercentages (text t))) tweets
  /\ (is_consistent r = true <-> mixed_tweets r = []).
Proof.
  destruct tweets as [|t0 l0].
  - cbn. intros H. injection H as <-. cbn. split; [reflexivity|tauto].
  - remember (t0 :: l0) as tweets eqn:Etw.
    unfold analyzeThreadLanguage. rewrite Etw. rewrite <- Etw.
    unfold mapi. set (L := mapi_from _ O tweets).
    destruct (sumRawCounts raw_arabic (js "arabic") L 0) as [va|ea];
      [|discriminate].
    destruct (sumRawCounts raw_english (js "english") L 0) as [ve|ee];
      [|discriminate].
    intros H. injection H as <-. cbn [mixed_tweets is_consistent].
    split.
    + apply mixed_positions.
    + unfold len. rewrite Z.eqb_eq.
      destruct (List.filter (fun t => is_mixed (ta_analysis t)) L);
        cbn; split; intros H; try reflexivity; try discriminate H; lia.
Qed.

Lemma analyzeThreadLanguage_mixed_tweets_witness :
  let tweets :=
    [plainTweet 1 (js "Hello") []; plainTweet 2 (js "Hello " ++ marhaba) []] in
  exists r,
    @analyzeThreadLanguage ReferenceHost.host tweets = Normal r
    /\ mixed_tweets r
       = positions
           (fun t => is_mixed (@detectLanguagePercentages ReferenceHost.host
                                 (text t))) tweets
    /\ (is_consistent r = true <-> mixed_tweets r = []).
Proof.
  cbv zeta. eexists. split; [vm_compute; reflexivity|].
  apply (@analyzeThreadLanguage_mixed_tweets ReferenceHost.host).
  vm_compute. reflexivity.
Defined.

(** A thread of an English tweet and a tweet of both languages: the
    second is reported, under its array position 1 and not under its
    [index] 2, and the thread is not consistent. *)
Example analyzeThreadLanguage_reports_second :
  match @analyzeThreadLanguage ReferenceHost.host
          [plainTweet 1 (js "Hello") [];
           plainTweet 2 (js "Hello " ++ marhaba) []] with
  | Normal r => mixed_tweets r = [1] /\ is_consistent r = false
  | Throw _ => False
  end.
Proof. vm_compute. split; reflexivity. Qed.

End ThreadLanguageFacts.

(** ** utils/dedupe.js: what the functions return *)

Module DedupeMoreFacts.
Import Dedupe JsStringFacts ListFacts DedupeFacts BalanceFacts.

Lemma filterBoolean_spec (l : list (option jsstring)) (y : jsstring) :
  In y (filterBoolean l) <-> In (Some y) l /\ y <> [].
Proof.
  induction l as [|[x|] l IH]; cbn [filterBoolean In].
  - tauto.
  - destruct (isEmpty x) eqn:E.
    + apply isEmpty_true in E. subst x. rewrite IH. split.
      * tauto.
      * intros [[H|H] Hy]; [congruence|tauto].
    + apply isEmpty_false in E. cbn [In]. rewrite IH. split.
      * intros [->|[H1 H2]]; tauto.
      * intros [[H|H] Hy]; [left; congruence|tauto].
  - rewrite IH. split; [tauto|]. intros [[H|H] Hy]; [discriminate|tauto].
Qed.

Lemma filterBoolean_length (l : list (option jsstring)) :
  (List.length (filterBoolean l) <= List.length l)%nat.
Proof.
  induction l as [|[x|] l IH]; cbn [filterBoolean List.length]; [lia| |lia].
  destruct (isEmpty x); cbn [List.length]; lia.
Qed.

Lemma normalizeTag_shape (host : Host) (tag x : jsstring) :
  normalizeTag tag = Some x -> exists body, x = 35%N :: body /\ body <> [].
Proof.
  unfold normalizeTag.
  destruct (isEmpty (toLowerCase (trim (stripLeadingHashes tag)))) eqn:E;
    [discriminate|].
  intros H. injection H as <-. eexists. split; [reflexivity|].
  apply isEmpty_false. exact E.
Qed.

(** X6: the result of [dedupeHashtags] has no duplicates, holds exactly
    the normal forms of the input entries that are not blank and have one
    (an entry made of [#] signs only has none), each of its elements is a
    [#] followed by at least one unit, and it is never longer than the
    input. *)
Theorem dedupeHashtags_spec (host : Host) (tags : list jsstring) :
  NoDup (dedupeHashtags tags)
  /\ (forall x, In x (dedupeHashtags tags)
                <-> exists tag, In tag tags /\ hasInk tag = true
                                /\ normalizeTag tag = Some x)
  /\ Forall (fun x => exists body, x = 35%N :: body /\ body <> [])
       (dedupeHashtags tags)
  /\ (List.length (dedupeHashtags tags) <= List.length tags)%nat.
Proof.
  assert (Hin : forall x, In x (dedupeHashtags tags)
                <-> exists tag, In tag tags /\ hasInk tag = true
                                /\ normalizeTag tag = Some x).
  { intros x. unfold dedupeHashtags.
    rewrite arrayFromSet_In, filterBoolean_spec, in_map_iff. split.
    - intros [(tag & Hn & Hf) _]. apply filter_In in Hf.
      destruct Hf as [Ht Hf]. exists tag. split; [exact Ht|].
      split; [|exact Hn]. apply negb_true_iff in Hf.
      destruct (hasInk tag) eqn:E; [reflexivity|].
      apply trim_nil_iff in E. rewrite E in Hf. discriminate Hf.
    - intros (tag & Ht & Hi & Hn). split.
      + exists tag. split; [exact Hn|]. apply filter_In.
        split; [exact Ht|]. apply negb_true_iff.
        destruct (trim tag) eqn:E; [|reflexivity].
        apply trim_nil_iff in E. congruence.
      + destruct (@normalizeTag_shape host tag x Hn) as (body & -> & _).
        discriminate. }
  split; [apply dedupeHashtags_NoDup|]. split; [exact Hin|]. split.
  - apply Forall_forall. intros x Hx. apply Hin in Hx.
    destruct Hx as (tag & _ & _ & Hn).
    apply (@normalizeTag_shape host tag x Hn).
  - unfold dedupeHashtags, arrayFromSet.
    eapply Nat.le_trans; [apply setInsertAll_length|].
    eapply Nat.le_trans; [apply filterBoolean_length|].
    rewrite length_map. apply filter_length_le.
Qed.


Lemma dedupeEmojis_In (emojis : list jsstring) (x : jsstring) :
  In x (dedupeEmojis emojis)
  <-> exists e, In e emojis /\ hasInk e = true /\ x = trim e.
Proof.
  unfold dedupeEmojis. rewrite arrayFromSet_In, in_map_iff. split.
  - intros (e & <- & Hin). apply filter_In in Hin. destruct Hin as [Hin Hf].
    exists e. split; [exact Hin|]. split; [|reflexivity].
    apply negb_true_iff in Hf.
    destruct (hasInk e) eqn:E; [reflexivity|].
    apply trim_nil_iff in E. rewrite E in Hf. discriminate Hf.
  - intros (e & Hin & Hi & ->). exists e. split; [reflexivity|].
    apply filter_In. split; [exact Hin|]. apply negb_true_iff.
    destruct (trim e) eqn:E; [|reflexivity].
    apply trim_nil_iff in E. congruence.
Qed.

(** X7: the result of [dedupeEmojis] has no duplicates, holds exactly
    the trimmed forms of the input entries that are not blank, each element
    is non-empty and free of white space at its ends, and it is never
    longer than the input. *)
Theorem dedupeEmojis_spec (emojis : list jsstring) :
  NoDup (dedupeEmojis emojis)
  /\ (forall x, In x (dedupeEmojis emojis)
                <-> exists e, In e emojis /\ hasInk e = true /\ x = trim e)
  /\ Forall goodText (dedupeEmojis emojis)
  /\ (List.length (dedupeEmojis emojis) <= List.length emojis)%nat.
Proof.
  split; [apply arrayFromSet_NoDup|]. split; [apply dedupeEmojis_In|]. split.
  - apply Forall_forall. intros x Hx. apply dedupeEmojis_In in Hx.
    destruct Hx as (e & _ & Hi & ->).
    apply SegmentFacts.trim_goodText. exact Hi.
  - unfold dedupeEmojis, arrayFromSet.
    eapply Nat.le_trans; [apply setInsertAll_length|].
    rewrite length_map. apply filter_length_le.
Qed.

(** *** The round-robin of [balanceHashtagsAcrossThread] *)

Lemma mod_shift_neq (n x k j : nat) :
  (k < j)%nat -> (j < k + n)%nat ->
  Nat.modulo (x + k) n <> Nat.modulo (x + j) n.
Proof.
  intros Hkj Hjn E.
  assert (Hn : n <> O) by lia.
  pose proof (Nat.div_mod (x + k) n Hn) as Hk.
  pose proof (Nat.div_mod (x + j) n Hn) as Hj.
  rewrite E in Hk.
  assert (Hd : (j - k = n * ((x + j) / n) - n * ((x + k) / n))%nat) by lia.
  rewrite <- Nat.mul_sub_distr_l in Hd.
  destruct ((x + j) / n - (x + k) / n)%nat as [|q]; nia.
Qed.

Lemma cyclic_length (pool : list jsstring) (start k : nat) :
  List.length (cyclic pool start k) = k.
Proof. unfold cyclic. now rewrite length_map, length_seq. Qed.

Lemma cyclic_S (pool : list jsstring) (start k : nat) :
  cyclic pool start (S k)
  = cyclic pool start k
    ++ [nth (Nat.modulo (start + k) (List.length pool)) pool []].
Proof. unfold cyclic. rewrite seq_S, map_app. reflexivity. Qed.

Lemma cyclic_In (pool : list jsstring) (start k : nat) (h : jsstring) :
  In h (cyclic pool start k)
  <-> exists j, (j < k)%nat
                /\ h = nth (Nat.modulo (start + j) (List.length pool)) pool [].
Proof.
  unfold cyclic. rewrite in_map_iff. split.
  - intros (j & <- & Hj). apply in_seq in Hj. exists j. split; [lia|reflexivity].
  - intros (j & Hj & ->). exists j. split; [reflexivity|]. apply in_seq. lia.
Qed.

Lemma cyclic_mod (pool : list jsstring) (start k : nat) :
  cyclic pool (Nat.modulo start (List.length pool)) k = cyclic pool start k.
Proof.
  unfold cyclic. apply map_ext. intros j.
  destruct (List.length pool) as [|n] eqn:E; [reflexivity|].
  rewrite Nat.Div0.add_mod_idemp_l. reflexivity.
Qed.

Lemma assignLoop_cyclic_from (pool : list jsstring) (m start : nat) :
  NoDup pool -> Forall (fun h => h <> []) pool -> pool <> [] ->
  forall steps j,
    (j + steps = m)%nat ->
    assignLoop pool m start steps j
      (cyclic pool start (Nat.min j (List.length pool)))
    = cyclic pool start (Nat.min m (List.length pool)).
Proof.
  intros Hnd Hne Hpool.
  set (n := List.length pool).
  assert (Hn : (0 < n)%nat).
  { unfold n. destruct pool; [congruence|cbn; lia]. }
  induction steps as [|steps IH]; intros j Hj; cbn [assignLoop].
  - replace j with m by lia. reflexivity.
  - rewrite cyclic_length.
    destruct (Nat.ltb_spec (Nat.min j n) m) as [_|Hge]; [|lia].
    fold n.
    set (h := nth (Nat.modulo (start + j) n) pool []).
    assert (Hidx : (Nat.modulo (start + j) n < n)%nat)
      by (apply Nat.mod_upper_bound; lia).
    assert (Hh : h <> []).
    { rewrite Forall_forall in Hne. apply Hne. apply nth_In. exact Hidx. }
    apply isEmpty_false in Hh. rewrite Hh. cbn [negb andb].
    destruct (Nat.lt_ge_cases j n) as [Hlt|Hge].
    + (* a fresh tag *)
      assert (Hnew : existsb (streq h) (cyclic pool start (Nat.min j n))
                     = false).
      { destruct (existsb _ _) eqn:E; [|reflexivity]. exfalso.
        apply existsb_streq in E. apply cyclic_In in E.
        destruct E as (k & Hk & Ek). fold n in Ek. unfold h in Ek.
        apply NoDup_nth in Ek; [|exact Hnd|exact Hidx|].
        * apply (@mod_shift_neq n start k j); lia.
        * apply Nat.mod_upper_bound. lia. }
      rewrite Hnew. cbn [negb].
      replace (Nat.min j n) with j by lia.
      rewrite <- cyclic_S. fold n.
      specialize (IH (S j)).
      replace (Nat.min (S j) n) with (S j) in IH by lia.
      apply IH. lia.
    + (* every tag of the pool is there already *)
      assert (Hold : existsb (streq h) (cyclic pool start (Nat.min j n))
                     = true).
      { apply existsb_streq. apply cyclic_In.
        exists (Nat.modulo j n). fold n. split.
        - replace (Nat.min j n) with n by lia.
          apply Nat.mod_upper_bound. lia.
        - unfold h. f_equal.
          rewrite Nat.Div0.add_mod_idemp_r. reflexivity. }
      rewrite Hold. cbn [negb].
      replace (Nat.min j n) with (Nat.min (S j) n) by lia.
      apply IH. lia.
Qed.

Lemma assignLoop_cyclic (pool : list jsstring) (m start : nat) :
  NoDup pool -> Forall (fun h => h <> []) pool -> pool <> [] ->
  assignLoop pool m start m O []
  = cyclic pool start (Nat.min m (List.length pool)).
Proof.
  intros Hnd Hne Hpool.
  apply (@assignLoop_cyclic_from pool m start Hnd Hne Hpool m O). lia.
Qed.

Lemma dedupeHashtags_nonempty (host : Host) (X : list jsstring) :
  Forall (fun h => h <> []) (dedupeHashtags X).
Proof.
  apply Forall_forall. intros x Hx.
  destruct (@dedupeHashtags_normalized host X x Hx) as [tag Ht].
  destruct (@normalizeTag_shape host tag x Ht) as (body & -> & _).
  discriminate.
Qed.

Lemma balance_mapi (host : Host) (tweets : list Tweet)
    (maxPerTweet : nat) :
  let pool := dedupeHashtags (List.concat (List.map hashtags tweets)) in
  balanceHashtagsAcrossThread tweets maxPerTweet
  = mapi
      (fun tweet index =>
         with_hashtags tweet
           (cyclic pool (index * maxPerTweet)
              (Nat.min maxPerTweet (List.length pool))))
      tweets.
Proof.
  intros pool. unfold balanceHashtagsAcrossThread.
  destruct tweets as [|t0 l0]; [reflexivity|].
  remember (t0 :: l0) as tweets eqn:Etw. fold pool.
  destruct pool as [|h0 p0] eqn:Epool.
  - unfold mapi. rewrite Nat.min_0_r.
    symmetry. apply (@mapi_from_const _ _ (fun t => with_hashtags t [])).
  - rewrite <- Epool. unfold mapi. apply mapi_from_ext. intros t i.
    f_equal. rewrite assignLoop_cyclic.
    + apply cyclic_mod.
    + apply dedupeHashtags_NoDup.
    + apply dedupeHashtags_nonempty.
    + rewrite Epool. discriminate.
Qed.

(** X8: [balanceHashtagsAcrossThread] gives the tweet at position [i]
    the [min maxPerTweet (size of the pool)] hashtags that follow position
    [i * maxPerTweet] in the deduplicated pool of the whole thread, wrapping
    around the pool; the hashtags a tweet had before play no other part. *)
Theorem balance_round_robin (host : Host) (tweets : list Tweet)
    (maxPerTweet : nat) :
  let pool := dedupeHashtags (List.concat (List.map hashtags tweets)) in
  balanceHashtagsAcrossThread tweets maxPerTweet
  = mapi
      (fun tweet index =>
         with_hashtags tweet
           (cyclic pool (index * maxPerTweet)
              (Nat.min maxPerTweet (List.length pool))))
      tweets.
Proof. apply balance_mapi. Qed.

Lemma cyclic_NoDup (pool : list jsstring) (start k : nat) :
  NoDup pool -> (k <= List.length pool)%nat -> NoDup (cyclic pool start k).
Proof.
  intros Hnd. induction k as [|k IH]; intros Hk; [constructor|].
  rewrite cyclic_S. apply NoDup_app.
  - apply IH. lia.
  - repeat constructor. intros [].
  - intros h Hin [<-|[]]. apply cyclic_In in Hin.
    destruct Hin as (j & Hj & E).
    apply NoDup_nth in E; [|exact Hnd| |]; try (apply Nat.mod_upper_bound; lia).
    apply (@mod_shift_neq (List.length pool) start j k); [lia|lia|].
    symmetry. exact E.
Qed.


(** *** Hashtags in a text *)

(** What the hashtag pattern matches: a [#] and at least one hashtag
    unit. *)
Lemma emitHashtag_shape (cur : option jsstring) :
  (forall b, cur = Some b -> forallb isHashtagUnit b = true) ->
  Forall (fun m => exists body, m = 35%N :: body /\ body <> []
                                /\ forallb isHashtagUnit body = true)
    (emitHashtag cur).
Proof.
  intros H. destruct cur as [[|c b]|]; cbn [emitHashtag]; constructor;
    [|constructor].
  exists (rev (c :: b)). split; [reflexivity|]. split.
  - cbn [rev]. intros E. apply app_eq_nil in E. destruct E; discriminate.
  - rewrite forallb_rev. apply H. reflexivity.
Qed.

Lemma hashtagMatches_shape (s : jsstring) (cur : option jsstring) :
  (forall b, cur = Some b -> forallb isHashtagUnit b = true) ->
  Forall (fun m => exists body, m = 35%N :: body /\ body <> []
                                /\ forallb isHashtagUnit body = true)
    (hashtagMatches s cur).
Proof.
  revert cur. induction s as [|c s IH]; intros cur H; cbn [hashtagMatches].
  - apply emitHashtag_shape, H.
  - assert (Hnext : forall b,
              (if (c =? 35)%N then Some [] else None) = Some b ->
              forallb isHashtagUnit b = true).
    { intros b. destruct (c =? 35)%N; [|discriminate].
      intros E. injection E as <-. reflexivity. }
    destruct cur as [body|].
    + destruct (isHashtagUnit c) eqn:Ec.
      * apply IH. intros b E. injection E as <-. cbn [forallb].
        rewrite Ec. apply H. reflexivity.
      * apply Forall_app. split; [apply emitHashtag_shape, H|].
        apply IH, Hnext.
    + apply IH, Hnext.
Qed.

Lemma isValidHashtag_shape (body : jsstring) :
  body <> [] -> forallb isHashtagUnit body = true ->
  isValidHashtag (35%N :: body) = (len (35%N :: body) <=? 100).
Proof.
  intros Hne Hall. unfold isValidHashtag.
  apply isEmpty_false in Hne. rewrite N.eqb_refl, Hne, Hall. cbn [negb andb].
  assert (Hlen : 1 < len (35%N :: body)).
  { unfold len. destruct body; [discriminate|]. cbn [List.length]. lia. }
  apply Z.gtb_lt in Hlen. unfold codeunit in *. rewrite Hlen. reflexivity.
Qed.

Lemma hashtagMatches_run (body acc : jsstring) :
  forallb isHashtagUnit body = true ->
  hashtagMatches body (Some acc) = emitHashtag (Some (rev body ++ acc)).
Proof.
  revert acc. induction body as [|c body IH]; intros acc H;
    cbn [hashtagMatches]; [reflexivity|].
  cbn [forallb] in H. apply andb_true_iff in H. destruct H as [Hc Hb].
  rewrite Hc, (IH _ Hb). cbn [rev]. now rewrite <- app_assoc.
Qed.

(** X9: [isValidHashtag] and the hashtag pattern of
    [extractHashtagsFromText] agree: every match of the pattern in any text
    is a valid hashtag unless it is longer than 100 units, and a valid
    hashtag is matched as a whole, so that extracting from it gives the same
    as deduplicating it alone. *)
Theorem valid_hashtags_are_what_is_matched (host : Host) :
  (forall text,
     Forall (fun m => isValidHashtag m = (len m <=? 100))
       (hashtagMatches text None))
  /\ (forall tag,
        isValidHashtag tag = true ->
        hashtagMatches tag None = [tag]
        /\ extractHashtagsFromText tag = dedupeHashtags [tag]).
Proof.
  split.
  - intros text.
    assert (H := @hashtagMatches_shape text None).
    eapply Forall_impl; [|apply H; discriminate].
    intros m (body & -> & Hne & Hall). now apply isValidHashtag_shape.
  - intros tag Hv.
    assert (Hm : hashtagMatches tag None = [tag]).
    { destruct tag as [|c body]; [discriminate Hv|].
      unfold isValidHashtag in Hv.
      repeat (apply andb_true_iff in Hv; destruct Hv as [Hv ?]).
      apply N.eqb_eq in Hv. subst c.
      cbn [hashtagMatches]. rewrite N.eqb_refl.
      rewrite hashtagMatches_run by assumption. rewrite app_nil_r.
      destruct (rev body) as [|c b] eqn:E.
      - apply (f_equal (@rev _)) in E. rewrite rev_involutive in E.
        subst body. discriminate.
      - cbn [emitHashtag]. rewrite <- E, rev_involutive. reflexivity. }
    split; [exact Hm|].
    unfold extractHashtagsFromText. rewrite Hm.
    destruct tag; [discriminate Hv|reflexivity].
Qed.

(** *** White space after [removeHashtagsAndEmojis] *)

Lemma wellSpaced_weaken (s : jsstring) :
  wellSpaced true s = true -> wellSpaced false s = true.
Proof.
  destruct s as [|c s]; cbn [wellSpaced]; [reflexivity|].
  destruct (isWhiteSpace c); [discriminate|tauto].
Qed.

Lemma collapseWhiteSpace_wellSpaced (s : jsstring) (inRun : bool) :
  wellSpaced inRun (collapseWhiteSpace s inRun) = true.
Proof.
  revert inRun. induction s as [|c s IH]; intros inRun;
    cbn [collapseWhiteSpace]; [reflexivity|].
  destruct (isWhiteSpace c) eqn:Ec.
  - destruct inRun; [apply IH|].
    cbn [wellSpaced]. change (isWhiteSpace 32%N) with true.
    cbn [negb andb]. rewrite N.eqb_refl. apply IH.
  - cbn [wellSpaced]. rewrite Ec. apply IH.
Qed.

Lemma wellSpaced_suffix (l s : jsstring) (b : bool) :
  wellSpaced b (l ++ s) = true -> wellSpaced false s = true.
Proof.
  revert b. induction l as [|c l IH]; intros b; cbn [app].
  - destruct b; [apply wellSpaced_weaken|tauto].
  - cbn [wellSpaced]. destruct (isWhiteSpace c).
    + intros H. apply andb_true_iff in H. destruct H as [_ H].
      apply (IH _ H).
    + apply IH.
Qed.

Lemma wellSpaced_prefix (s r : jsstring) (b : bool) :
  wellSpaced b (s ++ r) = true -> wellSpaced b s = true.
Proof.
  revert b. induction s as [|c s IH]; intros b; cbn [app wellSpaced];
    [reflexivity|].
  destruct (isWhiteSpace c).
  - intros H. apply andb_true_iff in H. destruct H as [H1 H2].
    rewrite H1. apply (IH _ H2).
  - apply IH.
Qed.

Lemma wellSpaced_spaces (s : jsstring) (b : bool) :
  wellSpaced b s = true ->
  Forall (fun c => isWhiteSpace c = true -> c = 32%N) s.
Proof.
  revert b. induction s as [|c s IH]; intros b; cbn [wellSpaced];
    [constructor|].
  destruct (isWhiteSpace c) eqn:Ec.
  - intros H. apply andb_true_iff in H. destruct H as [H1 H2].
    apply andb_true_iff in H1. destruct H1 as [_ H1].
    apply N.eqb_eq in H1. constructor; [auto|apply (IH _ H2)].
  - intros H. constructor; [congruence|apply (IH _ H)].
Qed.

Lemma trim_infix (s : jsstring) : exists l r, s = l ++ trim s ++ r.
Proof.
  unfold trim, trimEnd, trimStart.
  destruct (dropWhile_suffix isWhiteSpace s) as (l & Hl & _).
  destruct (dropWhile_suffix isWhiteSpace (rev (dropWhile isWhiteSpace s)))
    as (r & Hr & _).
  exists l, (rev r). rewrite Hl at 1. f_equal.
  rewrite <- (rev_involutive (dropWhile isWhiteSpace s)) at 1.
  rewrite Hr at 1. rewrite rev_app_distr. reflexivity.
Qed.

(** X10: the text returned by [removeHashtagsAndEmojis] has no white
    space at its ends, and its only white space is single space characters:
    no tab or line break survives and no two spaces are adjacent. *)
Theorem removeHashtagsAndEmojis_singleSpaced (text : jsstring) :
  singleSpaced (removeHashtagsAndEmojis text).
Proof.
  unfold removeHashtagsAndEmojis.
  destruct (isEmpty text).
  { split; [split; reflexivity|]. split; [constructor|].
    intros [|? ?] ? ? ? E; discriminate E. }
  set (c := collapseWhiteSpace _ false).
  assert (Hw : wellSpaced false (trim c) = true).
  { destruct (trim_infix c) as (l & r & E).
    assert (H := collapseWhiteSpace_wellSpaced
                   (removeEmojis (removeHashtags text false)) false).
    fold c in H. rewrite E in H.
    apply wellSpaced_suffix in H. apply wellSpaced_prefix in H. exact H. }
  split; [apply trim_trimmed|]. split.
  - apply (wellSpaced_spaces _ _ Hw).
  - intros l1 a b l2 E Ha. rewrite E in Hw.
    apply wellSpaced_suffix in Hw. cbn [wellSpaced] in Hw.
    rewrite Ha in Hw. destruct (isWhiteSpace b); [|reflexivity].
    rewrite !andb_false_r in Hw. cbn in Hw.
    rewrite ?andb_false_r in Hw. discriminate Hw.
Qed.

End DedupeMoreFacts.

(** ** utils/charCounter.js: truncation and analysis *)

Module TruncateFacts.
Import CharCounter Dedupe JsStringFacts ListFacts DedupeMoreFacts.

Lemma getCharCount_text (host : Host) (text : jsstring) :
  getCharCount text [] None
  = if isEmpty text then 0 else len (splitGraphemes text).
Proof. reflexivity. Qed.

Lemma accumulate_fits (host : Host) (sep : jsstring) (availableSpace : Z)
    (parts : list jsstring) (truncated : jsstring) :
  getCharCount truncated [] None <= availableSpace ->
  getCharCount (accumulate sep availableSpace parts truncated) [] None
  <= availableSpace.
Proof.
  revert truncated. induction parts as [|part rest IH]; intros truncated H;
    cbn [accumulate]; [exact H|].
  match goal with
  | |- context [if ?b <=? _ then _ else _] =>
      destruct (Z.leb_spec b availableSpace) as [Hfit|Hover]
  end.
  - apply IH. exact Hfit.
  - exact H.
Qed.

(** X11: what [truncateSmart] returns is of one of three kinds: the empty
    string; a text whose own grapheme count is within the space left after
    the hashtags and the call to action are reserved; or the hard cut, the
    first [availableSpace - 3] graphemes of the text followed by three
    dots. *)
Theorem truncateSmart_fits_or_cut (host : Host) (text : jsstring)
    (maxLength : Z) (hashtags : list jsstring) (cta : option jsstring) :
  let availableSpace := maxLength - hashtagSpace hashtags - ctaSpace cta in
  let result := truncateSmart text maxLength hashtags cta in
  result = []
  \/ getCharCount result [] None <= availableSpace
  \/ result
     = List.concat (slice 0 (availableSpace - 3) (splitGraphemes text))
         ++ js "...".
Proof.
  intros availableSpace result. unfold result, truncateSmart.
  fold availableSpace.
  destruct (isEmpty text); [left; reflexivity|].
  destruct (Z.leb_spec availableSpace 0) as [Hno|Hroom]; [left; reflexivity|].
  destruct (Z.leb_spec (getCharCount text [] None) availableSpace)
    as [Hfit|Hlong]; [right; left; exact Hfit|].
  assert (H0 : getCharCount [] [] None <= availableSpace) by (cbn; lia).
  destruct (2 * len (accumulate (js " ") availableSpace
                       (split wsRun text) []) >? availableSpace).
  { right; left. apply accumulate_fits. exact H0. }
  destruct (isEmpty (accumulate (js ". ") availableSpace
                       (split sentenceEnd text) [])
            || (10 * len (accumulate (js ". ") availableSpace
                            (split sentenceEnd text) [])
                <? 3 * availableSpace)).
  - right; right. reflexivity.
  - right; left. apply accumulate_fits. exact H0.
Qed.

(** Code points and their units. *)
Lemma codePoints_cons (h : codeunit) (s : jsstring) :
  codePoints (h :: s)
  = match s with
    | l :: s'' =>
        if isHighSurrogate h && isLowSurrogate l
        then ((0x10000 + (h - 0xd800) * 0x400 + (l - 0xdc00))%N, [h; l])
               :: codePoints s''
        else (h, [h]) :: codePoints s
    | [] => [(h, [h])]
    end.
Proof. destruct s; reflexivity. Qed.

Lemma codePoints_ind (P : jsstring -> Prop) :
  P [] ->
  (forall h, P [h]) ->
  (forall h l s, isHighSurrogate h && isLowSurrogate l = true ->
     P s -> P (h :: l :: s)) ->
  (forall h l s, isHighSurrogate h && isLowSurrogate l = false ->
     P (l :: s) -> P (h :: l :: s)) ->
  forall s, P s.
Proof.
  intros H0 H1 Hp Hs s.
  assert (H : forall n s, (List.length s <= n)%nat -> P s).
  { induction n as [|n IH]; intros s' Hlen.
    - destruct s'; [exact H0|cbn in Hlen; lia].
    - destruct s' as [|h [|l s'']]; [exact H0|apply H1|].
      destruct (isHighSurrogate h && isLowSurrogate l) eqn:E.
      + apply Hp; [exact E|]. apply IH. cbn in Hlen. lia.
      + apply Hs; [exact E|]. apply IH. cbn in Hlen |- *. lia. }
  apply (H (List.length s)). lia.
Qed.

Lemma isWhiteSpace_high (h : codeunit) :
  isHighSurrogate h = true -> isWhiteSpace h = false.
Proof.
  intros H. unfold isHighSurrogate in H.
  apply andb_true_iff in H. destruct H as [H1 H2].
  apply N.leb_le in H1, H2.
  destruct (isWhiteSpace h) eqn:E; [exfalso|reflexivity].
  unfold isWhiteSpace in E.
  repeat (rewrite orb_true_iff in E || rewrite andb_true_iff in E
          || rewrite N.leb_le in E || rewrite N.eqb_eq in E). lia.
Qed.

Lemma isWhiteSpace_emoji (c : N) :
  isEmojiCodePoint c = true -> isWhiteSpace c = false.
Proof.
  intros H. unfold isEmojiCodePoint in H.
  repeat (rewrite orb_true_iff in H || rewrite andb_true_iff in H
          || rewrite N.leb_le in H || rewrite N.eqb_eq in H).
  destruct (isWhiteSpace c) eqn:E; [exfalso|reflexivity].
  unfold isWhiteSpace in E.
  repeat (rewrite orb_true_iff in E || rewrite andb_true_iff in E
          || rewrite N.leb_le in E || rewrite N.eqb_eq in E). lia.
Qed.

(** The units that spell an emoji code point are not white space. *)
Lemma codePoints_emoji_inked (s : jsstring) (cp : N * jsstring) :
  In cp (codePoints s) -> isEmojiCodePoint (fst cp) = true ->
  hasInk (snd cp) = true.
Proof.
  induction s as [| h | h l s Hpair IH | h l s Hpair IH] using codePoints_ind.
  - intros [].
  - cbn. intros [<-|[]] H. cbn [snd fst hasInk existsb] in *.
    rewrite (isWhiteSpace_emoji _ H). reflexivity.
  - rewrite codePoints_cons, Hpair. intros [<-|Hin] H; [|auto].
    cbn [snd hasInk existsb]. apply andb_true_iff in Hpair.
    rewrite (isWhiteSpace_high _ (proj1 Hpair)). reflexivity.
  - rewrite codePoints_cons, Hpair. intros [<-|Hin] H; [|auto].
    cbn [snd fst hasInk existsb] in *.
    rewrite (isWhiteSpace_emoji _ H). reflexivity.
Qed.

Lemma pictograph_is_emoji (c : N) :
  isPictograph c = true -> isEmojiCodePoint c = true.
Proof.
  unfold isPictograph, isEmojiCodePoint. intros H.
  repeat (rewrite orb_true_iff in H || rewrite andb_true_iff in H
          || rewrite N.leb_le in H).
  repeat (rewrite orb_true_iff || rewrite andb_true_iff
          || rewrite N.leb_le). lia.
Qed.

(** X12: [analyzeText] and [extractEmojisFromText] are consistent: when
    the analysis of a text reports [hasEmoji], extracting the emojis of the
    same text gives at least one. *)
Theorem hasEmoji_extractEmojis (host : Host) (text : jsstring) :
  hasEmoji (analyzeText text) = true -> extractEmojisFromText text <> [].
Proof.
  unfold analyzeText, extractEmojisFromText.
  destruct (isEmpty text); [discriminate|]. cbn [hasEmoji].
  intros H. apply existsb_exists in H. destruct H as (cp & Hin & Hp).
  apply pictograph_is_emoji in Hp.
  assert (Hx : In (trim (snd cp)) (dedupeEmojis (emojiMatches text))).
  { apply dedupeEmojis_In. exists (snd cp). split; [|split].
    - unfold emojiMatches. apply in_map. apply filter_In. auto.
    - apply (codePoints_emoji_inked text cp Hin Hp).
    - reflexivity. }
  intros E. rewrite E in Hx. exact Hx.
Qed.

Lemma hasEmoji_extractEmojis_witness :
  hasEmoji (@analyzeText ReferenceHost.host (js "Go " ++ rocket)) = true
  /\ extractEmojisFromText (js "Go " ++ rocket) <> [].
Proof.
  split; [reflexivity|].
  apply (@hasEmoji_extractEmojis ReferenceHost.host). reflexivity.
Defined.

End TruncateFacts.

(** ** services/hashtagGenerator.js: hashtags across a thread *)

Module HashtagMoreFacts.
Import LangDetect HashtagGenerator JsStringFacts ListFacts RebalanceFacts.

Lemma setHas_true (used : list jsstring) (tag : jsstring) :
  setHas used tag = true <-> In tag used.
Proof. unfold setHas. apply existsb_streq. Qed.

Lemma setHas_false (used : list jsstring) (tag : jsstring) :
  setHas used tag = false <-> ~ In tag used.
Proof.
  rewrite <- setHas_true. destruct (setHas used tag); split; congruence.
Qed.

Lemma setAdd_In (used : list jsstring) (tag h : jsstring) :
  In h (setAdd used tag) <-> In h used \/ h = tag.
Proof.
  unfold setAdd. destruct (setHas used tag) eqn:E.
  - apply setHas_true in E. split; [auto|]. intros [H| ->]; assumption.
  - rewrite in_app_iff. cbn [In]. split; intros [H|H]; auto.
    + destruct H as [<-|[]]. auto.
Qed.

Lemma fold_setAdd_In (l used : list jsstring) (h : jsstring) :
  In h (fold_left setAdd l used) <-> In h used \/ In h l.
Proof.
  revert used. induction l as [|x l IH]; intros used; cbn [fold_left In].
  - tauto.
  - rewrite IH, setAdd_In. split; intros H; intuition auto.
Qed.

Lemma In_slice (A : Type) (a b : Z) (l : list A) (x : A) :
  In x (slice a b l) -> In x l.
Proof.
  intros H.
  assert (HF : Forall (fun y => In y l) (slice a b l)).
  { apply Forall_slice. apply Forall_forall. auto. }
  rewrite Forall_forall in HF. auto.
Qed.

Lemma slice_0_bound (A : Type) (k : Z) (l : list A) :
  0 <= k -> len (slice 0 k l) <= k.
Proof.
  intros Hk. rewrite slice_0_length by assumption. lia.
Qed.

Lemma fillGeneral_In (fuel : nat) (generalHashtags used : list jsstring)
    (maxHashtags : Z) (hashtags : list jsstring) (h : jsstring) :
  In h (fillGeneral fuel generalHashtags used maxHashtags hashtags) ->
  In h hashtags \/ (In h generalHashtags /\ ~ In h used).
Proof.
  revert hashtags. induction fuel as [|fuel IH]; intros hashtags;
    cbn [fillGeneral]; [auto|].
  destruct (len hashtags <? maxHashtags); [|auto].
  destruct (List.filter _ generalHashtags) as [|tag rest] eqn:E; [auto|].
  intros H. apply IH in H. destruct H as [H|H]; [|auto].
  apply in_app_iff in H. destruct H as [H|[<-|[]]]; [auto|].
  right.
  assert (Hin : In tag (tag :: rest)) by (left; reflexivity).
  rewrite <- E in Hin. apply filter_In in Hin. destruct Hin as [Hg Hp].
  apply andb_true_iff in Hp. destruct Hp as [_ Hp].
  apply negb_true_iff, setHas_false in Hp. auto.
Qed.

Lemma fillGeneral_head (fuel : nat) (generalHashtags used : list jsstring)
    (maxHashtags : Z) (hashtags : list jsstring) :
  exists more,
    fillGeneral fuel generalHashtags used maxHashtags hashtags
    = hashtags ++ more.
Proof.
  revert hashtags. induction fuel as [|fuel IH]; intros hashtags;
    cbn [fillGeneral].
  - exists []. now rewrite app_nil_r.
  - destruct (len hashtags <? maxHashtags);
      [|exists []; now rewrite app_nil_r].
    destruct (List.filter _ generalHashtags) as [|tag rest];
      [exists []; now rewrite app_nil_r|].
    destruct (IH (hashtags ++ [tag])) as [more ->].
    exists (tag :: more). now rewrite <- app_assoc.
Qed.

(** The hashtags collected before the final [slice], and the thread
    hashtag of the text. *)
Lemma generateTweetHashtags_parts (host : Host) (text : jsstring)
    (options : Options) (usedHashtags : list jsstring) :
  exists hashtags,
    generateTweetHashtags text options usedHashtags
    = (slice 0 (maxHashtags options) hashtags,
       fold_left setAdd hashtags usedHashtags)
    /\ (forall h, In h hashtags -> ~ In h usedHashtags)
    /\ (includeThreadHashtag options = true ->
        ~ In (js "#Thread") usedHashtags ->
        ~ In (nth 0 THREAD_HASHTAGS_arabic []) usedHashtags ->
        hd_error hashtags = Some (js "#Thread")
        \/ hd_error hashtags = Some (nth 0 THREAD_HASHTAGS_arabic [])).
Proof.
  unfold generateTweetHashtags.
  set (isArabicContent :=
         Qgtb (arabic_percent (detectLanguagePercentages text)) 30).
  set (topics := detectTopics text).
  set (englishCount := Qceiling _).
  set (availableEnglish := slice 0 englishCount _).
  set (h1 := if (isArabicContent || forceArabic options)
                && (maxHashtags options - englishCount >? 0)
             then _ else availableEnglish).
  set (threadHashtag :=
         if isArabicContent then nth 0 THREAD_HASHTAGS_arabic []
         else nth 0 THREAD_HASHTAGS_english []).
  set (h2 := if includeThreadHashtag options then _ else h1).
  set (generalHashtags :=
         if isArabicContent then HASHTAG_DICTIONARY_arabic general
         else HASHTAG_DICTIONARY_english general).
  eexists. split; [reflexivity|].
  assert (Hfilter : forall l n h,
            In h (slice 0 n
                    (List.filter
                       (fun tag => negb (setHas usedHashtags tag)) l)) ->
            ~ In h usedHashtags).
  { intros l n h H. apply In_slice, filter_In in H.
    destruct H as [_ H]. apply negb_true_iff, setHas_false in H. exact H. }
  assert (H1 : forall h, In h h1 -> ~ In h usedHashtags).
  { intros h. unfold h1.
    destruct ((isArabicContent || forceArabic options)
              && (maxHashtags options - englishCount >? 0)).
    - rewrite in_app_iff. intros [H|H]; eapply Hfilter; exact H.
    - apply Hfilter. }
  assert (H2 : forall h, In h h2 -> ~ In h usedHashtags).
  { intros h. unfold h2. destruct (includeThreadHashtag options); [|apply H1].
    destruct (setHas usedHashtags threadHashtag) eqn:E; cbn [negb];
      [apply H1|].
    intros [<-|H]; [apply setHas_false, E|apply H1, H]. }
  split.
  - intros h H. apply fillGeneral_In in H. destruct H as [H|[_ H]];
      [apply H2, H|exact H].
  - intros Hinc Hen Har.
    destruct (fillGeneral_head (S (List.length generalHashtags))
                generalHashtags usedHashtags (maxHashtags options) h2)
      as [more ->].
    unfold h2. rewrite Hinc.
    assert (Hth : ~ In threadHashtag usedHashtags).
    { unfold threadHashtag. destruct isArabicContent; assumption. }
    apply setHas_false in Hth. rewrite Hth. cbn [negb app hd_error].
    unfold threadHashtag. destruct isArabicContent; [right|left]; reflexivity.
Qed.

Lemma generateTweetHashtags_contract (host : Host) (text : jsstring)
    (options : Options) (usedHashtags : list jsstring) :
  let r := generateTweetHashtags text options usedHashtags in
  (forall h, In h (fst r) -> ~ In h usedHashtags /\ In h (snd r))
  /\ (forall h, In h usedHashtags -> In h (snd r))
  /\ (0 <= maxHashtags options -> len (fst r) <= maxHashtags options).
Proof.
  destruct (@generateTweetHashtags_parts host text options usedHashtags)
    as (hashtags & -> & Hfresh & _).
  cbn [fst snd]. split; [|split].
  - intros h H. apply In_slice in H. split; [apply Hfresh, H|].
    apply fold_setAdd_In. auto.
  - intros h H. apply fold_setAdd_In. auto.
  - apply slice_0_bound.
Qed.

(** X13: [generateTweetHashtags] returns only hashtags that were not
    used before the call, records each returned hashtag as used, forgets no
    used hashtag, and returns at most [maxHashtags] of them (for a
    non-negative [maxHashtags]). *)
Theorem generateTweetHashtags_fresh (host : Host) (text : jsstring)
    (options : Options) (usedHashtags : list jsstring) :
  let r := generateTweetHashtags text options usedHashtags in
  (forall h, In h (fst r) -> ~ In h usedHashtags /\ In h (snd r))
  /\ (forall h, In h usedHashtags -> In h (snd r))
  /\ (0 <= maxHashtags options -> len (fst r) <= maxHashtags options).
Proof. apply generateTweetHashtags_contract. Qed.


Lemma threadHashtagsFrom_fresh (host : Host) (options : Options)
    (total : nat) (thread : list Tweet) :
  forall index used t h,
    In t (threadHashtagsFrom options total index used thread) ->
    In h (hashtags t) -> ~ In h used.
Proof.
  induction thread as [|t0 rest IH]; intros index used t h;
    cbn [threadHashtagsFrom]; [intros []|].
  set (tweetOptions := {| maxHashtags := _ |}).
  destruct (@generateTweetHashtags_contract host (text t0) tweetOptions used)
    as (Hfresh & Hmono & _).
  intros [<-|Hin] Hh.
  - cbn [hashtags with_hashtags] in Hh. apply (Hfresh h Hh).
  - intros Hu. apply (IH _ _ _ _ Hin Hh). apply Hmono, Hu.
Qed.

Lemma threadHashtagsFrom_noShared (host : Host) (options : Options)
    (total : nat) (thread : list Tweet) :
  forall index used,
    noSharedHashtag (threadHashtagsFrom options total index used thread).
Proof.
  induction thread as [|t0 rest IH]; intros index used;
    cbn [threadHashtagsFrom].
  - intros [|i] j ti tj h _ H; discriminate H.
  - set (tweetOptions := {| maxHashtags := _ |}).
    destruct (@generateTweetHashtags_contract host (text t0) tweetOptions used)
      as (Hfresh & _ & _).
    intros [|i] [|j] ti tj h Hij Hi Hj Hh; cbn [nth_error] in Hi, Hj.
    + congruence.
    + injection Hi as <-. cbn [hashtags with_hashtags] in Hh.
      intros Hh'. apply nth_error_In in Hj.
      apply (@threadHashtagsFrom_fresh host options total rest _ _ tj h Hj
               Hh').
      apply (Hfresh h Hh).
    + injection Hj as <-. cbn [hashtags with_hashtags].
      intros Hh'. apply nth_error_In in Hi.
      apply (@threadHashtagsFrom_fresh host options total rest _ _ ti h Hi
               Hh).
      apply (Hfresh h Hh').
    + refine (IH _ _ i j ti tj h _ Hi Hj Hh). congruence.
Qed.

(** X14: in the thread returned by [generateThreadHashtags], no hashtag
    is given to two different tweets, whatever the texts and the options. *)
Theorem generateThreadHashtags_no_shared_hashtag (host : Host)
    (thread : list Tweet) (options : Options) :
  noSharedHashtag (generateThreadHashtags thread options).
Proof.
  exact (@threadHashtagsFrom_noShared host options (List.length thread)
           thread O []).
Qed.

Lemma threadHashtagsFrom_same (host : Host) (options : Options)
    (total : nat) (thread : list Tweet) :
  forall index used,
    Forall2 sameExceptHashtags thread
      (threadHashtagsFrom options total index used thread).
Proof.
  induction thread as [|t0 rest IH]; intros index used;
    cbn [threadHashtagsFrom]; constructor; [|apply IH].
  repeat split; reflexivity.
Qed.

Lemma threadHashtagsFrom_cons (host : Host) (options : Options)
    (total index : nat) (used : list jsstring) (tweet : Tweet)
    (rest : list Tweet) :
  threadHashtagsFrom options total index used (tweet :: rest)
  = let tweetOptions :=
      {| maxHashtags := if (S index =? total)%nat then 4 else 3;
         englishRatio := englishRatio options;
         includeThreadHashtag := (index =? 0)%nat;
         forceArabic := forceArabic options |} in
    let r := generateTweetHashtags (text tweet) tweetOptions used in
    with_hashtags tweet (fst r)
      :: threadHashtagsFrom options total (S index) (snd r) rest.
Proof. reflexivity. Qed.

Lemma threadHashtagsFrom_count (host : Host) (options : Options)
    (total : nat) (thread : list Tweet) :
  forall index used i t,
    nth_error (threadHashtagsFrom options total index used thread) i
    = Some t ->
    len (hashtags t) <= (if (S (index + i) =? total)%nat then 4 else 3).
Proof.
  induction thread as [|t0 rest IH]; intros index used i t;
    [destruct i; discriminate|].
  rewrite threadHashtagsFrom_cons. cbv zeta.
  set (tweetOptions := {| maxHashtags := _ |}).
  assert (Hmax : maxHashtags tweetOptions
                 = if (S index =? total)%nat then 4 else 3) by reflexivity.
  clearbody tweetOptions.
  destruct i as [|i]; cbn [nth_error].
  - intros H. injection H as <-. cbn [hashtags with_hashtags].
    destruct (@generateTweetHashtags_contract host (text t0) tweetOptions used)
      as (_ & _ & Hlen).
    rewrite Nat.add_0_r. rewrite Hmax in Hlen.
    destruct (S index =? total)%nat; apply Hlen; lia.
  - intros H. apply IH in H.
    replace (S (index + S i)) with (S (S index + i)) by lia. exact H.
Qed.

Lemma hd_error_slice (A : Type) (k : Z) (l : list A) :
  1 <= k -> hd_error (slice 0 k l) = hd_error l.
Proof.
  intros Hk. rewrite slice_0 by lia.
  destruct (Z.to_nat k) as [|n] eqn:E; [lia|].
  destruct l; reflexivity.
Qed.

(** X15: [generateThreadHashtags] changes nothing but the hashtags of the
    tweets; a tweet gets at most 3 hashtags, the last one at most 4; and the
    first hashtag of the first tweet is the thread hashtag, the English or
    the Arabic one. *)
Theorem generateThreadHashtags_counts (host : Host) (thread : list Tweet)
    (options : Options) :
  let r := generateThreadHashtags thread options in
  Forall2 sameExceptHashtags thread r
  /\ (forall i t,
        nth_error r i = Some t ->
        len (hashtags t)
        <= (if (S i =? List.length thread)%nat then 4 else 3))
  /\ (forall t,
        nth_error r 0 = Some t ->
        hd_error (hashtags t) = Some (js "#Thread")
        \/ hd_error (hashtags t) = Some (nth 0 THREAD_HASHTAGS_arabic [])).
Proof.
  intros r. unfold r, generateThreadHashtags. split; [|split].
  - apply threadHashtagsFrom_same.
  - intros i t H. apply threadHashtagsFrom_count in H. exact H.
  - destruct thread as [|t0 rest]; [discriminate|].
    rewrite threadHashtagsFrom_cons. cbv zeta.
    set (tweetOptions :=
           {| maxHashtags :=
                if (1 =? List.length (t0 :: rest))%nat then 4 else 3;
              englishRatio := englishRatio options;
              includeThreadHashtag := (0 =? 0)%nat;
              forceArabic := forceArabic options |}).
    assert (Hmax : 1 <= maxHashtags tweetOptions).
    { cbn [maxHashtags tweetOptions].
      destruct (1 =? List.length (t0 :: rest))%nat; lia. }
    assert (Hinc : includeThreadHashtag tweetOptions = true) by reflexivity.
    clearbody tweetOptions.
    intros t H. apply nth_error_head in H. subst t.
    rewrite hashtags_with_hashtags.
    destruct (@generateTweetHashtags_parts host (text t0) tweetOptions [])
      as (hashtags & -> & _ & Hhead).
    cbn [fst]. rewrite hd_error_slice by exact Hmax.
    apply Hhead; [exact Hinc|intros []..].
Qed.

(** *** [getHashtagStats] *)

Lemma roundedShare_range (n total : Z) :
  0 <= n <= total -> 0 <= roundedShare n total <= 100.
Proof.
  intros H. unfold roundedShare.
  destruct (Z.eqb_spec total 0) as [E|E]; [lia|].
  assert (Ht : 0 < total) by lia.
  split.
  - rewrite <- (Qfloor_Z 0). apply Qfloor_resp_le.
    destruct total as [|p|p]; try lia.
    unfold Qle, Qplus, Qdiv, Qmult, Qinv, inject_Z. cbn -[Z.mul Z.add]. nia.
  - rewrite <- (Qfloor_Z 100) at 2.
    assert (Hle : (inject_Z n / inject_Z total * 100 + (1 # 2)
                   <= inject_Z 100 + (1 # 2))%Q).
    { destruct total as [|p|p]; try lia.
      unfold Qle, Qplus, Qdiv, Qmult, Qinv, inject_Z. cbn -[Z.mul Z.add].
      rewrite ?Pos2Z.inj_mul. nia. }
    apply Qfloor_resp_le in Hle.
    replace (Qfloor (inject_Z 100 + (1 # 2))) with 100 in Hle
      by (vm_compute; reflexivity).
    rewrite Qfloor_Z. exact Hle.
Qed.

(** X16: in the statistics of [getHashtagStats], the English, Arabic and
    unique counts lie between 0 and the total, the unique count is 0 only
    for a thread without hashtags, and both shares of the distribution lie
    between 0 and 100. *)
Theorem getHashtagStats_bounds (thread : list Tweet) :
  let s := getHashtagStats thread in
  0 <= stats_english s <= stats_total s
  /\ 0 <= stats_arabic s <= stats_total s
  /\ 0 <= stats_unique s <= stats_total s
  /\ (stats_total s = 0 <-> stats_unique s = 0)
  /\ 0 <= share_english (distribution s) <= 100
  /\ 0 <= share_arabic (distribution s) <= 100.
Proof.
  intros s. unfold s, getHashtagStats.
  cbn [stats_english stats_total stats_arabic stats_unique distribution
       share_english share_arabic].
  set (all := List.flat_map hashtags thread).
  assert (He : 0 <= len (List.filter isEnglishTag all) <= len all).
  { unfold len. pose proof (filter_length_le isEnglishTag all). lia. }
  assert (Ha : 0 <= len (List.filter isArabicTag all) <= len all).
  { unfold len. pose proof (filter_length_le isArabicTag all). lia. }
  assert (Hu : 0 <= len (arrayFromSet all) <= len all).
  { unfold len, arrayFromSet. pose proof (setInsertAll_length [] all). lia. }
  assert (Hz : len all = 0 <-> len (arrayFromSet all) = 0).
  { unfold len. split; intros H.
    - destruct all; [reflexivity|discriminate H].
    - destruct all as [|x l]; [reflexivity|].
      exfalso. assert (Hx : In x (arrayFromSet (x :: l))).
      { apply arrayFromSet_In. left. reflexivity. }
      destruct (arrayFromSet (x :: l)); [exact Hx|discriminate H]. }
  split; [exact He|]. split; [exact Ha|]. split; [exact Hu|].
  split; [exact Hz|].
  split; apply roundedShare_range; assumption.
Qed.

End HashtagMoreFacts.

(** ** services/localTemplates.js: the stages of the generator *)

Module TemplateFacts.
Import LangDetect CharCounter Dedupe LocalTemplates.
Import JsStringFacts ListFacts BalanceFacts RebalanceFacts SegmentFacts.
Import PipelineFacts DedupeMoreFacts.

(** *** Emoji suggestions *)

Lemma setInsertAll_app (seen l1 l2 : list jsstring) :
  exists rest,
    setInsertAll seen (l1 ++ l2) = setInsertAll seen l1 ++ rest.
Proof.
  revert seen. induction l1 as [|x l1 IH]; intros seen; cbn [app setInsertAll].
  - eexists. reflexivity.
  - destruct (existsb (streq x) seen).
    + apply IH.
    + destruct (IH (x :: seen)) as [rest ->]. exists rest. reflexivity.
Qed.

Lemma styleEmojis_NoDup (style : Style) : NoDup (styleEmojis style).
Proof.
  destruct style; cbn [styleEmojis];
    repeat (constructor; [cbn [In]; intuition discriminate|]); constructor.
Qed.

Lemma styleEmojis_length (style : Style) :
  knownStyle style = true -> List.length (styleEmojis style) = 5%nat.
Proof. destruct style; intros H; try discriminate H; reflexivity. Qed.

(** X17: for each of the five styles of the emoji table,
    [generateEmojis] returns the first three emojis of the style whatever
    the segment and its position: the style entries fill the three places
    before the content emojis and the thread-start emojis are reached. *)
Theorem generateEmojis_style_only (host : Host) (segment : jsstring)
    (style : Style) (index : nat) :
  knownStyle style = true ->
  generateEmojis segment style index = firstn 3 (styleEmojis style).
Proof.
  intros Hk. unfold generateEmojis.
  match goal with
  | |- slice 0 3 (arrayFromSet (styleEmojis style ++ ?c)) = _ =>
      destruct (setInsertAll_app [] (styleEmojis style) c) as [rest E]
  end.
  unfold arrayFromSet. rewrite E.
  rewrite (@setInsertAll_fixed [] (styleEmojis style)
             (styleEmojis_NoDup style)) by (intros x _ []).
  rewrite slice_0 by lia. change (Z.to_nat 3) with 3%nat.
  rewrite firstn_app. rewrite (styleEmojis_length style Hk).
  change (3 - 5)%nat with O. cbn [firstn]. apply app_nil_r.
Qed.

Lemma generateEmojis_style_only_witness :
  knownStyle engaging = true
  /\ @generateEmojis ReferenceHost.host (js "An important success") engaging
       O
     = firstn 3 (styleEmojis engaging).
Proof.
  split; [reflexivity|].
  apply (@generateEmojis_style_only ReferenceHost.host). reflexivity.
Defined.

(** *** The engagement score *)

(** X18: [calculateEngagementScore] always lies between 3.5 and 8, so
    that its final clamp to the range 1 to 10 never changes the score. *)
Theorem calculateEngagementScore_range (tweets : list Tweet)
    (langAnalysis : LangAnalysis) (style : Style) :
  ((7 # 2) <= calculateEngagementScore tweets langAnalysis style)%Q
  /\ (calculateEngagementScore tweets langAnalysis style <= 8)%Q.
Proof.
  unfold calculateEngagementScore.
  destruct ((len tweets >=? 3) && (len tweets <=? 7));
    destruct (len tweets >? 10);
    destruct (existsb (fun t => truthy (cta t)) tweets);
    destruct ((fold_left (fun sum t => sum + len (emoji_suggestions t))
                 tweets 0 >? 0)
              && (fold_left (fun sum t => sum + len (emoji_suggestions t))
                    tweets 0 <=? len tweets * 2));
    destruct ((fold_left (fun sum t => sum + len (hashtags t)) tweets 0 >? 0)
              && (fold_left (fun sum t => sum + len (hashtags t)) tweets 0
                  <=? len tweets * 3));
    destruct style; split; vm_compute; discriminate.
Qed.


(** *** Image suggestions *)

Lemma score_positive (priority : Z) (matched : list jsstring) (acc : Z) :
  4 <= priority -> Forall (fun k => k <> []) matched -> 0 <= acc ->
  acc <= fold_left (fun score keyword => score + (priority + len keyword))
           matched acc
  /\ (matched <> [] ->
      acc + 5
      <= fold_left (fun score keyword => score + (priority + len keyword))
           matched acc).
Proof.
  intros Hp. revert acc. induction matched as [|k l IH]; intros acc Hk Ha;
    cbn [fold_left].
  - split; [lia|congruence].
  - apply Forall_cons_iff in Hk. destruct Hk as [Hk Hl].
    assert (1 <= len k).
    { unfold len. destruct k; [congruence|]. cbn [List.length]. lia. }
    destruct (IH (acc + (priority + len k))) as [H1 H2]; [exact Hl|lia|].
    split; [lia|]. intros _. lia.
Qed.

Lemma bestImageMatch_cons (segment lowerText : jsstring)
    (patternObj : ImagePattern) (rest : list ImagePattern)
    (bestMatch : option ImageSuggestion) (bestScore : Z) :
  bestImageMatch segment lowerText (patternObj :: rest) bestMatch bestScore
  = let matchedKeywords :=
      List.filter (fun keyword => includes lowerText keyword)
        (ip_keywords patternObj) in
    let score :=
      fold_left
        (fun score keyword => score + (ip_priority patternObj + len keyword))
        matchedKeywords 0 in
    if score >? bestScore then
      bestImageMatch segment lowerText rest
        (Some {| img_type := ip_type patternObj;
                 img_content :=
                   ip_content patternObj ++ js " for: " ++ quote
                     ++ substring 0 60 segment ++ js "..." ++ quote;
                 img_keywords := ip_pattern_keywords patternObj;
                 img_template := ip_template patternObj;
                 matched_keywords := Some matchedKeywords |})
        score
    else bestImageMatch segment lowerText rest bestMatch bestScore.
Proof. reflexivity. Qed.

(** A pattern whose priority is 4 at least and whose keywords are not
    empty, as all of [imagePatterns] are. *)
Lemma imagePatterns_sound :
  Forall (fun p => 4 <= ip_priority p
                   /\ Forall (fun k => k <> []) (ip_keywords p))
    imagePatterns.
Proof.
  apply Forall_forall. intros p Hp.
  assert (H : forallb
                (fun p => (4 <=? ip_priority p)
                          && forallb (fun k => negb (isEmpty k))
                               (ip_keywords p)) imagePatterns = true)
    by (vm_compute; reflexivity).
  rewrite forallb_forall in H. specialize (H p Hp).
  apply andb_true_iff in H. destruct H as [H1 H2].
  split; [apply Z.leb_le, H1|].
  apply Forall_forall. intros k Hk. rewrite forallb_forall in H2.
  specialize (H2 k Hk). apply negb_true_iff, isEmpty_false in H2. exact H2.
Qed.

(** The best match so far is none with score 0, or one that records the
    keywords it matched, with a score of 5 at least. *)
Lemma bestImageMatch_inv (segment lowerText : jsstring)
    (patterns : list ImagePattern) (bestMatch : option ImageSuggestion)
    (bestScore : Z) :
  Forall (fun p => 4 <= ip_priority p
                   /\ Forall (fun k => k <> []) (ip_keywords p)) patterns ->
  (bestMatch = None /\ bestScore = 0)
  \/ (exists m ks, bestMatch = Some m /\ matched_keywords m = Some ks
                   /\ ks <> []
                   /\ Forall (fun k => includes lowerText k = true) ks
                   /\ 5 <= bestScore) ->
  (fst (bestImageMatch segment lowerText patterns bestMatch bestScore) = None
   /\ bestMatch = None
   /\ Forall (fun p => Forall (fun k => includes lowerText k = false)
                         (ip_keywords p)) patterns)
  \/ (exists m ks,
        fst (bestImageMatch segment lowerText patterns bestMatch bestScore)
        = Some m
        /\ matched_keywords m = Some ks /\ ks <> []
        /\ Forall (fun k => includes lowerText k = true) ks
        /\ 5 <= snd (bestImageMatch segment lowerText patterns bestMatch
                       bestScore)).
Proof.
  revert bestMatch bestScore.
  induction patterns as [|p rest IH]; intros bestMatch bestScore Hprio Hinv.
  - cbn [bestImageMatch fst snd].
    destruct Hinv as [[-> ->]|H]; [left|right; exact H].
    repeat split; constructor.
  - apply Forall_cons_iff in Hprio. destruct Hprio as [[Hp Hkw] Hrest].
    rewrite bestImageMatch_cons. cbv zeta.
    set (matched := List.filter (fun keyword => includes lowerText keyword)
                      (ip_keywords p)).
    set (score := fold_left
                    (fun score keyword =>
                       score + (ip_priority p + len keyword)) matched 0).
    assert (Hmk : Forall (fun k => k <> []) matched).
    { apply Forall_forall. intros k Hk. unfold matched in Hk.
      apply filter_In in Hk. rewrite Forall_forall in Hkw. apply Hkw. tauto. }
    destruct (@score_positive (ip_priority p) matched 0 Hp Hmk
                (Z.le_refl 0)) as [H0 Hpos]. fold score in H0, Hpos.
    assert (Hall : Forall (fun k => includes lowerText k = true) matched).
    { apply Forall_forall. intros k Hk. unfold matched in Hk.
      apply filter_In in Hk. tauto. }
    destruct (Z.gtb_spec score bestScore) as [Hgt|Hle].
    + assert (Hne : matched <> []).
      { intros E. unfold score in Hgt. rewrite E in Hgt. cbn in Hgt.
        destruct Hinv as [[_ ->]|(m & ks & _ & _ & _ & _ & Hb)]; lia. }
      specialize (Hpos Hne).
      match goal with
      | |- context [bestImageMatch segment lowerText rest (Some ?m) score] =>
          destruct (IH (Some m) score Hrest) as [(_ & E3 & _)|H]
      end.
      * right. eexists. exists matched.
        split; [reflexivity|]. split; [reflexivity|].
        split; [exact Hne|]. split; [exact Hall|lia].
      * discriminate E3.
      * right. exact H.
    + destruct (IH bestMatch bestScore Hrest Hinv)
        as [(E1 & E3 & E4)|H]; [|right; exact H].
      left. split; [exact E1|]. split; [exact E3|].
      constructor; [|exact E4].
      destruct Hinv as [[_ ->]|(m & ks & Hm & _)]; [|congruence].
      assert (Hm : matched = []).
      { destruct matched as [|k l] eqn:Em; [reflexivity|].
        exfalso. assert (k :: l <> []) by discriminate.
        specialize (Hpos H). lia. }
      apply Forall_forall. intros k Hk.
      destruct (includes lowerText k) eqn:Ek; [|reflexivity].
      exfalso. assert (Hin : In k matched).
      { unfold matched. apply filter_In. auto. }
      rewrite Hm in Hin. exact Hin.
Qed.

Lemma bestImageMatch_none (segment lowerText : jsstring)
    (patterns : list ImagePattern) :
  Forall (fun p => Forall (fun k => includes lowerText k = false)
                     (ip_keywords p)) patterns ->
  bestImageMatch segment lowerText patterns None 0 = (None, 0).
Proof.
  induction patterns as [|p rest IH]; intros H; [reflexivity|].
  apply Forall_cons_iff in H. destruct H as [Hp Hrest].
  rewrite bestImageMatch_cons. cbv zeta.
  assert (E : List.filter (fun keyword => includes lowerText keyword)
                (ip_keywords p) = []).
  { rewrite Forall_forall in Hp.
    induction (ip_keywords p) as [|k l IHl]; [reflexivity|].
    cbn [List.filter]. rewrite (Hp k) by (left; reflexivity).
    apply IHl. intros x Hx. apply Hp. right. exact Hx. }
  rewrite E. cbn [fold_left]. change (0 >? 0) with false. cbv iota.
  apply IH, Hrest.
Qed.

(** X19: [generateImageSuggestion] falls back on the suggestion of the
    style exactly when no keyword of any pattern occurs in the lowercased
    segment; otherwise the keywords it reports are a non-empty list of
    keywords that all occur in the segment. *)
Theorem generateImageSuggestion_fallback (host : Host) (segment : jsstring)
    (style : Style) :
  let r := generateImageSuggestion segment style in
  (matched_keywords r = None
   <-> Forall (fun p => Forall (fun k => includes (toLowerCase segment) k
                                         = false)
                          (ip_keywords p)) imagePatterns)
  /\ (matched_keywords r = None ->
      img_type r = fst (fst (fst (styleSuggestion style)))
      /\ img_keywords r = snd (fst (styleSuggestion style))
      /\ img_template r = snd (styleSuggestion style))
  /\ (forall ks, matched_keywords r = Some ks ->
        ks <> []
        /\ Forall (fun k => includes (toLowerCase segment) k = true) ks).
Proof.
  intros r. unfold r, generateImageSuggestion.
  set (lowerText := toLowerCase segment).
  destruct (@bestImageMatch_inv segment lowerText imagePatterns None 0
              imagePatterns_sound (or_introl (conj eq_refl eq_refl)))
    as [(E1 & _ & Hnone)|(m & ks & E1 & Hks & Hne & Hall & Hscore)].
  - rewrite E1. destruct (styleSuggestion style) as [[[ty head] kws] tpl].
    cbn [matched_keywords img_type img_keywords img_template fst snd].
    split; [tauto|]. split; [auto|]. intros ks H. discriminate H.
  - rewrite E1.
    destruct (Z.geb_spec
                (snd (bestImageMatch segment lowerText imagePatterns None 0))
                5) as [Hge|Hlt]; [|lia].
    rewrite Hks. split; [|split].
    + split; [discriminate|]. intros Hnone. exfalso.
      rewrite (@bestImageMatch_none segment lowerText imagePatterns Hnone)
        in E1. discriminate E1.
    + discriminate.
    + intros ks' E. injection E as <-. auto.
Qed.


(** *** Removing tweets *)

(** X20: with more tweets than the target, [ensureExactTweetCount]
    keeps the first half of the target (rounded down) from the start of the
    thread and the rest from its end, drops the tweets in between, and
    numbers the result again. *)
Theorem ensureExactTweetCount_removes_middle (tweets : list Tweet)
    (targetCount : Z) :
  0 <= targetCount < len tweets ->
  ensureExactTweetCount tweets targetCount
  = Normal
      (reindex
         (firstn (Z.to_nat (targetCount / 2)) tweets
          ++ skipn
               (List.length tweets
                - Z.to_nat (targetCount - targetCount / 2))
               tweets)).
Proof.
  intros [H0 Hlt]. unfold ensureExactTweetCount.
  destruct (Z.eqb_spec (len tweets) targetCount) as [E|_]; [lia|].
  destruct (Z.gtb_spec (len tweets) targetCount) as [_|Hle]; [|lia].
  replace ((len tweets - (len tweets - targetCount)) / 2)
    with (targetCount / 2) by (f_equal; lia).
  assert (Hh : 0 <= targetCount / 2 <= targetCount).
  { split; [apply Z.div_pos; lia|apply Z.div_le_upper_bound; lia]. }
  rewrite slice_0 by lia.
  rewrite sliceFrom_skipn by lia.
  do 3 f_equal. unfold len in *. f_equal. lia.
Qed.

Lemma ensureExactTweetCount_removes_middle_witness :
  let tweets :=
    [plainTweet 1 (js "a") []; plainTweet 2 (js "b") [];
     plainTweet 3 (js "c") []] in
  0 <= 1 < len tweets
  /\ ensureExactTweetCount tweets 1
     = Normal
         (reindex
            (firstn (Z.to_nat (1 / 2)) tweets
             ++ skipn (List.length tweets - Z.to_nat (1 - 1 / 2)) tweets)).
Proof.
  split; [vm_compute; split; [discriminate|reflexivity]|].
  apply ensureExactTweetCount_removes_middle. vm_compute.
  split; [discriminate|reflexivity].
Defined.

(** *** Splitting tweets *)

Lemma ink_app (a b : jsstring) : ink (a ++ b) = ink a ++ ink b.
Proof. unfold ink. apply filter_app. Qed.

Lemma ink_dropWhile (s : jsstring) : ink (dropWhile isWhiteSpace s) = ink s.
Proof.
  induction s as [|c s IH]; [reflexivity|]. cbn [dropWhile].
  destruct (isWhiteSpace c) eqn:E; [|reflexivity].
  unfold ink at 2. cbn [List.filter]. rewrite E. exact IH.
Qed.

Lemma ink_rev (s : jsstring) : ink (rev s) = rev (ink s).
Proof.
  unfold ink. induction s as [|c s IH]; [reflexivity|].
  cbn [rev List.filter]. rewrite filter_app, IH. cbn [List.filter].
  destruct (negb (isWhiteSpace c)); [reflexivity|apply app_nil_r].
Qed.

Lemma ink_trim (s : jsstring) : ink (trim s) = ink s.
Proof.
  unfold trim, trimEnd, trimStart.
  rewrite ink_rev, ink_dropWhile, ink_rev, rev_involutive.
  apply ink_dropWhile.
Qed.

Lemma afterSplit_ink (result : list Tweet) (i : nat) (t : Tweet)
    (splitPoint : Z) :
  nth_error result i = Some t -> 0 <= splitPoint <= len (text t) ->
  List.concat (List.map (fun t => ink (text t))
                 (afterSplit result i t splitPoint))
  = List.concat (List.map (fun t => ink (text t)) result).
Proof.
  intros Ht Hsp.
  assert (Hs : skipn i result = t :: skipn (S i) result).
  { clear Hsp. revert i Ht. induction result as [|x l IH]; intros [|i] Ht;
      try discriminate Ht.
    - cbn in Ht. injection Ht as ->. reflexivity.
    - cbn [skipn]. apply IH. exact Ht. }
  assert (Hres : result = firstn i result ++ t :: skipn (S i) result).
  { rewrite <- Hs. symmetry. apply firstn_skipn. }
  replace (List.map (fun t => ink (text t)) result)
    with (List.map (fun t => ink (text t))
            (firstn i result ++ t :: skipn (S i) result))
    by (rewrite <- Hres; reflexivity).
  unfold afterSplit.
  rewrite !map_app, !concat_app. f_equal.
  cbn [List.map List.concat text with_text with_emoji_suggestions
       with_hashtags].
  rewrite app_assoc. f_equal.
  rewrite !ink_trim.
  rewrite substring_0_firstn by lia.
  rewrite substringFrom_skipn by lia.
  rewrite <- ink_app, firstn_skipn. reflexivity.
Qed.

Lemma splitLoop_ink (fuel : nat) (targetCount : Z) (result r : list Tweet) :
  splitLoop fuel targetCount result = Normal r ->
  List.concat (List.map (fun t => ink (text t)) r)
  = List.concat (List.map (fun t => ink (text t)) result).
Proof.
  revert result. induction fuel as [|fuel IH]; intros result.
  - cbn [splitLoop]. intros E. injection E as <-. reflexivity.
  - rewrite splitLoop_step.
    destruct (len result <? targetCount);
      [|intros E; injection E as <-; reflexivity].
    destruct (nth_error result (longestIndex result)) as [t|] eqn:Et;
      [|discriminate].
    destruct (len (text t) <? 100);
      [intros E; injection E as <-; reflexivity|].
    cbv zeta.
    destruct (Z.gtb_spec (lastIndexOf 32%N (len (text t) / 2) (text t)) 0)
      as [Hpos|_]; [|intros E; injection E as <-; reflexivity].
    intros E. rewrite (IH _ E).
    apply afterSplit_ink; [exact Et|].
    destruct (@lastIndexOf_range 32%N (len (text t) / 2) (text t) Hpos).
    lia.
Qed.

Lemma map_text_reindex (tweets : list Tweet) :
  List.map text (reindex tweets) = List.map text tweets.
Proof.
  unfold reindex, mapi. apply map_mapi_from_any.
  reflexivity.
Qed.

(** X21: with no more tweets than the target, [ensureExactTweetCount]
    loses no text: the units of the returned tweets that are not white
    space are, in order, those of the given tweets. *)
Theorem splitting_keeps_the_ink (tweets r : list Tweet) (targetCount : Z) :
  len tweets <= targetCount ->
  ensureExactTweetCount tweets targetCount = Normal r ->
  List.concat (List.map (fun t => ink (text t)) r)
  = List.concat (List.map (fun t => ink (text t)) tweets).
Proof.
  intros Hle. unfold ensureExactTweetCount.
  destruct (Z.eqb_spec (len tweets) targetCount) as [_|Hne];
    [intros E; injection E as <-; reflexivity|].
  destruct (Z.gtb_spec (len tweets) targetCount) as [Hgt|_]; [lia|].
  destruct (splitLoop _ targetCount tweets) as [result|] eqn:E;
    [|discriminate].
  intros E'. injection E' as <-.
  assert (Hlen := splitLoop_length _ _ _ E).
  assert (Hr : slice 0 targetCount result = result).
  { rewrite slice_0 by (pose proof (len_nonneg tweets); lia).
    apply firstn_all2. unfold len in *. lia. }
  rewrite Hr.
  rewrite <- (map_map text ink), map_text_reindex, map_map.
  apply (splitLoop_ink _ _ _ E).
Qed.

Lemma splitting_keeps_the_ink_witness :
  let tweets := [plainTweet 1 shipping []] in
  len tweets <= 2
  /\ exists r,
       ensureExactTweetCount tweets 2 = Normal r
       /\ List.concat (List.map (fun t => ink (text t)) r)
          = List.concat (List.map (fun t => ink (text t)) tweets).
Proof.
  cbv zeta. split; [vm_compute; discriminate|].
  eexists. split; [vm_compute; reflexivity|].
  apply (@splitting_keeps_the_ink [plainTweet 1 shipping []] _ 2).
  - vm_compute. discriminate.
  - vm_compute. reflexivity.
Defined.


(** *** The final pass *)

Lemma withoutWarnings_push (ref : nat) (w : jsstring) (t : Tweet) :
  withoutWarnings (pushWarning ref w t) = withoutWarnings t.
Proof. unfold pushWarning. destruct (_ =? _)%nat; reflexivity. Qed.

Lemma fitted_push (host : Host) (ref : nat) (w : jsstring) (t : Tweet) :
  withoutWarnings (fitted (pushWarning ref w t))
  = withoutWarnings (fitted t).
Proof.
  unfold pushWarning. destruct (_ =? _)%nat; [|reflexivity].
  unfold fitted. cbn [text hashtags cta with_warnings].
  destruct (isValid _); reflexivity.
Qed.

Lemma validateFrom_fitted (host : Host) (steps : nat) :
  forall pre rest,
    List.map withoutWarnings
      (validateFrom steps (List.length pre) (pre ++ rest))
    = List.map withoutWarnings pre
      ++ List.map (fun t => withoutWarnings (fitted t)) (firstn steps rest)
      ++ List.map withoutWarnings (skipn steps rest).
Proof.
  induction steps as [|steps IH]; intros pre rest.
  - cbn [validateFrom firstn skipn List.map app]. apply map_app.
  - rewrite validateFrom_step.
    destruct rest as [|t rest'].
    + rewrite app_nil_r.
      assert (E : nth_error pre (List.length pre) = None)
        by (apply nth_error_None; lia).
      rewrite E. cbn [firstn skipn List.map app]. now rewrite app_nil_r.
    + assert (E : nth_error (pre ++ t :: rest') (List.length pre) = Some t).
      { rewrite nth_error_app2 by lia. now rewrite Nat.sub_diag. }
      rewrite E. rewrite firstn_cons, skipn_cons, map_cons.
      assert (Hlen : forall x : Tweet,
                S (List.length pre) = List.length (pre ++ [x])).
      { intros x. rewrite length_app. cbn. lia. }
      destruct (isValid
                  (validateTweetLength (text t) (hashtags t) (cta t)))
        eqn:Ev.
      * replace (pre ++ t :: rest') with ((pre ++ [t]) ++ rest')
          by (now rewrite <- app_assoc).
        rewrite (Hlen t), IH, map_app. cbn [List.map].
        rewrite <- app_assoc. cbn [app]. do 2 f_equal.
        unfold fitted. now rewrite Ev.
      * assert (Hf : firstn (List.length pre) (pre ++ t :: rest') = pre).
        { rewrite firstn_app, Nat.sub_diag, firstn_all. cbn [firstn].
          apply app_nil_r. }
        assert (Hs : skipn (S (List.length pre)) (pre ++ t :: rest') = rest').
        { rewrite skipn_app.
          rewrite (skipn_all2 pre) by lia.
          replace (S (List.length pre) - List.length pre)%nat with 1%nat
            by lia.
          reflexivity. }
        rewrite Hf, Hs. rewrite map_app. cbn [List.map].
        set (push := pushWarning (warnings_ref t)
                       (js "Tweet truncated to fit character limit")).
        set (t' := with_char_count _ _).
        replace (List.map push pre ++ push t' :: List.map push rest')
          with ((List.map push pre ++ [push t']) ++ List.map push rest')
          by (now rewrite <- app_assoc).
        replace (S (List.length pre))
          with (List.length (List.map push pre ++ [push t']))
          by (rewrite length_app, length_map; cbn; lia).
        rewrite IH. rewrite map_app, <- app_assoc. cbn [List.map app].
        rewrite map_map.
        assert (Hpre : List.map (fun x => withoutWarnings (push x)) pre
                       = List.map withoutWarnings pre).
        { apply map_ext. intros x. apply withoutWarnings_push. }
        rewrite Hpre.
        f_equal. f_equal.
        -- unfold push. rewrite withoutWarnings_push.
           unfold fitted. rewrite Ev. reflexivity.
        -- f_equal.
           ++ rewrite firstn_map, map_map. apply map_ext.
              intros x. apply fitted_push.
           ++ rewrite skipn_map, map_map. apply map_ext.
              intros x. apply withoutWarnings_push.
Qed.

Lemma validatePass_fitted (host : Host) (tweets : list Tweet) :
  List.map withoutWarnings (validatePass tweets)
  = List.map (fun t => withoutWarnings (fitted t)) tweets.
Proof.
  unfold validatePass.
  assert (H := @validateFrom_fitted host (List.length tweets) [] tweets).
  cbn [List.length app List.map] in H. rewrite H.
  rewrite firstn_all, skipn_all. cbn [List.map]. apply app_nil_r.
Qed.

Lemma withoutWarnings_same (t t' : Tweet) :
  withoutWarnings t' = withoutWarnings t -> sameExceptWarnings t t'.
Proof.
  intros H. unfold sameExceptWarnings.
  repeat split;
    [ apply (f_equal index) in H | apply (f_equal text) in H
    | apply (f_equal char_count) in H | apply (f_equal warnings_ref) in H
    | apply (f_equal hashtags) in H
    | apply (f_equal emoji_suggestions) in H
    | apply (f_equal cta) in H | apply (f_equal image_suggestion) in H ];
    exact H.
Qed.

(** X22: the final validation pass treats every tweet on its own: each
    returned tweet is the given one, truncated and recounted when its text
    with hashtags and call to action is over the limit, and it differs from
    that at most by its warnings. *)
Theorem validatePass_fits_each_tweet (host : Host) (tweets : list Tweet) :
  Forall2 (fun t t' => sameExceptWarnings (fitted t) t') tweets
    (validatePass tweets).
Proof.
  assert (H := @Forall2_of_maps _ _ _
                 (fun t => withoutWarnings (fitted t)) withoutWarnings
                 tweets (validatePass tweets)
                 (validatePass_fitted host tweets)).
  eapply Forall2_impl; [|exact H].
  intros t t' E. apply withoutWarnings_same. exact E.
Qed.


(** *** The indices of a thread *)

Lemma oneTo_from (A : Type) (f : A -> nat -> Tweet) (s : nat) (l : list A) :
  (forall x i, index (f x i) = Z.of_nat i + 1) ->
  List.map index (mapi_from f s l)
  = List.map (fun i => Z.of_nat i + 1) (seq s (List.length l)).
Proof.
  intros H. revert s. induction l as [|x l IH]; intros s;
    cbn [mapi_from List.map List.length seq]; [reflexivity|].
  now rewrite H, IH.
Qed.

Lemma reindex_index (tweets : list Tweet) :
  List.map index (reindex tweets) = oneTo (List.length tweets).
Proof. unfold reindex, mapi, oneTo. apply oneTo_from. reflexivity. Qed.

Lemma makeTweets_index (host : Host) (style : Style)
    (langAnalysis : LangAnalysis) (includeImages : bool) (total : nat)
    (segments : list jsstring) :
  forall index0 g,
    List.map index
      (makeTweets style langAnalysis includeImages total index0 g segments)
    = List.map (fun i => Z.of_nat i + 1) (seq index0 (List.length segments)).
Proof.
  induction segments as [|segment rest IH]; intros index0 g; [reflexivity|].
  cbn [makeTweets List.map List.length seq index]. now rewrite IH.
Qed.

Lemma ensureExactTweetCount_index (tweets r : list Tweet) (targetCount : Z) :
  List.map index tweets = oneTo (List.length tweets) ->
  ensureExactTweetCount tweets targetCount = Normal r ->
  List.map index r = oneTo (List.length r).
Proof.
  intros Hi. unfold ensureExactTweetCount.
  destruct (len tweets =? targetCount);
    [intros E; injection E as <-; exact Hi|].
  destruct (len tweets >? targetCount).
  - intros E. injection E as <-. rewrite reindex_length. apply reindex_index.
  - destruct (splitLoop _ targetCount tweets); [|discriminate].
    intros E. injection E as <-. rewrite reindex_length. apply reindex_index.
Qed.

Lemma dedupeHashtagsAndEmojis_keeps (host : Host) (A : Type)
    (f : Tweet -> A) (tweets : list Tweet) :
  (forall t h, f (with_hashtags t h) = f t) ->
  (forall t e, f (with_emoji_suggestions t e) = f t) ->
  List.map f (dedupeHashtagsAndEmojis tweets) = List.map f tweets.
Proof.
  intros Hh He. unfold dedupeHashtagsAndEmojis.
  rewrite (@balance_keeps host A f Hh). rewrite map_map.
  apply map_ext. intros t. now rewrite He, Hh.
Qed.

Lemma ensureExactTweetCount_nil (targetCount : Z) (r : list Tweet) :
  targetCount <= 0 -> ensureExactTweetCount [] targetCount = Normal r ->
  r = [].
Proof.
  intros Hle. unfold ensureExactTweetCount.
  change (len (@nil Tweet)) with 0.
  destruct (Z.eqb_spec 0 targetCount) as [_|Hne];
    [intros E; injection E as <-; reflexivity|].
  destruct (Z.gtb_spec 0 targetCount) as [_|H]; [|lia].
  intros E. injection E as <-.
  unfold slice, sliceFrom, slice. cbn [skipn].
  rewrite !skipn_nil, !firstn_nil. reflexivity.
Qed.

Lemma segmentText_nonpositive (text : jsstring) (targetCount : Z) :
  targetCount < 1 -> segmentText text targetCount = [].
Proof.
  intros H. unfold segmentText.
  destruct (Z.ltb_spec targetCount 1); [|lia].
  now rewrite orb_true_r.
Qed.

(** The tweets of the returned thread are numbered 1, 2, ... in order, and
    there are at most [maxTweets] of them. *)
Lemma returned_thread_indices (host : Host) (text : jsstring) (params : Params)
    (g : rng) :
  let thread := threadOf (generateFallbackThread text params g) in
  List.map index thread = oneTo (List.length thread)
  /\ len thread <= Z.max 0 (maxTweets params).
Proof.
  intros thread. unfold thread. rewrite threadOf_generate.
  set (final := validatePass _).
  assert (Hidx : List.map index final
                 = List.map index (beforeDedupe text params g)).
  { unfold final.
    rewrite (@validatePass_keeps host Z index) by reflexivity.
    apply dedupeHashtagsAndEmojis_keeps; reflexivity. }
  assert (Hlen : List.length final
                 = List.length (beforeDedupe text params g)).
  { rewrite <- (length_map index final), Hidx. apply length_map. }
  rewrite Hidx, Hlen. unfold len. rewrite Hlen. clear Hidx Hlen final.
  unfold beforeDedupe, segmentAndRebalance.
  set (tweets := makeTweets _ _ _ _ _ _ _).
  destruct (ensureExactTweetCount tweets (maxTweets params)) as [r|] eqn:E;
    [|cbn; split; [reflexivity|lia]].
  rewrite (@enrichWithHashtags_keeps host Z index) by reflexivity.
  assert (Hlen : List.length (enrichWithHashtags params r) = List.length r).
  { rewrite <- (length_map index (enrichWithHashtags params r)).
    rewrite (@enrichWithHashtags_keeps host Z index) by reflexivity.
    apply length_map. }
  rewrite Hlen. split.
  - apply (@ensureExactTweetCount_index tweets r (maxTweets params));
      [|exact E].
    unfold tweets. rewrite makeTweets_index, makeTweets_length.
    reflexivity.
  - destruct (Z.le_gt_cases 1 (maxTweets params)) as [Hpos|Hneg].
    + pose proof (@ensureExactTweetCount_length tweets r (maxTweets params)
                    ltac:(lia) E) as H. unfold len in H. lia.
    + assert (Ht : tweets = []).
      { unfold tweets. rewrite segmentText_nonpositive by lia. reflexivity. }
      rewrite Ht in E. apply ensureExactTweetCount_nil in E; [|lia].
      subst r. cbn. lia.
Qed.

(** *** Hashtags of a thread *)

Lemma balance_cap (host : Host) (tweets : list Tweet) (m : nat) :
  Forall (fun t => (List.length (hashtags t) <= m)%nat /\ NoDup (hashtags t))
    (balanceHashtagsAcrossThread tweets m).
Proof.
  rewrite balance_mapi. cbv zeta. unfold mapi.
  set (pool := dedupeHashtags _).
  apply Forall_forall. intros t Ht.
  apply In_nth_error in Ht. destruct Ht as [i Hi].
  rewrite mapi_from_nth_error in Hi.
  destruct (nth_error tweets i) as [u|]; [|discriminate Hi].
  cbn [option_map] in Hi. injection Hi as <-.
  rewrite hashtags_with_hashtags. split.
  - rewrite cyclic_length. lia.
  - apply cyclic_NoDup; [apply DedupeFacts.dedupeHashtags_NoDup|lia].
Qed.

(** Every tweet of the returned thread has at most 3 hashtags, and no
    hashtag twice. *)
Lemma returned_thread_hashtags (host : Host) (text : jsstring) (params : Params)
    (g : rng) :
  Forall (fun t => (List.length (hashtags t) <= 3)%nat /\ NoDup (hashtags t))
    (threadOf (generateFallbackThread text params g)).
Proof.
  rewrite threadOf_generate.
  set (deduped := dedupeHashtagsAndEmojis _).
  assert (H : Forall (fun t => (List.length (hashtags t) <= 3)%nat
                               /\ NoDup (hashtags t)) deduped).
  { unfold deduped, dedupeHashtagsAndEmojis. apply balance_cap. }
  assert (E : List.map hashtags (validatePass deduped)
              = List.map hashtags deduped).
  { apply (@validatePass_keeps host _ hashtags); reflexivity. }
  apply Forall_forall. intros t Ht.
  assert (Hin : In (hashtags t) (List.map hashtags deduped)).
  { rewrite <- E. apply in_map. exact Ht. }
  apply in_map_iff in Hin. destruct Hin as (u & Eu & Hu).
  rewrite Forall_forall in H. rewrite <- Eu. apply H, Hu.
Qed.

(** X23: in the thread returned by [generateFallbackThread] the tweets
    are numbered 1, 2, ... in order, there are at most [maxTweets] of them,
    and each has at most 3 hashtags and no hashtag twice. *)
Theorem returned_thread_shape (host : Host) (text : jsstring)
    (params : Params) (g : rng) :
  let thread := threadOf (generateFallbackThread text params g) in
  List.map index thread = oneTo (List.length thread)
  /\ len thread <= Z.max 0 (maxTweets params)
  /\ Forall (fun t => (List.length (hashtags t) <= 3)%nat
                      /\ NoDup (hashtags t)) thread.
Proof.
  cbv zeta.
  destruct (@returned_thread_indices host text params g) as [H1 H2].
  split; [exact H1|]. split; [exact H2|].
  apply returned_thread_hashtags.
Qed.


(** *** The number of segments *)

Lemma combineLoop_cons (all : list jsstring) (targetCount : Z)
    (avgLength : Q) (segment : jsstring) (rest combined : list jsstring)
    (current : jsstring) :
  combineLoop all targetCount avgLength (segment :: rest) combined current
  = if len current =? 0 then
      combineLoop all targetCount avgLength rest combined segment
    else if Qltb (inject_Z (len current + len segment + 1))
              (avgLength * (3 # 2)) then
      combineLoop all targetCount avgLength rest combined
        (current ++ js " " ++ segment)
    else
      if len (combined ++ [current]) >=? targetCount - 1 then
        (combined ++ [current],
         if len (sliceFrom (indexOf segment all + 1) all) >? 0
         then segment ++ js " "
                ++ join (js " ") (sliceFrom (indexOf segment all + 1) all)
         else segment)
      else combineLoop all targetCount avgLength rest (combined ++ [current])
             segment.
Proof. reflexivity. Qed.

Lemma combineLoop_count (all : list jsstring) (targetCount : Z)
    (avgLength : Q) (segments : list jsstring) :
  forall combined current,
    combined = [] \/ len combined < targetCount - 1 ->
    len (fst (combineLoop all targetCount avgLength segments combined
                current)) + 1
    <= Z.max targetCount 2.
Proof.
  induction segments as [|segment rest IH]; intros combined current Hc.
  - cbn [combineLoop fst]. destruct Hc as [->|Hc]; [cbn; lia|lia].
  - rewrite combineLoop_cons.
    destruct (len current =? 0); [apply IH, Hc|].
    destruct (Qltb _ _); [apply IH, Hc|].
    assert (Hlen : len (combined ++ [current]) = len combined + 1).
    { rewrite len_app. reflexivity. }
    destruct (Z.geb_spec (len (combined ++ [current])) (targetCount - 1))
      as [Hge|Hlt].
    + cbn [fst]. rewrite Hlen.
      destruct Hc as [->|Hc]; [cbn; lia|lia].
    + apply IH. right. exact Hlt.
Qed.

Lemma combineSmallSegments_count (segments : list jsstring)
    (targetCount : Z) :
  len (combineSmallSegments segments targetCount) <= Z.max targetCount 2.
Proof.
  unfold combineSmallSegments.
  destruct (Z.leb_spec (len segments) targetCount) as [Hle|Hgt]; [lia|].
  set (r := combineLoop _ _ _ _ _ _).
  assert (H := @combineLoop_count segments targetCount
                 (inject_Z
                    (fold_left (fun sum s => (sum + len s)%Z) segments 0%Z)
                  / inject_Z targetCount)%Q segments [] []
                 (or_introl eq_refl)).
  fold r in H.
  destruct (isEmpty (snd r)); [lia|]. rewrite len_app.
  change (len [snd r]) with 1. lia.
Qed.

Lemma lengthLoop_cons (fuel : nat) (text : jsstring) (avgLength i : Z)
    (segments : list jsstring) :
  lengthLoop (S fuel) text avgLength i segments
  = if i <? len text then
      lengthLoop fuel text avgLength (i + avgLength)
        (segments
         ++ [trim
               (if i + avgLength <? len text then
                  if 2 * lastIndexOfAny 32%N
                           (substring i (i + avgLength) text)
                     >? len (substring i (i + avgLength) text)
                  then substring 0
                         (lastIndexOfAny 32%N
                            (substring i (i + avgLength) text))
                         (substring i (i + avgLength) text)
                  else substring i (i + avgLength) text
                else substring i (i + avgLength) text)])
    else segments.
Proof. reflexivity. Qed.

Lemma lengthLoop_count (fuel : nat) (text : jsstring) (avgLength : Z) :
  1 <= avgLength ->
  forall i segments,
    len (lengthLoop fuel text avgLength i segments)
    <= len segments + Z.max 0 ((len text - i + avgLength - 1) / avgLength).
Proof.
  intros Havg. induction fuel as [|fuel IH]; intros i segments.
  - cbn [lengthLoop]. lia.
  - rewrite lengthLoop_cons.
    destruct (Z.ltb_spec i (len text)) as [Hlt|Hge]; [|lia].
    eapply Z.le_trans; [apply IH|]. rewrite len_app.
    change (len [_]) with 1.
    replace (len text - i + avgLength - 1)
      with ((len text - i - 1) + 1 * avgLength) by lia.
    rewrite Z.div_add by lia.
    replace (len text - (i + avgLength) + avgLength - 1)
      with (len text - i - 1) by lia.
    assert (0 <= (len text - i - 1) / avgLength)
      by (apply Z.div_pos; lia).
    lia.
Qed.

Lemma ceilDiv_ceilDiv (a b : Z) :
  1 <= a -> 1 <= b -> (a + ceilDiv a b - 1) / ceilDiv a b <= b.
Proof.
  intros Ha Hb. unfold ceilDiv.
  set (q := (a + b - 1) / b).
  assert (Hq : 1 <= q) by (apply (ceilDiv_pos Ha Hb)).
  assert (Hm : a <= b * q).
  { unfold q. pose proof (Z.div_mod (a + b - 1) b ltac:(lia)) as Hd.
    pose proof (Z.mod_pos_bound (a + b - 1) b ltac:(lia)). lia. }
  assert ((a + q - 1) / q < b + 1); [|lia].
  apply Z.div_lt_upper_bound; [lia|]. nia.
Qed.

(** X24: [segmentText] never returns more segments than the larger of
    the target count and 2. *)
Theorem segmentText_count (text : jsstring) (targetCount : Z) :
  len (segmentText text targetCount) <= Z.max targetCount 2.
Proof.
  unfold segmentText.
  destruct (isEmpty text) eqn:Etext; [cbn; lia|].
  destruct (Z.ltb_spec targetCount 1) as [Hlt|Hge]; [cbn; lia|].
  cbn [orb].
  destruct (len (List.filter nonBlank (split paragraphBreak text))
            >=? targetCount).
  { apply combineSmallSegments_count. }
  destruct (len (List.filter nonBlank (split sentenceEnd text))
            >=? targetCount).
  { rewrite slice_0_length by lia. lia. }
  assert (Hlen : 1 <= len text).
  { unfold len. destruct text; [discriminate Etext|].
    cbn [List.length]. lia. }
  set (avgLength := ceilDiv (len text) targetCount).
  assert (Havg : 1 <= avgLength) by (apply (ceilDiv_pos Hlen Hge)).
  eapply Z.le_trans.
  { unfold len. apply inj_le. apply filter_length_le. }
  fold (len (lengthLoop (List.length text) text avgLength 0 [])).
  eapply Z.le_trans; [apply (lengthLoop_count _ text Havg)|].
  change (len (@nil jsstring)) with 0.
  rewrite Z.sub_0_r.
  pose proof (ceilDiv_ceilDiv Hlen Hge) as H. fold avgLength in H. lia.
Qed.


(** *** What combining keeps *)

Lemma join_app (sep : jsstring) (l1 l2 : list jsstring) :
  l1 <> [] -> l2 <> [] ->
  join sep (l1 ++ l2) = join sep l1 ++ sep ++ join sep l2.
Proof.
  intros H1 H2. induction l1 as [|x l1 IH]; [congruence|].
  destruct l1 as [|y l1].
  - cbn [app]. destruct l2 as [|z l2]; [congruence|]. reflexivity.
  - change ((x :: y :: l1) ++ l2) with (x :: (y :: l1) ++ l2).
    change (join sep (x :: (y :: l1) ++ l2))
      with (x ++ sep ++ join sep ((y :: l1) ++ l2)).
    rewrite IH by discriminate.
    change (join sep (x :: y :: l1)) with (x ++ sep ++ join sep (y :: l1)).
    now rewrite <- !app_assoc.
Qed.

Lemma join_snoc (sep : jsstring) (l : list jsstring) (x : jsstring) :
  l <> [] -> join sep (l ++ [x]) = join sep l ++ sep ++ x.
Proof. intros H. rewrite join_app by (assumption || discriminate). reflexivity. Qed.

Lemma indexOfFrom_first (x : jsstring) (done rest : list jsstring) (i : Z) :
  ~ In x done -> indexOfFrom i x (done ++ x :: rest) = i + len done.
Proof.
  revert i. induction done as [|y done IH]; intros i Hn; cbn [app indexOfFrom].
  - rewrite streq_refl. change (len (@nil jsstring)) with 0. lia.
  - destruct (streq x y) eqn:E.
    + apply streq_true in E. subst y. exfalso. apply Hn. left. reflexivity.
    + rewrite IH by (intros H; apply Hn; right; exact H).
      unfold len. cbn [List.length]. lia.
Qed.

Lemma remaining_after (done rest : list jsstring) (x : jsstring) :
  NoDup (done ++ x :: rest) ->
  sliceFrom (indexOf x (done ++ x :: rest) + 1) (done ++ x :: rest) = rest.
Proof.
  intros Hnd. unfold indexOf.
  rewrite indexOfFrom_first.
  - rewrite sliceFrom_skipn.
    + replace (Z.to_nat (0 + len done + 1)) with (S (List.length done))
        by (unfold len; lia).
      rewrite skipn_app, (skipn_all2 done) by lia.
      replace (S (List.length done) - List.length done)%nat with 1%nat by lia.
      reflexivity.
    + pose proof (len_nonneg done). rewrite len_app.
      unfold len. cbn [List.length]. lia.
  - apply NoDup_remove_2 in Hnd. intros H. apply Hnd.
    apply in_or_app. left. exact H.
Qed.

(** What the loop has made of the segments read so far: joined with
    single spaces, [combined] and [current] spell them. *)
Lemma combineLoop_join (all : list jsstring) (targetCount : Z)
    (avgLength : Q) (segments : list jsstring) :
  NoDup all -> Forall (fun s => s <> []) all ->
  forall done combined current,
    all = done ++ segments ->
    (done = [] /\ combined = [] /\ current = [])
    \/ (done <> [] /\ current <> []
        /\ join (js " ") (combined ++ [current]) = join (js " ") done) ->
    let r := combineLoop all targetCount avgLength segments combined current in
    join (js " ") (if isEmpty (snd r) then fst r else fst r ++ [snd r])
    = join (js " ") all.
Proof.
  intros Hnd Hne.
  induction segments as [|segment rest IH]; intros done combined current Hall
    Hinv; cbv zeta.
  - cbn [combineLoop fst snd]. rewrite app_nil_r in Hall. subst all.
    destruct Hinv as [(-> & -> & ->)|(_ & Hc & Hj)]; [reflexivity|].
    apply isEmpty_false in Hc. rewrite Hc. exact Hj.
  - rewrite combineLoop_cons.
    assert (Hall' : all = (done ++ [segment]) ++ rest)
      by (rewrite <- app_assoc; exact Hall).
    assert (Hseg : segment <> []).
    { rewrite Forall_forall in Hne. apply Hne. rewrite Hall.
      apply in_or_app. right. left. reflexivity. }
    destruct Hinv as [(-> & -> & ->)|(Hd & Hc & Hj)].
    + change (len (@nil codeunit) =? 0) with true. cbv iota.
      apply (IH [segment] [] segment Hall'). right.
      split; [discriminate|]. split; [exact Hseg|reflexivity].
    + assert (Hlen : (len current =? 0) = false).
      { apply Z.eqb_neq. unfold len. destruct current; [congruence|].
        cbn [List.length]. lia. }
      rewrite Hlen.
      destruct (Qltb _ _).
      * apply (IH (done ++ [segment]) combined (current ++ js " " ++ segment)
                 Hall'). right.
        split; [intros E; apply app_eq_nil in E; destruct E; discriminate|].
        split; [intros E; apply app_eq_nil in E; destruct E; congruence|].
        rewrite (join_snoc _ segment Hd), <- Hj.
        destruct combined as [|c0 cs].
        -- reflexivity.
        -- rewrite !join_snoc by discriminate.
           now rewrite <- !app_assoc.
      * match goal with
        | |- context [if ?b then (_, _) else _] => destruct b
        end.
        -- cbn [fst snd].
           assert (Hrem : sliceFrom (indexOf segment all + 1) all = rest).
           { rewrite Hall. apply remaining_after. rewrite <- Hall.
             exact Hnd. }
           rewrite Hrem.
           match goal with
           | |- context [isEmpty ?x] =>
               assert (Hlast : isEmpty x = false)
           end.
           { match goal with
             | |- context [if ?b then _ else _] => destruct b
             end; apply isEmpty_false; [|exact Hseg].
             intros E. apply app_eq_nil in E. destruct E. congruence. }
           rewrite Hlast.
           rewrite join_snoc
             by (intros E; apply app_eq_nil in E; destruct E; discriminate).
           pose proof (@join_app (js " ") done (segment :: rest) Hd
                         ltac:(discriminate)) as Hja.
           unfold jsstring, codeunit in *. rewrite Hj, Hall, Hja.
           do 2 f_equal.
           destruct rest as [|r0 rs]; reflexivity.
        -- apply (IH (done ++ [segment]) (combined ++ [current]) segment
                    Hall'). right.
           split; [intros E; apply app_eq_nil in E; destruct E; discriminate|].
           split; [exact Hseg|].
           assert (Hcc : combined ++ [current] <> [])
             by (intros E; apply app_eq_nil in E; destruct E; discriminate).
           pose proof (@join_snoc (js " ") (combined ++ [current]) segment
                         Hcc) as H1.
           pose proof (@join_snoc (js " ") done segment Hd) as H2.
           unfold jsstring, codeunit in *. rewrite H1, H2, Hj.
           reflexivity.
Qed.

(** X25: [combineSmallSegments] only regroups: for distinct non-empty
    segments and a target of at least 1, joining the combined segments with
    a space gives the same text as joining the given ones. *)
Theorem combineSmallSegments_keeps_text (segments : list jsstring)
    (targetCount : Z) :
  1 <= targetCount -> NoDup segments ->
  Forall (fun s => s <> []) segments ->
  join (js " ") (combineSmallSegments segments targetCount)
  = join (js " ") segments.
Proof.
  intros _ Hnd Hne. unfold combineSmallSegments.
  destruct (len segments <=? targetCount); [reflexivity|].
  apply (@combineLoop_join segments targetCount _ segments Hnd Hne [] [] []);
    [reflexivity|].
  left. repeat split.
Qed.

Lemma combineSmallSegments_keeps_text_witness :
  let segments := [js "a"; js "b"; js "c"] in
  1 <= 2 /\ NoDup segments /\ Forall (fun s => s <> []) segments
  /\ join (js " ") (combineSmallSegments segments 2)
     = join (js " ") segments.
Proof.
  assert (Hnd : NoDup [js "a"; js "b"; js "c"]).
  { repeat (constructor; [cbn [In]; intuition discriminate|]). constructor. }
  assert (Hne : Forall (fun s : jsstring => s <> [])
                  [js "a"; js "b"; js "c"]).
  { repeat constructor; discriminate. }
  split; [lia|]. split; [exact Hnd|]. split; [exact Hne|].
  apply combineSmallSegments_keeps_text; [lia|exact Hnd|exact Hne].
Defined.

End TemplateFacts.

(** ** services/geminiService.js: the fallback path *)

Module ServiceFacts.
Import LocalTemplates GeminiService JsStringFacts ListFacts PipelineFacts.
Import HashtagMoreFacts.

Lemma generateFallbackThread_cases (host : Host) (text : jsstring)
    (params : Params) (g : rng) :
  (exists r, tryBlock text params g = Normal r
             /\ generateFallbackThread text params g = Normal (Generated r))
  \/ (exists e, generateFallbackThread text params g = Normal (Failed e)
                /\ code e = 500).
Proof.
  unfold generateFallbackThread.
  destruct (tryBlock text params g) as [r|m].
  - left. exists r. split; reflexivity.
  - right. eexists. split; reflexivity.
Qed.

Lemma tryBlock_count (host : Host) (text : jsstring) (params : Params)
    (g : rng) (r : ThreadResult) :
  tryBlock text params g = Normal r ->
  tweets_generated (metadata r) = len (thread r).
Proof.
  unfold tryBlock. destruct (segmentAndRebalance text params g);
    [|discriminate].
  intros E. injection E as <-. reflexivity.
Qed.

(** X26: [useFallback] never reaches its own error result.  When the
    local generator fails it hands that failure on (code 500); otherwise it
    returns the locally generated thread with fresh hashtags only: the
    tweets are otherwise unchanged, no hashtag is in two tweets, and the
    metadata still count the tweets. *)
Theorem useFallback_result (host : Host) (text : jsstring) (params : Params)
    (g : rng) :
  match useFallback text params g with
  | Fallback (Generated r) =>
      noSharedHashtag (thread r)
      /\ Forall2 sameExceptHashtags
           (threadOf (generateFallbackThread text params g)) (thread r)
      /\ tweets_generated (metadata r) = len (thread r)
  | Fallback (Failed e) =>
      generateFallbackThread text params g = Normal (Failed e)
      /\ code e = 500
  | BothFailed _ => False
  end.
Proof.
  unfold useFallback.
  destruct (@generateFallbackThread_cases host text params g)
    as [(r & Ht & ->)|(e & -> & He)]; [|split; [reflexivity|exact He]].
  cbn [thread metadata threadOf].
  split; [|split].
  - exact (@threadHashtagsFrom_noShared host _ (List.length (thread r))
             (thread r) O []).
  - exact (@threadHashtagsFrom_same host _ (List.length (thread r))
             (thread r) O []).
  - rewrite (@tryBlock_count host text params g r Ht). unfold len. f_equal.
    symmetry. unfold HashtagGenerator.generateThreadHashtags.
    rewrite <- (length_map index
                  (HashtagGenerator.threadHashtagsFrom _ _ _ _ _)).
    rewrite (@threadHashtagsFrom_keeps host Z index) by reflexivity.
    apply length_map.
Qed.

End ServiceFacts.

(** ** utils/inputSanitizer.js *)

Module SanitizerFacts.
Import Dedupe InputSanitizer JsStringFacts ListFacts DedupeMoreFacts.

(** *** Strings thinned out *)

Lemma Thinned_refl (s : jsstring) : Thinned s s.
Proof. induction s; constructor; assumption. Qed.

Lemma Thinned_drop_prefix (l o i : jsstring) :
  Thinned o i -> Thinned o (l ++ i).
Proof. intros H. induction l; cbn [app]; [exact H|constructor; exact IHl]. Qed.

Lemma Thinned_nil (i : jsstring) : Thinned [] i.
Proof. induction i; constructor; assumption. Qed.

Lemma Thinned_infix (l s r : jsstring) : Thinned s (l ++ s ++ r).
Proof.
  apply Thinned_drop_prefix. induction s as [|c s IH]; cbn [app].
  - apply Thinned_nil.
  - constructor. exact IH.
Qed.

Lemma Thinned_In (o i : jsstring) (x : codeunit) :
  Thinned o i -> x <> 32%N -> In x o -> In x i.
Proof.
  intros H Hx. induction H as [|c o i H IH|c o i H IH|c o i H IH]; cbn [In].
  - tauto.
  - intros [E|Hi]; [left; exact E|right; exact (IH Hi)].
  - intros Hi. right. exact (IH Hi).
  - intros [E|Hi]; [congruence|right; exact (IH Hi)].
Qed.

Lemma Thinned_Forall (P : codeunit -> Prop) (o i : jsstring) :
  Thinned o i -> P 32%N -> Forall P i -> Forall P o.
Proof.
  intros H H32. induction H as [|c o i H IH|c o i H IH|c o i H IH];
    intros Hi; [constructor|..]; inversion Hi; subst.
  - constructor; [assumption|apply IH; assumption].
  - apply IH; assumption.
  - constructor; [assumption|apply IH; assumption].
Qed.

Lemma Thinned_tagFree (o i : jsstring) :
  Thinned o i -> tagFree i -> tagFree o.
Proof.
  intros H. induction H as [|c o i H IH|c o i H IH|c o i H IH];
    cbn [tagFree]; [tauto|..].
  - intros [H1 H2]. split; [|exact (IH H2)].
    intros E Hin. apply (H1 E).
    apply (Thinned_In H); [discriminate|exact Hin].
  - intros [_ H2]. exact (IH H2).
  - intros [_ H2]. split; [discriminate|exact (IH H2)].
Qed.

Lemma Thinned_filter (p : codeunit -> bool) (s : jsstring) :
  Thinned (List.filter p s) s.
Proof.
  induction s as [|c s IH]; cbn [List.filter]; [constructor|].
  destruct (p c); constructor; exact IH.
Qed.

Lemma Thinned_collapseBlanks (s : jsstring) (inRun : bool) :
  Thinned (collapseBlanks s inRun) s.
Proof.
  revert inRun. induction s as [|c s IH]; intros inRun;
    cbn [collapseBlanks]; [constructor|].
  destruct (isBlank c); [destruct inRun|]; constructor; apply IH.
Qed.

Lemma Thinned_collapseWhiteSpace (s : jsstring) (inRun : bool) :
  Thinned (collapseWhiteSpace s inRun) s.
Proof.
  revert inRun. induction s as [|c s IH]; intros inRun;
    cbn [collapseWhiteSpace]; [constructor|].
  destruct (isWhiteSpace c); [destruct inRun|]; constructor; apply IH.
Qed.

Lemma Thinned_capNewlines (s : jsstring) (run : nat) :
  Thinned (capNewlines s run) s.
Proof.
  revert run. induction s as [|c s IH]; intros run; cbn [capNewlines];
    [constructor|].
  destruct (c =? 10)%N; [destruct (run <? 2)%nat|]; constructor; apply IH.
Qed.

Lemma Thinned_trim (s : jsstring) : Thinned (trim s) s.
Proof.
  destruct (trim_infix s) as (l & r & E). rewrite E at 2.
  apply Thinned_infix.
Qed.

Lemma Thinned_firstn (n : nat) (s : jsstring) : Thinned (firstn n s) s.
Proof.
  rewrite <- (firstn_skipn n s) at 2.
  rewrite <- (app_nil_l (firstn n s ++ skipn n s)).
  apply Thinned_infix.
Qed.

Lemma Thinned_trans (a b c : jsstring) :
  Thinned a b -> Thinned b c -> Thinned a c.
Proof.
  intros Hab Hbc. revert a Hab.
  induction Hbc as [|x b c H IH|x b c H IH|x b c H IH]; intros a Hab.
  - exact Hab.
  - inversion Hab; subst; constructor; apply IH; assumption.
  - constructor. apply IH. exact Hab.
  - inversion Hab; subst; constructor; apply IH; assumption.
Qed.

Lemma substring_0 (b : Z) (s : jsstring) :
  substring 0 b s = firstn (clamp (len s) b) s.
Proof.
  unfold substring. 
  assert (H0 : clamp (len s) 0 = O).
  { unfold clamp. pose proof (len_nonneg s). rewrite Z.min_l by lia.
    reflexivity. }
  rewrite H0. cbn [Nat.min Nat.max skipn]. rewrite Nat.sub_0_r.
  reflexivity.
Qed.

(** *** Tags *)

Lemma Thinned_removeMatches (m : jsstring -> option nat) (s : jsstring)
    (skip : nat) :
  Thinned (removeMatches m s skip) s.
Proof.
  revert skip. induction s as [|c s IH]; intros skip; cbn [removeMatches];
    [constructor|].
  destruct skip as [|k]; [|constructor; apply IH].
  destruct (m (c :: s)) as [[|k]|]; constructor; apply IH.
Qed.

Lemma throughFirst_none (s : jsstring) :
  throughFirst N.eqb [62%N] s = None -> ~ In 62%N s.
Proof.
  induction s as [|c s IH]; cbn [throughFirst startsWithBy In]; [tauto|].
  destruct (N.eqb_spec 62 c) as [E|E]; cbn [andb].
  - intros H. discriminate H.
  - destruct (throughFirst N.eqb [62%N] s); [intros H; discriminate H|].
    intros _ [H|H]; [congruence|exact (IH eq_refl H)].
Qed.

Lemma tagFree_removeMatches (s : jsstring) (skip : nat) :
  tagFree (removeMatches tagMatch s skip).
Proof.
  revert skip. induction s as [|c s IH]; intros skip; cbn [removeMatches];
    [exact I|].
  destruct skip as [|k]; [|apply IH].
  destruct (tagMatch (c :: s)) as [[|k]|] eqn:E.
  - cbn [tagMatch] in E. destruct (c =? 60)%N; [|discriminate E].
    destruct (throughFirst N.eqb [62%N] s); discriminate E.
  - apply IH.
  - cbn [tagFree]. split; [|apply IH].
    intros -> Hin.
    apply (Thinned_In (Thinned_removeMatches tagMatch s O)) in Hin;
      [|discriminate].
    cbn [tagMatch] in E. change (60 =? 60)%N with true in E. cbv iota in E.
    destruct (throughFirst N.eqb [62%N] s) eqn:Et; [discriminate E|].
    exact (throughFirst_none _ Et Hin).
Qed.

Lemma sameIgnoringCase_angle (a b : codeunit) :
  (a = 60%N \/ a = 62%N) -> sameIgnoringCase a b = true -> b = a.
Proof.
  unfold sameIgnoringCase, asciiLower.
  intros Ha H. apply N.eqb_eq in H.
  destruct ((65 <=? b) && (b <=? 90))%N eqn:E.
  - apply andb_true_iff in E. destruct E as [E1 E2].
    apply N.leb_le in E1. apply N.leb_le in E2.
    destruct Ha as [-> | ->]; cbn in H; lia.
  - destruct Ha as [-> | ->]; cbn in H; congruence.
Qed.

Lemma startsWithBy_In (s p : jsstring) (x : codeunit) :
  (x = 60%N \/ x = 62%N) ->
  startsWithBy sameIgnoringCase s p = true -> In x p -> In x s.
Proof.
  intros Hx. revert s. induction p as [|a p IH]; intros s; cbn [In];
    [tauto|].
  destruct s as [|b s]; cbn [startsWithBy]; [discriminate|].
  intros H. apply andb_true_iff in H. destruct H as [H1 H2].
  intros [E|Hin].
  - subst a. left. apply (@sameIgnoringCase_angle x b Hx H1).
  - right. exact (IH _ H2 Hin).
Qed.

Lemma throughFirst_In (close s : jsstring) (n : nat) (x : codeunit) :
  (x = 60%N \/ x = 62%N) ->
  throughFirst sameIgnoringCase close s = Some n -> In x close -> In x s.
Proof.
  intros Hx. revert n. induction s as [|c s IH]; intros n;
    cbn [throughFirst]; [discriminate|].
  destruct (startsWithBy sameIgnoringCase (c :: s) close) eqn:E.
  - intros _ Hin. exact (@startsWithBy_In (c :: s) close x Hx E Hin).
  - destruct (throughFirst sameIgnoringCase close s) as [m|];
      [|discriminate].
    intros _ Hin. right. exact (IH m eq_refl Hin).
Qed.

Lemma In_skipn (A : Type) (x : A) (n : nat) (l : list A) :
  In x (skipn n l) -> In x l.
Proof.
  intros H. rewrite <- (firstn_skipn n l). apply in_or_app. right. exact H.
Qed.

Lemma elementMatch_tag (name s : jsstring) (n : nat) :
  elementMatch name s = Some n -> exists s', s = 60%N :: s' /\ In 62%N s'.
Proof.
  unfold elementMatch.
  destruct (startsWithBy sameIgnoringCase s (60%N :: name)) eqn:E;
    [|discriminate].
  destruct (wordEnds _); [|discriminate].
  destruct (throughFirst _ _ _) as [m|] eqn:Et; [|discriminate].
  intros _.
  destruct s as [|b s]; [discriminate E|].
  cbn [startsWithBy] in E. apply andb_true_iff in E. destruct E as [E1 _].
  apply sameIgnoringCase_angle in E1; [|left; reflexivity]. subst b.
  exists s. split; [reflexivity|].
  cbn [List.length skipn] in Et.
  apply (@In_skipn _ _ (List.length name)).
  apply (@throughFirst_In _ _ m 62%N (or_intror eq_refl) Et).
  apply in_or_app. right. apply in_or_app. right. left. reflexivity.
Qed.

Lemma elementMatch_tagFree (name s : jsstring) :
  tagFree s -> elementMatch name s = None.
Proof.
  intros H. destruct (elementMatch name s) as [n|] eqn:E; [|reflexivity].
  destruct (@elementMatch_tag name s n E) as (s' & -> & Hin).
  cbn [tagFree] in H. destruct H as [H _]. exfalso. exact (H eq_refl Hin).
Qed.

Lemma removeMatches_idle (m : jsstring -> option nat) (s : jsstring) :
  (forall t, tagFree t -> m t = None) -> tagFree s ->
  removeMatches m s O = s.
Proof.
  intros Hm. induction s as [|c s IH]; intros H; cbn [removeMatches];
    [reflexivity|].
  rewrite (Hm _ H). f_equal. apply IH. exact (proj2 H).
Qed.

Lemma removals_idle (s : jsstring) :
  removeScripts (removeTags s) = removeTags s
  /\ removeStyles (removeScripts (removeTags s)) = removeTags s.
Proof.
  assert (H : tagFree (removeTags s)) by apply tagFree_removeMatches.
  assert (H1 : removeScripts (removeTags s) = removeTags s).
  { apply removeMatches_idle; [apply elementMatch_tagFree|exact H]. }
  split; [exact H1|]. rewrite H1.
  apply removeMatches_idle; [apply elementMatch_tagFree|exact H].
Qed.

(** X27: in [sanitizeInput] the removal of script elements and the
    removal of style elements never change anything: the removal of tags
    before them leaves no [<] with a [>] after it, and a match of either
    pattern starts with a [<] and ends with a [>]. *)
Theorem script_and_style_removal_idle (s : jsstring) :
  removeScripts (removeTags s) = removeTags s
  /\ removeStyles (removeScripts (removeTags s)) = removeTags s.
Proof. apply removals_idle. Qed.

(** *** Entities *)

Lemma replaceAll_idle (pattern replacement s : jsstring) :
  hd_error pattern = Some 38%N -> ~ In 38%N s ->
  replaceAll pattern replacement s O = s.
Proof.
  destruct pattern as [|a p]; [discriminate|]. cbn [hd_error].
  intros E. injection E as ->.
  induction s as [|c s IH]; intros H; cbn [replaceAll startsWith];
    [reflexivity|].
  cbn [In] in H.
  destruct (N.eqb_spec 38 c) as [E|E]; [exfalso; apply H; left; congruence|].
  cbn [andb]. f_equal. apply IH. tauto.
Qed.

Lemma decodeEntities_idle (s : jsstring) :
  ~ In 38%N s -> decodeEntities s = s.
Proof.
  intros H. unfold decodeEntities, entities. cbn [fold_left fst snd].
  repeat (rewrite (@replaceAll_idle _ _ s) by (reflexivity || exact H)).
  reflexivity.
Qed.

(** *** The stages of sanitizeInput *)

(** What the first stage of [sanitizeInput] leaves of a text. *)
Lemma sanitizeInput_Thinned (input : jsstring) (opts : SanitizeOptions) :
  input <> [] ->
  Thinned (sanitizeInput input opts)
    (if removeHTML opts
     then decodeEntities (removeStyles (removeScripts (removeTags input)))
     else input).
Proof.
  intros Hne. unfold sanitizeInput.
  destruct input as [|c0 input0]; [congruence|]. cbn [isEmpty].
  set (input := c0 :: input0). cbv zeta.
  set (a := if removeHTML opts
            then decodeEntities
                   (removeStyles (removeScripts (removeTags input)))
            else input).
  set (b := if removeControlChars opts
            then List.filter (fun c => negb (isControlUnit c)) a
            else a).
  set (c := if normalizeWhitespace opts
            then if preserveNewlines opts
                 then capNewlines (collapseBlanks b false) O
                 else collapseWhiteSpace b false
            else b).
  assert (Hb : Thinned b a).
  { subst b. destruct (removeControlChars opts);
      [apply Thinned_filter|apply Thinned_refl]. }
  assert (Hc : Thinned c b).
  { subst c. destruct (normalizeWhitespace opts); [|apply Thinned_refl].
    destruct (preserveNewlines opts).
    - eapply Thinned_trans;
        [apply Thinned_capNewlines|apply Thinned_collapseBlanks].
    - apply Thinned_collapseWhiteSpace. }
  assert (Ht : Thinned (trim c) a).
  { eapply Thinned_trans; [apply Thinned_trim|].
    eapply Thinned_trans; [exact Hc|exact Hb]. }
  destruct (negb (maxLength opts =? 0) && (len (trim c) >? maxLength opts));
    [|exact Ht].
  rewrite substring_0.
  eapply Thinned_trans; [apply Thinned_firstn|exact Ht].
Qed.

(** X28: with [removeHTML] set and for an input without [&], the
    text returned by [sanitizeInput] holds nothing of the form of a tag: no
    [<] of it has a [>] anywhere after it.  (The entities are decoded after
    the tags are removed, so that an input with [&] is another matter.) *)
Theorem sanitizeInput_tagFree (input : jsstring) (opts : SanitizeOptions) :
  removeHTML opts = true -> ~ In 38%N input ->
  tagFree (sanitizeInput input opts).
Proof.
  intros Hh Ha.
  destruct input as [|c0 input0]; [exact I|].
  set (input := c0 :: input0) in *.
  assert (H := @sanitizeInput_Thinned input opts ltac:(discriminate)).
  rewrite Hh in H.
  destruct (removals_idle input) as [_ E].
  rewrite E in H.
  rewrite decodeEntities_idle in H.
  - apply (Thinned_tagFree H). apply tagFree_removeMatches.
  - intros Hin. apply Ha.
    apply (Thinned_In (Thinned_removeMatches tagMatch input O));
      [discriminate|exact Hin].
Qed.

(** *** Runs *)

Lemma runsAtMost_runs (c : codeunit) (k : nat) (s : jsstring) (n : nat) :
  runsAtMost c k s n = true -> (n <= k)%nat ->
  (forall m r, s = repeat c m ++ r -> (n + m <= k)%nat)
  /\ (forall l m r, s = l ++ repeat c m ++ r -> (m <= k)%nat).
Proof.
  revert n. induction s as [|x s IH]; intros n H Hn.
  - split.
    + intros m r E. destruct m as [|m]; [lia|discriminate E].
    + intros l m r E. destruct l as [|y l]; [|discriminate E].
      destruct m as [|m]; [lia|discriminate E].
  - cbn [runsAtMost] in H.
    assert (Hfirst : forall m r, x :: s = repeat c m ++ r ->
                                 (n + m <= k)%nat).
    { intros m r E. destruct m as [|m]; [lia|].
      cbn [repeat app] in E. injection E as -> E.
      rewrite N.eqb_refl in H. apply andb_true_iff in H.
      destruct H as [H1 H2]. apply Nat.leb_le in H1.
      destruct (IH _ H2 H1) as [IH1 _]. specialize (IH1 m r E). lia. }
    split; [exact Hfirst|].
    intros l m r E. destruct l as [|y l].
    + specialize (Hfirst m r E). lia.
    + cbn [app] in E. injection E as _ E.
      destruct (x =? c)%N.
      * apply andb_true_iff in H. destruct H as [H1 H2].
        apply Nat.leb_le in H1.
        destruct (IH _ H2 H1) as [_ IH2]. exact (IH2 l m r E).
      * destruct (IH _ H (Nat.le_0_l k)) as [_ IH2]. exact (IH2 l m r E).
Qed.

Lemma runsAtMost_noRun (c : codeunit) (k : nat) (s : jsstring) :
  runsAtMost c k s O = true -> noRun c (S k) s.
Proof.
  intros H l r E.
  destruct (@runsAtMost_runs c k s O H (Nat.le_0_l k)) as [_ H2].
  specialize (H2 l (S k) r E). lia.
Qed.

Lemma noRun_infix (c : codeunit) (k : nat) (l s r : jsstring) :
  noRun c k (l ++ s ++ r) -> noRun c k s.
Proof.
  intros H l' r' E. apply (H (l ++ l') (r' ++ r)). rewrite E.
  rewrite <- !app_assoc. reflexivity.
Qed.

Lemma collapseBlanks_runs (s : jsstring) (inRun : bool) :
  runsAtMost 32%N 1 (collapseBlanks s inRun) (if inRun then 1 else 0) = true.
Proof.
  revert inRun. induction s as [|c s IH]; intros inRun;
    cbn [collapseBlanks]; [reflexivity|].
  destruct (isBlank c) eqn:Ec.
  - destruct inRun; [apply (IH true)|].
    cbn [runsAtMost]. change (32 =? 32)%N with true. cbn [Nat.leb andb].
    apply (IH true).
  - cbn [runsAtMost].
    assert (E : (c =? 32)%N = false).
    { unfold isBlank in Ec. apply orb_false_iff in Ec. tauto. }
    rewrite E. apply (IH false).
Qed.

Lemma collapseBlanks_no_tab (s : jsstring) (inRun : bool) :
  ~ In 9%N (collapseBlanks s inRun).
Proof.
  revert inRun. induction s as [|c s IH]; intros inRun;
    cbn [collapseBlanks]; [tauto|].
  destruct (isBlank c) eqn:Ec.
  - destruct inRun; [apply IH|].
    intros [E|H]; [discriminate E|exact (IH _ H)].
  - intros [E|H]; [|exact (IH _ H)].
    subst c. discriminate Ec.
Qed.

Lemma capNewlines_spaces (s : jsstring) (run n : nat) :
  runsAtMost 32%N 1 s n = true -> ((0 < run)%nat -> n = O) ->
  runsAtMost 32%N 1 (capNewlines s run) n = true.
Proof.
  revert run n. induction s as [|c s IH]; intros run n H Hr;
    cbn [capNewlines]; [reflexivity|].
  cbn [runsAtMost] in H.
  destruct (N.eqb_spec c 10%N) as [E|E].
  - subst c. change (10 =? 32)%N with false in H. cbv iota in H.
    destruct (run <? 2)%nat eqn:Er.
    + cbn [runsAtMost]. change (10 =? 32)%N with false. cbv iota.
      apply IH; [exact H|reflexivity].
    + apply Nat.ltb_ge in Er. rewrite (Hr ltac:(lia)).
      apply IH; [exact H|reflexivity].
  - cbn [runsAtMost]. destruct (c =? 32)%N.
    + apply andb_true_iff in H. destruct H as [H1 H2].
      rewrite H1. cbn [andb]. apply IH; [exact H2|lia].
    + apply IH; [exact H|lia].
Qed.

Lemma capNewlines_runs (s : jsstring) (run : nat) :
  runsAtMost 10%N 2 (capNewlines s run) (Nat.min run 2) = true.
Proof.
  revert run. induction s as [|c s IH]; intros run; cbn [capNewlines];
    [reflexivity|].
  destruct (N.eqb_spec c 10%N) as [E|E].
  - subst c. destruct (run <? 2)%nat eqn:Er.
    + apply Nat.ltb_lt in Er. cbn [runsAtMost].
      change (10 =? 10)%N with true. cbv iota.
      rewrite (Nat.min_l run 2) by lia.
      apply andb_true_iff. split; [apply Nat.leb_le; lia|].
      specialize (IH (S run)). rewrite (Nat.min_l (S run) 2) in IH by lia.
      exact IH.
    + apply Nat.ltb_ge in Er. rewrite (Nat.min_r run 2) by lia.
      specialize (IH (S run)). rewrite (Nat.min_r (S run) 2) in IH by lia.
      exact IH.
  - cbn [runsAtMost]. apply N.eqb_neq in E. rewrite E. apply (IH O).
Qed.

Lemma wellSpaced_noRun (s : jsstring) :
  wellSpaced false s = true -> noRun 32%N 2 s.
Proof.
  intros H l r E. rewrite E in H. apply wellSpaced_suffix in H.
  cbn [repeat app wellSpaced] in H.
  change (isWhiteSpace 32%N) with true in H. cbv iota in H.
  cbn [negb andb] in H. discriminate H.
Qed.

Lemma noRun_nil (c : codeunit) (k : nat) : noRun c (S k) [].
Proof. intros l r E. destruct l; discriminate E. Qed.

Lemma dropWhile_firstn (A : Type) (p : A -> bool) (k : nat) (l : list A) :
  dropWhile p l = l -> dropWhile p (firstn k l) = firstn k l.
Proof.
  destruct l as [|x l]; [rewrite firstn_nil; reflexivity|].
  destruct k as [|k]; [reflexivity|].
  cbn [firstn dropWhile]. destruct (p x) eqn:E; [|reflexivity].
  intros H. exfalso.
  destruct (dropWhile_suffix p l) as (pre & Hl & _).
  apply (f_equal (@List.length A)) in H. rewrite Hl in H at 2.
  cbn [List.length] in H. rewrite length_app in H. lia.
Qed.

(** The result is a prefix of the trimmed text of the third stage. *)
Lemma sanitizeInput_cut (input : jsstring) (opts : SanitizeOptions) :
  input <> [] ->
  exists b k,
    let c :=
      if normalizeWhitespace opts
      then if preserveNewlines opts
           then capNewlines (collapseBlanks b false) O
           else collapseWhiteSpace b false
      else b in
    sanitizeInput input opts = firstn k (trim c)
    /\ (removeControlChars opts = true ->
        Forall (fun u => isControlUnit u = false) b)
    /\ (maxLength opts <> 0 ->
        len (firstn k (trim c)) <= Z.max 0 (maxLength opts))
    /\ (firstn k (trim c) = trim c
        \/ firstn k (trim c) = []
        \/ len (firstn k (trim c)) = maxLength opts).
Proof.
  intros Hne. unfold sanitizeInput.
  destruct input as [|c0 input0]; [congruence|]. cbn [isEmpty].
  set (input := c0 :: input0). cbv zeta.
  set (a := if removeHTML opts
            then decodeEntities
                   (removeStyles (removeScripts (removeTags input)))
            else input).
  set (b := if removeControlChars opts
            then List.filter (fun c => negb (isControlUnit c)) a
            else a).
  set (c := if normalizeWhitespace opts
            then if preserveNewlines opts
                 then capNewlines (collapseBlanks b false) O
                 else collapseWhiteSpace b false
            else b).
  assert (Hb : removeControlChars opts = true ->
               Forall (fun u => isControlUnit u = false) b).
  { intros E. subst b. rewrite E. apply Forall_forall. intros u Hu.
    apply filter_In in Hu. destruct Hu as [_ Hu].
    apply negb_true_iff in Hu. exact Hu. }
  assert (Hlen := len_nonneg (trim c)).
  destruct (Z.eqb_spec (maxLength opts) 0) as [E0|E0]; cbn [negb andb].
  - exists b, (List.length (trim c)). cbv zeta. fold c.
    rewrite firstn_all. split; [reflexivity|]. split; [exact Hb|].
    split; [congruence|]. left. reflexivity.
  - destruct (Z.gtb_spec (len (trim c)) (maxLength opts)) as [Hgt|Hle].
    + exists b, (clamp (len (trim c)) (maxLength opts)). cbv zeta. fold c.
      split; [apply substring_0|]. split; [exact Hb|].
      assert (Hk : len (firstn (clamp (len (trim c)) (maxLength opts))
                          (trim c))
                   = Z.max 0 (maxLength opts)).
      { unfold len at 1. rewrite length_firstn. unfold clamp.
        unfold len in *. lia. }
      split; [intros _; lia|].
      destruct (Z.ltb_spec (maxLength opts) 0) as [Hneg|Hpos].
      * right. left. unfold clamp. rewrite Z.max_l by lia. reflexivity.
      * right. right. lia.
    + exists b, (List.length (trim c)). cbv zeta. fold c.
      rewrite firstn_all. split; [reflexivity|]. split; [exact Hb|].
      split; [intros _; lia|]. left. reflexivity.
Qed.

(** X29: the text returned by [sanitizeInput] is at most [maxLength]
    units long (for a [maxLength] other than 0); it does not start with
    white space, and does not end with it either unless it was cut at
    [maxLength]; with [removeControlChars] it holds no control character of
    the removed class; with [normalizeWhitespace] it holds no tab, no two
    adjacent spaces and no three adjacent line feeds when the newlines are
    preserved, and otherwise no white space but single spaces. *)
Theorem sanitizeInput_shape (input : jsstring) (opts : SanitizeOptions) :
  let r := sanitizeInput input opts in
  (maxLength opts <> 0 -> len r <= Z.max 0 (maxLength opts))
  /\ dropWhile isWhiteSpace r = r
  /\ (trimmed r \/ len r = maxLength opts)
  /\ (removeControlChars opts = true ->
      Forall (fun c => isControlUnit c = false) r)
  /\ (normalizeWhitespace opts = true -> preserveNewlines opts = true ->
      ~ In 9%N r /\ noRun 32%N 2 r /\ noRun 10%N 3 r)
  /\ (normalizeWhitespace opts = true -> preserveNewlines opts = false ->
      Forall (fun c => isWhiteSpace c = true -> c = 32%N) r
      /\ noRun 32%N 2 r).
Proof.
  cbv zeta.
  destruct input as [|c0 input0].
  { cbn. split; [lia|]. split; [reflexivity|].
    split; [left; split; reflexivity|]. split; [constructor|].
    split; intros _ _; repeat split; try constructor; try tauto;
      apply noRun_nil. }
  destruct (@sanitizeInput_cut (c0 :: input0) opts ltac:(discriminate))
    as (b & k & Hr & Hb & Hlen & Hcut).
  cbv zeta in Hr, Hlen, Hcut.
  set (c := if normalizeWhitespace opts
            then if preserveNewlines opts
                 then capNewlines (collapseBlanks b false) O
                 else collapseWhiteSpace b false
            else b) in *.
  rewrite Hr. clear Hr.
  assert (Hin : exists l r, c = l ++ firstn k (trim c) ++ r).
  { destruct (trim_infix c) as (l & r & E). exists l.
    exists (skipn k (trim c) ++ r).
    rewrite (app_assoc (firstn k (trim c))), firstn_skipn. exact E. }
  destruct Hin as (l & r & Hin).
  assert (Hth : Thinned (firstn k (trim c)) c).
  { rewrite Hin at 2. apply Thinned_infix. }
  split; [exact Hlen|]. split.
  { apply dropWhile_firstn. apply (trim_trimmed c). }
  split.
  { destruct Hcut as [E|[E|E]].
    - left. rewrite E. apply trim_trimmed.
    - left. rewrite E. split; reflexivity.
    - right. exact E. }
  split.
  { intros E. apply (Thinned_Forall Hth); [reflexivity|].
    assert (Hcb : Thinned c b).
    { subst c. destruct (normalizeWhitespace opts); [|apply Thinned_refl].
      destruct (preserveNewlines opts).
      - eapply Thinned_trans;
          [apply Thinned_capNewlines|apply Thinned_collapseBlanks].
      - apply Thinned_collapseWhiteSpace. }
    apply (Thinned_Forall Hcb); [reflexivity|]. exact (Hb E). }
  split.
  - intros En Ep. subst c. rewrite En, Ep in *.
    set (c := capNewlines (collapseBlanks b false) O) in *.
    split; [|split].
    + intros H. apply (Thinned_In Hth) in H; [|discriminate].
      apply (Thinned_In (Thinned_capNewlines _ _)) in H; [|discriminate].
      exact (collapseBlanks_no_tab _ _ H).
    + apply (@noRun_infix _ _ l _ r). rewrite <- Hin.
      apply runsAtMost_noRun. apply capNewlines_spaces; [|lia].
      apply (collapseBlanks_runs b false).
    + apply (@noRun_infix _ _ l _ r). rewrite <- Hin.
      apply runsAtMost_noRun. apply (capNewlines_runs _ O).
  - intros En Ep. subst c. rewrite En, Ep in *.
    set (c := collapseWhiteSpace b false) in *.
    assert (Hw : wellSpaced false (firstn k (trim c)) = true).
    { assert (H := collapseWhiteSpace_wellSpaced b false). fold c in H.
      rewrite Hin in H. apply wellSpaced_suffix in H.
      apply wellSpaced_prefix in H. exact H. }
    split; [exact (@wellSpaced_spaces _ _ Hw)|exact (@wellSpaced_noRun _ Hw)].
Qed.

(** *** validateParameters *)

Lemma arrayIncludes_In (l : list jsstring) (x : jsstring) :
  arrayIncludes l x = true -> In x l.
Proof.
  unfold arrayIncludes. intros H. apply existsb_exists in H.
  destruct H as (y & Hy & E). unfold streq in E.
  destruct (jsstring_eq_dec x y); [subst; exact Hy|discriminate E].
Qed.

Lemma validStyles_known (name : jsstring) :
  In name validStyles -> knownStyle (styleOfName name) = true.
Proof.
  unfold validStyles. cbn [In].
  intros [<-|[<-|[<-|[<-|[<-|[]]]]]]; reflexivity.
Qed.

Ltac split_ifs H :=
  repeat match type of H with
         | context [if ?b then _ else _] =>
             lazymatch b with
             | (len _ >? 0) => fail
             | _ => destruct b eqn:?
             end
         end.

Ltac decide_errors H :=
  cbv beta iota zeta in H;
  match type of H with
  | context [len ?e >? 0] =>
      let v := eval vm_compute in (len e >? 0) in
      change (len e >? 0) with v in H
  end;
  cbv iota in H.

Lemma validateParameters_accepts (env : Environment) (params : RequestBody)
    (warnings : list Issue) (s : Sanitized) :
  validateParameters env params = Accepted warnings s ->
  (exists text,
      body_text params = Some text /\ hasInk text = true
      /\ len text <= orElse (env_MAX_INPUT_LENGTH env) MAX_INPUT_LENGTH
      /\ sanitized_text s = sanitizeInput text (defaults env))
  /\ In (sanitized_language s) validLanguages
  /\ In (sanitized_style s) validStyles
  /\ sanitized_maxTweets s
     = Z.min (orElse (body_maxTweets params) DEFAULT_MAX_TWEETS)
         (orElse (env_MAX_TWEETS_PER_THREAD env) MAX_TWEETS_PER_THREAD)
  /\ (forall n, body_maxTweets params = Some n ->
        1 <= n
        <= orElse (env_MAX_TWEETS_PER_THREAD env) MAX_TWEETS_PER_THREAD).
Proof.
  intros H. unfold validateParameters in H. cbv zeta in H.
  destruct (body_text params) as [[|c0 t0]|] eqn:Et;
    destruct (body_language params) as [[|cl l0]|] eqn:El;
    destruct (body_style params) as [[|cs s0]|] eqn:Es;
    destruct (body_maxTweets params) as [n|] eqn:En;
    split_ifs H; decide_errors H; try discriminate H;
    injection H as <- <-;
    cbn [sanitized_text sanitized_language sanitized_style
         sanitized_maxTweets stringOr].
  all: split;
    [eexists; split; [reflexivity|]; split; [|split; [|reflexivity]]
    |split; [|split; [|split; [reflexivity|]]]].
  all: try (intros m Em; discriminate Em).
  all: try (intros m Em; injection Em as <-; lia).
  all: try (unfold DEFAULT_LANGUAGE, validLanguages; cbn [In]; tauto).
  all: try (unfold DEFAULT_STYLE, validStyles; cbn [In]; tauto).
  all: try (apply arrayIncludes_In; apply negb_false_iff; assumption).
  all: try lia.
  all: match goal with
       | Hz : (len (trim ?t) =? 0) = false |- hasInk ?t = true =>
           destruct (hasInk t) eqn:Ei; [reflexivity|];
           apply trim_nil_iff in Ei; rewrite Ei in Hz; discriminate Hz
       end.
Qed.

Lemma orElse_nonzero (parsed : option Z) (fallback : Z) :
  fallback <> 0 -> orElse parsed fallback <> 0.
Proof.
  intros H. unfold orElse. destruct parsed as [n|]; [|exact H].
  destruct (Z.eqb_spec n 0); assumption.
Qed.

(** X30: when [validateParameters] accepts a request, the sanitized
    text is within the input limit (so that the size check that server.js
    makes next, against the same limit, cannot fail), the language is one
    of the four valid ones, the style is one of the five styles of the
    generator, and [maxTweets] is at most the allowed maximum and, that
    maximum being at least 1, at least 1. *)
Theorem validated_request (env : Environment) (params : RequestBody)
    (warnings : list Issue) (s : Sanitized) :
  validateParameters env params = Accepted warnings s ->
  let maxInput := orElse (env_MAX_INPUT_LENGTH env) MAX_INPUT_LENGTH in
  let maxAllowed :=
    orElse (env_MAX_TWEETS_PER_THREAD env) MAX_TWEETS_PER_THREAD in
  len (sanitized_text s) <= maxInput
  /\ In (sanitized_language s) validLanguages
  /\ knownStyle (LocalTemplates.style (paramsOf s)) = true
  /\ LocalTemplates.maxTweets (paramsOf s) <= maxAllowed
  /\ (1 <= maxAllowed -> 1 <= LocalTemplates.maxTweets (paramsOf s)).
Proof.
  intros H. cbv zeta.
  destruct (@validateParameters_accepts env params warnings s H)
    as ((text & Et & Hi & Hlen & Es) & Hl & Hs & Hm & Hn).
  cbn [paramsOf LocalTemplates.style LocalTemplates.maxTweets].
  split; [|split; [exact Hl|split; [exact (@validStyles_known _ Hs)|]]].
  - assert (Hne : text <> []) by (intros ->; discriminate Hi).
    destruct (@sanitizeInput_cut text (defaults env) Hne)
      as (b & k & Hr & _ & Hcap & _).
    cbv zeta in Hr, Hcap. rewrite Es, Hr.
    assert (Hpos : 0 < len text).
    { destruct text; [congruence|]. unfold len. cbn [List.length]. lia. }
    cbn [maxLength defaults] in Hcap.
    specialize (Hcap (@orElse_nonzero _ MAX_INPUT_LENGTH ltac:(discriminate))). lia.
  - rewrite Hm. split; [lia|]. intros H1.
    destruct (body_maxTweets params) as [n|] eqn:En.
    + specialize (Hn n eq_refl). unfold orElse at 1.
      destruct (Z.eqb_spec n 0); [lia|]. lia.
    + cbn [orElse]. unfold DEFAULT_MAX_TWEETS. lia.
Qed.

Lemma validated_request_witness :
  let env :=
    {| env_MAX_INPUT_LENGTH := None; env_MAX_TWEETS_PER_THREAD := None |} in
  let params :=
    {| body_text := Some (js "Ship <b>small</b> changes.");
       body_language := None; body_style := Some (js "concise");
       body_maxTweets := Some 3; body_includeHashtags := None;
       body_includeImages := None |} in
  exists warnings s,
    validateParameters env params = Accepted warnings s
    /\ len (sanitized_text s) <= 10000
    /\ In (sanitized_language s) validLanguages
    /\ knownStyle (LocalTemplates.style (paramsOf s)) = true
    /\ LocalTemplates.maxTweets (paramsOf s) <= 20
    /\ (1 <= 20 -> 1 <= LocalTemplates.maxTweets (paramsOf s)).
Proof.
  cbv zeta. eexists. eexists. split; [vm_compute; reflexivity|].
  apply (@validated_request
           {| env_MAX_INPUT_LENGTH := None;
              env_MAX_TWEETS_PER_THREAD := None |}
           {| body_text := Some (js "Ship <b>small</b> changes.");
              body_language := None; body_style := Some (js "concise");
              body_maxTweets := Some 3; body_includeHashtags := None;
              body_includeImages := None |} []).
  vm_compute. reflexivity.
Defined.

Lemma sanitizeInput_tagFree_witness :
  let opts :=
    defaults
      {| env_MAX_INPUT_LENGTH := None; env_MAX_TWEETS_PER_THREAD := None |} in
  let input := js "Ship <b>small</b> changes." in
  removeHTML opts = true /\ ~ In 38%N input
  /\ tagFree (sanitizeInput input opts).
Proof.
  cbv zeta. split; [reflexivity|].
  assert (H : ~ In 38%N (js "Ship <b>small</b> changes.")).
  { vm_compute. intuition discriminate. }
  split; [exact H|]. apply sanitizeInput_tagFree; [reflexivity|exact H].
Defined.

(** The markup goes and the text between the tags stays, also for a script
    element. *)
Example sanitizeInput_keeps_the_content :
  let opts :=
    defaults
      {| env_MAX_INPUT_LENGTH := None; env_MAX_TWEETS_PER_THREAD := None |} in
  sanitizeInput (js "Ship <b>small</b>   changes.") opts
  = js "Ship small changes."
  /\ sanitizeInput (js "<script>alert(1)</script>") opts = js "alert(1)".
Proof. vm_compute. split; reflexivity. Qed.

(** The entities are decoded after the tags are removed. *)
Example sanitizeInput_decodes_last :
  sanitizeInput (js "a &lt;b&gt; c &amp;amp; d")
    (defaults
       {| env_MAX_INPUT_LENGTH := None; env_MAX_TWEETS_PER_THREAD := None |})
  = js "a <b> c &amp; d".
Proof. vm_compute. reflexivity. Qed.

End SanitizerFacts.
